(** * AIOPriceRandomizer: a shallow embedding of the price-randomization engine

    The repository ships two renderings of the engine (the compact one with
    [seededRandom], [_lookupPrice], [_runCycle], ... and the verbose one with
    [createDeterministicRandomGenerator], [_lookupTemplatePriceFromDatabase],
    [_executeOneRandomizationCycle], ...).  Both are embedded here, function
    by function, under the names the source gives them.

    Modelling conventions.
    - A JavaScript number of the engine is an exact rational or [NaN]: the
      rounding of IEEE doubles is not modelled, and the engine's arithmetic
      is followed as long as it does not overflow.  Where overflow or an
      infinity decides a statement (the multiplier, the numbers the loaders
      receive), the type [double] adds the infinities and the overflow
      threshold of binary64.  The generator state is an integer with the
      32-bit conversions of the bit operators written out.
    - Values read from the reference tables are [jsval]s, so that the
      truthiness tests, [typeof] tests and coercions of the source can be
      followed literally.  [Number] applied to a string is a parameter of the
      development.
    - The engine object and the store it mutates form one [state]; every
      method is a function in a state-and-exception monad. *)

From Stdlib Require Import ZArith QArith Qabs Qround Lia Lqa Ascii String List.
From Stdlib Require SpecFloat.
From stdpp Require Import gmap strings list pretty.

Local Open Scope Z_scope.

(** ** 32-bit integer conversions of the bit operators *)

Definition two32 : Z := 4294967296.
Definition two31 : Z := 2147483648.

(** [x >>> 0] *)
Definition ToUint32 (x : Z) : Z := x mod two32.

(** [x | 0] *)
Definition ToInt32 (x : Z) : Z := (x + two31) mod two32 - two31.

(** [a ^ b] *)
Definition js_xor (a b : Z) : Z := ToInt32 (Z.lxor (ToInt32 a) (ToInt32 b)).

(** [a | b] *)
Definition js_or (a b : Z) : Z := ToInt32 (Z.lor (ToInt32 a) (ToInt32 b)).

(** [a >>> k] *)
Definition js_ushr (a k : Z) : Z := Z.shiftr (ToUint32 a) (k mod 32).

(** [Math.imul(a, b)] *)
Definition Math_imul (a b : Z) : Z := ToInt32 (ToInt32 a * ToInt32 b).

(** ** The Mulberry32 closure

    The closure returned by [seededRandom] captures one variable, [state].
    One call of the closure is [mulberry32_call]: it maps the captured
    variable to the returned number and the new content of the variable. *)

Definition mulberry32_call (state : Z) : Q * Z :=
  let state := state + 0x6D2B79F5 in
  let state := Math_imul (js_xor state (js_ushr state 15)) (js_or state 1) in
  let state := js_xor state (state + Math_imul (js_xor state (js_ushr state 7)) (js_or state 61)) in
  (Qmake (js_ushr (js_xor state (js_ushr state 14)) 0) 4294967296, state).

(** [seededRandom(seed)]: the initial content of the captured variable. *)
Definition seededRandom (seed : Z) : Z := ToUint32 seed.

(** [createDeterministicRandomGenerator(seedValue)] *)
Definition createDeterministicRandomGenerator (seedValue : Z) : Z := ToUint32 seedValue.

(** A heap of generator closures: each cell is one closure's captured
    variable.  Constructing a generator allocates a cell; calling generator
    [g] updates cell [g] only.  [body] is the body of the closure, that is
    [mulberry32_call] for both constructors. *)
Abbreviation gen_heap := (list Z).

Definition gen_new (ctor : Z -> Z) (seed : Z) (h : gen_heap) : nat * gen_heap :=
  (length h, h ++ [ctor seed]).

Section Closures.

Variable body : Z -> Q * Z.

Definition gen_call (g : nat) (h : gen_heap) : option (Q * gen_heap) :=
  match h !! g with
  | Some s => Some (fst (body s), <[g := snd (body s)]> h)
  | None => None
  end.

(** Running a schedule of calls; the result collects, per call, which
    generator was called and what it returned. *)
Fixpoint gen_run (sched : list nat) (h : gen_heap) : list (nat * Q) * gen_heap :=
  match sched with
  | [] => ([], h)
  | g :: rest =>
      match gen_call g h with
      | Some (r, h') => let '(outs, h'') := gen_run rest h' in ((g, r) :: outs, h'')
      | None => gen_run rest h
      end
  end.

(** The first [n] values of a closure whose captured variable holds [s]. *)
Fixpoint gen_stream (n : nat) (s : Z) : list Q :=
  match n with
  | O => []
  | S n' => fst (body s) :: gen_stream n' (snd (body s))
  end.

(** The captured variable after [n] calls. *)
Fixpoint gen_advance (n : nat) (s : Z) : Z :=
  match n with
  | O => s
  | S n' => gen_advance n' (snd (body s))
  end.

End Closures.

(** The values generator [g] returned, in call order. *)
Definition outputs_of (g : nat) (outs : list (nat * Q)) : list Q :=
  map snd (List.filter (fun o => Nat.eqb (fst o) g) outs).

(** ** JavaScript numbers and values *)

(** A number: an exact rational or [NaN]. *)
Inductive num : Type :=
  | NaN
  | Num (q : Q).

Definition num_mul (a b : num) : num :=
  match a, b with Num x, Num y => Num (x * y) | _, _ => NaN end.

Definition num_add (a b : num) : num :=
  match a, b with Num x, Num y => Num (x + y) | _, _ => NaN end.

Definition num_sub (a b : num) : num :=
  match a, b with Num x, Num y => Num (x - y) | _, _ => NaN end.

(** [a / b]; a zero divisor gives an infinity or [NaN] in JavaScript, none
    of which is finite, and the one caller tests [Number.isFinite] next. *)
Definition num_div (a b : num) : num :=
  match a, b with
  | Num x, Num y => if Qeq_bool y 0 then NaN else Num (x / y)
  | _, _ => NaN
  end.

(** [a > b], [a <= b]: false as soon as an operand is [NaN]. *)
Definition num_gt (a b : num) : bool :=
  match a, b with Num x, Num y => negb (Qle_bool x y) | _, _ => false end.

Definition num_le (a b : num) : bool :=
  match a, b with Num x, Num y => Qle_bool x y | _, _ => false end.

Definition Number_isFinite (a : num) : bool :=
  match a with Num _ => true | NaN => false end.

(** [Math.max(a, b)], [Math.min(a, b)]: [NaN] as soon as an operand is. *)
Definition Math_max (a b : num) : num :=
  match a, b with
  | Num x, Num y => Num (if Qle_bool x y then y else x)
  | _, _ => NaN
  end.

Definition Math_min (a b : num) : num :=
  match a, b with
  | Num x, Num y => Num (if Qle_bool x y then x else y)
  | _, _ => NaN
  end.

Definition Math_floor (a : num) : num :=
  match a with Num x => Num (inject_Z (Qfloor x)) | NaN => NaN end.

Definition Math_ceil (a : num) : num :=
  match a with Num x => Num (inject_Z (Qceiling x)) | NaN => NaN end.

(** [Math.round]: the nearest integer, halves going up. *)
Definition Math_round (a : num) : num :=
  match a with Num x => Num (inject_Z (Qfloor (x + (1 # 2)))) | NaN => NaN end.

(** [round(value, mode)] of the compact rendering. *)
Definition round (value : num) (mode : string) : num :=
  if String.eqb mode "floor" then Math_floor value
  else if String.eqb mode "ceil" then Math_ceil value
  else Math_round value.

(** [roundValueByMode(valueToRound, roundingMode)] of the verbose rendering. *)
Definition roundValueByMode (valueToRound : num) (roundingMode : string) : num :=
  if String.eqb roundingMode "floor" then Math_floor valueToRound
  else if String.eqb roundingMode "ceil" then Math_ceil valueToRound
  else Math_round valueToRound.

(** The values a table field, a cache slot or a method result can hold. *)
Inductive jsval : Type :=
  | VUndefined
  | VNull
  | VBool (b : bool)
  | VNumber (n : num)
  | VString (s : string).

(** Truthiness, as tested by [if (v)], [!v] and [v || w]. *)
Definition truthy (v : jsval) : bool :=
  match v with
  | VUndefined | VNull => false
  | VBool b => b
  | VNumber NaN => false
  | VNumber (Num q) => negb (Qeq_bool q 0)
  | VString s => negb (String.eqb s "")
  end.

(** [a || b] *)
Definition js_or_else (a b : jsval) : jsval := if truthy a then a else b.

Definition is_number (v : jsval) : bool :=
  match v with VNumber _ => true | _ => false end.

Definition is_string (v : jsval) : bool :=
  match v with VString _ => true | _ => false end.

(** [v === s] for a string [s]. *)
Definition strict_eq_string (v : jsval) (s : string) : bool :=
  match v with VString t => String.eqb t s | _ => false end.

Section Coercions.

(** [Number(s)] on a string. *)
Variable Number_of_string : string -> num.

(** The numeric coercion applied by [Number(v)], by the comparison
    operators and by the arithmetic operators. *)
Definition ToNumber (v : jsval) : num :=
  match v with
  | VUndefined => NaN
  | VNull => Num 0
  | VBool b => Num (if b then 1 else 0)
  | VNumber n => n
  | VString s => Number_of_string s
  end.

(** [v > 0] and [v <= 0] *)
Definition js_gt0 (v : jsval) : bool := num_gt (ToNumber v) (Num 0).
Definition js_le0 (v : jsval) : bool := num_le (ToNumber v) (Num 0).

End Coercions.

(** A [Number] for the strings used in the examples below: optional minus
    sign followed by decimal digits; every other string is taken as not
    numeric.  On these strings it agrees with JavaScript's [Number]. *)
Fixpoint decimal_digits (s : string) (acc : Z) : option Z :=
  match s with
  | EmptyString => Some acc
  | String c rest =>
      let n := Z.of_nat (Ascii.nat_of_ascii c) in
      if (48 <=? n) && (n <=? 57) then decimal_digits rest (10 * acc + (n - 48))
      else None
  end.

Definition decimal_Number (s : string) : num :=
  match s with
  | EmptyString => Num 0
  | String "-"%char (String c rest) =>
      match decimal_digits (String c rest) 0 with
      | Some z => Num (inject_Z (- z))
      | None => NaN
      end
  | _ => match decimal_digits s 0 with
         | Some z => Num (inject_Z z)
         | None => NaN
         end
  end.

(** ** Configuration, as delivered by [loadAndValidateConfig] *)

Record config : Type := {
  enabled : bool;
  autoDiscoverTraderIds : bool;
  traderIds : list string;
  minMultiplier : Q;
  maxMultiplier : Q;
  intervalSeconds : Z;
  rounding : string;
  onlyCashTrades : bool;
  (** the object [currencyTpls], keys in insertion order *)
  currencyTpls : list (string * string);
  CurrencyConversion_rounding : string;
  stickToBaseline : bool;
  minAbsolute : Q;
  maxAbsolute : Q;
  seed : Z;
  debug : bool
}.

(** [Object.values(config.currencyTpls)] *)
Definition currency_values (c : config) : list string := map snd (currencyTpls c).

(** [config.currencyTpls.ruble]; [None] stands for [undefined]. *)
Fixpoint assoc {A : Type} (k : string) (l : list (string * A)) : option A :=
  match l with
  | [] => None
  | (k', v) :: rest => if String.eqb k' k then Some v else assoc k rest
  end.

Definition currencyTpls_ruble (c : config) : option string := assoc "ruble" (currencyTpls c).

(** [arr.includes(s)] on an array of strings. *)
Definition includes (arr : list string) (s : string) : bool :=
  existsb (String.eqb s) arr.

(** *** The numeric normalisation of the loader

    [loadAndValidateConfig] of the verbose loader, restricted to the four
    numeric fields the randomizer reads.  The arguments are the results of
    [Number(...)] on the merged fields, when these are finite or [NaN]. *)

Definition BUILTIN_minMultiplier : Q := 85 # 100.
Definition BUILTIN_maxMultiplier : Q := 135 # 100.

Definition or_default (n : num) (d : Q) : Q :=
  match n with Num q => q | NaN => d end.

Definition normalize_multipliers (rawMin rawMax : num) : Q * Q :=
  let mn := or_default rawMin BUILTIN_minMultiplier in
  let mx := or_default rawMax BUILTIN_maxMultiplier in
  if negb (Qle_bool mn mx) then (mx, mn) else (mn, mx).

(** [Number(x) || 0] then the clamp at zero then the swap *)
Definition normalize_absolutes (rawMin rawMax : num) : Q * Q :=
  let mn := or_default rawMin 0 in
  let mx := or_default rawMax 0 in
  let mn := if negb (Qle_bool 0 mn) then 0%Q else mn in
  let mx := if negb (Qle_bool 0 mx) then 0%Q else mx in
  if negb (Qle_bool mx 0) && negb (Qle_bool mn mx) then (mx, mn) else (mn, mx).

(** What the loader guarantees about the numeric fields. *)
Definition validated (c : config) : Prop :=
  (minMultiplier c <= maxMultiplier c)%Q /\
  (0 <= minAbsolute c)%Q /\ (0 <= maxAbsolute c)%Q.

(** ** The store *)

(** One record of the price table or of the handbook. *)
Record price_entry : Type := {
  f_Id : jsval;
  f_id : jsval;
  f_Price : jsval;
  f_price : jsval;
  f_DefaultPrice : jsval;
  f_basePrice : jsval
}.

(** The two shapes of a table.  An element of the array shape may be
    [null] ([None]); reading a field of it throws. *)
Inductive table : Type :=
  | TArray (rows : list (option price_entry))
  | TMap (rows : gmap string price_entry).

(** A trade offer: counterpart identifier and quantity. *)
Record offer : Type := {
  offer_tpl : string;
  offer_count : num
}.

(** A barter scheme: an array whose element 0 is an array of offers, or an
    array of offers.  An element of an offer array may be [null]. *)
Inductive scheme : Type :=
  | SNested (options : list (list (option offer)))
  | SFlat (offers : list (option offer)).

(** [Array.isArray(scheme[0]) ? scheme[0] : scheme] *)
Definition scheme_offers (s : scheme) : list (option offer) :=
  match s with
  | SNested (o :: _) => o
  | SNested [] => []
  | SFlat l => l
  end.

(** The offers are mutated in place: the scheme holds the new array. *)
Definition scheme_with_offers (s : scheme) (l : list (option offer)) : scheme :=
  match s with
  | SNested (_ :: rest) => SNested (l :: rest)
  | SNested [] => SNested []
  | SFlat _ => SFlat l
  end.

Record item : Type := {
  item_tpl : string;
  item_id : string
}.

(** The field [assort.items]: missing, an array (elements may be [null]),
    or some other truthy value that is no array and cannot be iterated. *)
Inductive items_field : Type :=
  | ItemsMissing
  | ItemsArray (l : list (option item))
  | ItemsOther.

Record assortment : Type := {
  items : items_field;
  barter_scheme : list (string * scheme)
}.

(** The field [base.nickname] when it holds a value: a string, or a value
    that is no string (a number, [true], an array, an object), of which
    only its string conversion [String(value)] matters. *)
Inductive nickname_value : Type :=
  | NickString (s : string)
  | NickOther (rendered : string).

(** A trader; [nickname] is [None] when [base] or [base.nickname] is
    missing, [null], [0] or [false]. *)
Record trader : Type := {
  nickname : option nickname_value;
  assort : option assortment
}.

(** The store.  [traders] holds the entries of the object [db.traders] in
    the order of [Object.entries]; an identifier is looked up among these
    entries, so identifiers are taken not to name a property that every
    object inherits ([constructor], [toString], ...). *)
Record tables : Type := {
  prices : option table;
  handbook_Items : option table;
  traders : list (string * trader)
}.

(** Replace the value of the first binding of [k]. *)
Fixpoint assoc_set {A : Type} (k : string) (v : A) (l : list (string * A)) : list (string * A) :=
  match l with
  | [] => []
  | (k', v') :: rest =>
      if String.eqb k' k then (k', v) :: rest else (k', v') :: assoc_set k v rest
  end.

(** ** The engine object and the monad of its methods *)

Inductive level : Type := info | warn | error | debug_.

Record state : Type := {
  rng : Z;
  baselinePrices : gmap string jsval;
  priceCache : gmap string jsval;
  currencyCache : gmap string jsval;
  logger : list (level * string);
  db : tables
}.

Definition with_rng (s : Z) (st : state) : state :=
  {| rng := s; baselinePrices := baselinePrices st; priceCache := priceCache st;
     currencyCache := currencyCache st; logger := logger st; db := db st |}.

Definition with_baselinePrices (m : gmap string jsval) (st : state) : state :=
  {| rng := rng st; baselinePrices := m; priceCache := priceCache st;
     currencyCache := currencyCache st; logger := logger st; db := db st |}.

Definition with_priceCache (m : gmap string jsval) (st : state) : state :=
  {| rng := rng st; baselinePrices := baselinePrices st; priceCache := m;
     currencyCache := currencyCache st; logger := logger st; db := db st |}.

Definition with_currencyCache (m : gmap string jsval) (st : state) : state :=
  {| rng := rng st; baselinePrices := baselinePrices st; priceCache := priceCache st;
     currencyCache := m; logger := logger st; db := db st |}.

Definition with_logger (l : list (level * string)) (st : state) : state :=
  {| rng := rng st; baselinePrices := baselinePrices st; priceCache := priceCache st;
     currencyCache := currencyCache st; logger := l; db := db st |}.

Definition with_db (d : tables) (st : state) : state :=
  {| rng := rng st; baselinePrices := baselinePrices st; priceCache := priceCache st;
     currencyCache := currencyCache st; logger := logger st; db := d |}.

(** A method either returns or throws an error with a message. *)
Inductive result (A : Type) : Type :=
  | Ok (a : A)
  | Throw (message : string).
Arguments Ok {A} a.
Arguments Throw {A} message.

Definition M (A : Type) : Type := state -> result A * state.

Definition ret {A : Type} (a : A) : M A := fun st => (Ok a, st).

Definition bind {A B : Type} (m : M A) (k : A -> M B) : M B :=
  fun st =>
    match m st with
    | (Ok a, st') => k a st'
    | (Throw e, st') => (Throw e, st')
    end.

#[export] Instance M_ret : MRet M := @ret.
#[export] Instance M_bind : MBind M := fun A B k m => bind m k.

Definition throw {A : Type} (e : string) : M A := fun st => (Throw e, st).

Definition get : M state := fun st => (Ok st, st).

Definition modify (f : state -> state) : M unit := fun st => (Ok tt, f st).

Definition lift {A : Type} (r : result A) : M A := fun st => (r, st).

(** [try { m } catch (err) { h(err.message) }] *)
Definition try_catch {A : Type} (m : M A) (h : string -> M A) : M A :=
  fun st =>
    match m st with
    | (Ok a, st') => (Ok a, st')
    | (Throw e, st') => h e st'
    end.

(** [for (const x of xs) { body(x) }] *)
Fixpoint for_each {X : Type} (xs : list X) (body : X -> M unit) : M unit :=
  match xs with
  | [] => ret tt
  | x :: rest => body x;; for_each rest body
  end.

(** [this.logger.<level>(message)] *)
Definition log (l : level) (message : string) : M unit :=
  modify (fun st => with_logger (logger st ++ [(l, message)]) st).

(** [this.rng()] *)
Definition rng_call : M Q :=
  fun st => let '(r, s') := mulberry32_call (rng st) in (Ok r, with_rng s' st).

Definition modName : string := "AIOPriceRandomizer".

Definition tag (message : string) : string := ("[" ++ modName ++ "] " ++ message)%string.

(** The messages of the errors the JavaScript engine raises. *)
Definition TypeError_null_field : string := "Cannot read properties of null".
Definition TypeError_not_iterable : string := "trader.assort.items is not iterable".
Definition TypeError_toLowerCase : string := "toLowerCase is not a function".

(** [rows.find(p => p.Id === templateId || p.id === templateId)]: the
    callback throws on a [null] element met before a match. *)
Fixpoint find_entry (templateId : string) (rows : list (option price_entry))
  : result (option price_entry) :=
  match rows with
  | [] => Ok None
  | None :: _ => Throw TypeError_null_field
  | Some p :: rest =>
      if strict_eq_string (f_Id p) templateId || strict_eq_string (f_id p) templateId
      then Ok (Some p)
      else find_entry templateId rest
  end.

(** [entry?.Price || entry?.price] *)
Definition Price_or_price (entry : option price_entry) : jsval :=
  match entry with
  | Some e => js_or_else (f_Price e) (f_price e)
  | None => VUndefined
  end.

(** [e.Price || e.price || e.DefaultPrice || e.basePrice] *)
Definition any_price_field (e : price_entry) : jsval :=
  js_or_else (js_or_else (js_or_else (f_Price e) (f_price e)) (f_DefaultPrice e)) (f_basePrice e).

(** The index of the first element satisfying [p], counted from [i]. *)
Fixpoint find_index_from {A : Type} (p : A -> bool) (i : nat) (l : list A) : option nat :=
  match l with
  | [] => None
  | x :: rest => if p x then Some i else find_index_from p (S i) rest
  end.

(** [set.add(x)] on an insertion-ordered set. *)
Definition set_add (x : string) (s : list string) : list string :=
  if existsb (String.eqb x) s then s else s ++ [x].

(** [s.toLowerCase()] on the ASCII letters. *)
Definition lower_char (c : ascii) : ascii :=
  let n := Ascii.nat_of_ascii c in
  if (Nat.leb 65 n && Nat.leb n 90)%bool then Ascii.ascii_of_nat (n + 32) else c.

Fixpoint toLowerCase (s : string) : string :=
  match s with
  | EmptyString => EmptyString
  | String c rest => String (lower_char c) (toLowerCase rest)
  end.

(** [s.includes(needle)] on strings. *)
Fixpoint str_includes (needle s : string) : bool :=
  String.prefix needle s ||
  match s with
  | EmptyString => false
  | String _ rest => str_includes needle rest
  end.

(** [String(nickname || d)], which is also what a template literal makes
    of [nickname || d]. *)
Definition nickname_or (d : string) (n : option nickname_value) : string :=
  match n with
  | Some (NickString s) => if String.eqb s "" then d else s
  | Some (NickOther rendered) => rendered
  | None => d
  end.

(** [nickname || ""] is a string. *)
Definition nickname_is_string (n : option nickname_value) : bool :=
  match n with
  | Some (NickOther _) => false
  | _ => true
  end.

Section Engine.

Variable Number_of_string : string -> num.
Variable cfg : config.

Local Abbreviation ToNumber := (ToNumber Number_of_string).
Local Abbreviation js_gt0 := (js_gt0 Number_of_string).
Local Abbreviation js_le0 := (js_le0 Number_of_string).

(** [typeof v === "string" ? Number(v) : v] *)
Definition number_if_string (v : jsval) : jsval :=
  match v with VString s => VNumber (Number_of_string s) | _ => v end.

(** *** The compact rendering *)

(** The scan of the price table in [_lookupPrice]. *)
Definition scan_prices (t : option table) (templateId : string) : result jsval :=
  match t with
  | None => Ok VNull
  | Some (TArray rows) =>
      match find_entry templateId rows with
      | Ok entry => Ok (Price_or_price entry)
      | Throw e => Throw e
      end
  | Some (TMap rows) =>
      match rows !! templateId with
      | Some entry => Ok (number_if_string (any_price_field entry))
      | None => Ok VNull
      end
  end.

(** The handbook fallback in [_lookupPrice]. *)
Definition scan_handbook (price : jsval) (t : option table) (templateId : string)
  : result jsval :=
  match t with
  | None => Ok price
  | Some handbook =>
      if truthy price then Ok price
      else
        match handbook with
        | TArray rows =>
            match find_entry templateId rows with
            | Ok entry => Ok (number_if_string (Price_or_price entry))
            | Throw e => Throw e
            end
        | TMap rows => Ok (number_if_string (Price_or_price (rows !! templateId)))
        end
  end.

Definition _lookupPrice (templateId : string) : M jsval :=
  st ← get;
  match priceCache st !! templateId with
  | Some cached => ret cached
  | None =>
      price ← lift (scan_prices (prices (db st)) templateId);
      price ← lift (scan_handbook price (handbook_Items (db st)) templateId);
      let finalPrice := if truthy price && js_gt0 price then price else VNull in
      modify (fun st => with_priceCache (<[templateId := finalPrice]> (priceCache st)) st);;
      ret finalPrice
  end.

(** The templates of one trader, added to the set [allTemplates]. *)
Definition add_templates (l : list (option item)) (allTemplates : list string) : list string :=
  fold_left (fun acc it =>
               match it with
               | Some i => if negb (String.eqb (item_tpl i) "") then set_add (item_tpl i) acc else acc
               | None => acc
               end) l allTemplates.

Fixpoint collect_templates (d : tables) (traderIds : list string) (allTemplates : list string)
  : result (list string) :=
  match traderIds with
  | [] => Ok allTemplates
  | traderId :: rest =>
      match assoc traderId (traders d) with
      | Some {| assort := Some {| items := ItemsArray l |} |} =>
          collect_templates d rest (add_templates l allTemplates)
      | Some {| assort := Some {| items := ItemsOther |} |} => Throw TypeError_not_iterable
      | _ => collect_templates d rest allTemplates
      end
  end.

Definition _buildBaselines (traderIds : list string) : M unit :=
  st ← get;
  if stickToBaseline cfg && (0 <? size (baselinePrices st))%nat then ret tt
  else
    modify (with_baselinePrices ∅);;
    allTemplates ← lift (collect_templates (db st) traderIds []);
    for_each allTemplates (fun templateId =>
      price ← _lookupPrice templateId;
      if truthy price && js_gt0 price
      then modify (fun st => with_baselinePrices (<[templateId := price]> (baselinePrices st)) st)
      else ret tt);;
    st ← get;
    log info (tag ("Built baselines for " ++ pretty (size (baselinePrices st)) ++ " items")).

Definition _convertCurrency (rubles : num) (currencyTpl : string) : M jsval :=
  st ← get;
  (match currencyCache st !! currencyTpl with
   | Some _ => ret tt
   | None =>
       rate ← _lookupPrice currencyTpl;
       modify (fun st => with_currencyCache
                           (<[currencyTpl := js_or_else rate VNull]> (currencyCache st)) st)
   end);;
  st ← get;
  let rate := default VUndefined (currencyCache st !! currencyTpl) in
  if negb (truthy rate) || js_le0 rate then ret VNull
  else
    let converted := num_div rubles (ToNumber rate) in
    if negb (Number_isFinite converted) then ret VNull
    else ret (VNumber (round converted (CurrencyConversion_rounding cfg))).

(** The result is the position of the offer found in the array. *)
Definition _findCurrencyOffer (offers : list (option offer)) : option nat :=
  let currencies := currency_values cfg in
  find_index_from (fun o =>
    match o with
    | Some o => negb (String.eqb (offer_tpl o) "") && includes currencies (offer_tpl o)
    | None => false
    end) 0%nat offers.

(** [this.rng() * (max - min) + min] in exact arithmetic, which is the
    value the doubles deliver as long as [max - min] does not overflow
    (see [multiplier_double]). *)
Definition multiplier_of (r : Q) : Q :=
  (r * (maxMultiplier cfg - minMultiplier cfg) + minMultiplier cfg)%Q.

Definition _randomizePrice (baseline : jsval) : M num :=
  r ← rng_call;
  let multiplier := multiplier_of r in
  let price := num_mul (ToNumber baseline) (Num multiplier) in
  let price := if num_gt (Num (minAbsolute cfg)) (Num 0)
               then Math_max price (Num (minAbsolute cfg)) else price in
  let price := if num_gt (Num (maxAbsolute cfg)) (Num 0)
               then Math_min price (Num (maxAbsolute cfg)) else price in
  ret (round price (rounding cfg)).

(** [target.count = v] on the offer at position [i]. *)
Definition write_count (i : nat) (v : num) (offers : list (option offer))
  : list (option offer) :=
  match offers !! i with
  | Some (Some t) => <[i := Some {| offer_tpl := offer_tpl t; offer_count := v |}]> offers
  | _ => offers
  end.

(** [target._tpl === this.config.currencyTpls.ruble] *)
Definition is_ruble (tpl : string) : bool :=
  match currencyTpls_ruble cfg with
  | Some r => String.eqb tpl r
  | None => false
  end.

(** The method returns the flag; the array it mutated is returned with it. *)
Definition _updateOffer (offers : list (option offer)) (rubles : num)
  : M (bool * list (option offer)) :=
  let target :=
    if onlyCashTrades cfg then _findCurrencyOffer offers
    else match offers with Some _ :: _ => Some 0%nat | _ => None end in
  match target with
  | None => ret (false, offers)
  | Some i =>
      match offers !! i with
      | Some (Some t) =>
          if is_ruble (offer_tpl t)
          then ret (true, write_count i (Math_max (Num 1) rubles) offers)
          else
            converted ← _convertCurrency rubles (offer_tpl t);
            let v := Math_max (Num 1)
                       (ToNumber (js_or_else converted (VNumber (Math_floor rubles)))) in
            ret (true, write_count i v offers)
      | _ => ret (false, offers)
      end
  end.

(** A trader object is referred to by its key in [db.traders]; the
    objects reached from it are read from and written to the store. *)
Definition lookup_scheme (trader itemId : string) (d : tables) : option scheme :=
  match assoc trader (traders d) with
  | Some {| assort := Some a |} => assoc itemId (barter_scheme a)
  | _ => None
  end.

Definition store_offers (trader itemId : string) (l : list (option offer)) (d : tables)
  : tables :=
  match assoc trader (traders d) with
  | Some {| nickname := n; assort := Some a |} =>
      match assoc itemId (barter_scheme a) with
      | Some sch =>
          let a' := {| items := items a;
                       barter_scheme := assoc_set itemId (scheme_with_offers sch l)
                                          (barter_scheme a) |} in
          {| prices := prices d; handbook_Items := handbook_Items d;
             traders := assoc_set trader {| nickname := n; assort := Some a' |} (traders d) |}
      | None => d
      end
  | _ => d
  end.

(** One turn of the loop over [trader.assort.items]; the result tells
    whether [updatedCount] is incremented. *)
Definition _processTrader_item (trader : string) (it : option item) : M bool :=
  match it with
  | None => ret false
  | Some i =>
      if String.eqb (item_tpl i) "" || String.eqb (item_id i) "" then ret false
      else
        st ← get;
        let baseline := default VUndefined (baselinePrices st !! item_tpl i) in
        if negb (truthy baseline) || js_le0 baseline then ret false
        else
          newPrice ← _randomizePrice baseline;
          st ← get;
          match lookup_scheme trader (item_id i) (db st) with
          | None => ret false
          | Some sch =>
              res ← _updateOffer (scheme_offers sch) newPrice;
              modify (fun st => with_db (store_offers trader (item_id i) (snd res) (db st)) st);;
              ret (fst res)
          end
  end.

Fixpoint _processTrader_items (trader : string) (l : list (option item)) (updatedCount : nat)
  : M nat :=
  match l with
  | [] => ret updatedCount
  | it :: rest =>
      updated ← _processTrader_item trader it;
      _processTrader_items trader rest (if (updated : bool) then S updatedCount else updatedCount)
  end.

Definition _processTrader (trader : string) : M nat :=
  st ← get;
  match assoc trader (traders (db st)) with
  | Some {| nickname := n; assort := Some a |} =>
      match items a with
      | ItemsMissing => ret 0%nat
      | ItemsOther => throw TypeError_not_iterable
      | ItemsArray l =>
          updatedCount ← _processTrader_items trader l 0%nat;
          (if (0 <? updatedCount)%nat && debug cfg
           then log info (tag (nickname_or "Unknown" n ++ ": updated " ++ pretty updatedCount
                               ++ " offers"))
           else ret tt);;
          ret updatedCount
      end
  | _ => ret 0%nat
  end.

(** The test on the lowercased nickname, shared by the two renderings. *)
Definition nickname_matches (n : option nickname_value) : bool :=
  let nickname := toLowerCase (nickname_or "" n) in
  str_includes "aio" nickname || str_includes "bluehead" nickname
  || str_includes "aiotrader" nickname.

(** The loop of [_discoverTraders] over [Object.entries(traders)]:
    [(trader?.base?.nickname || "").toLowerCase()] throws when the
    nickname is a value other than a string. *)
Fixpoint discover (entries : list (string * trader)) (found : list string)
  : result (list string) :=
  match entries with
  | [] => Ok found
  | (traderId, trader) :: rest =>
      if nickname_is_string (nickname trader)
      then discover rest (if nickname_matches (nickname trader)
                          then found ++ [traderId] else found)
      else Throw TypeError_toLowerCase
  end.

Definition _discoverTraders : M (list string) :=
  st ← get;
  found ← lift (discover (traders (db st)) []);
  (if debug cfg
   then log debug_ (tag ("Auto-discovered " ++ pretty (length found) ++ " traders"))
   else ret tt);;
  ret found.

(** The loop "Process each trader" of [_runCycle]. *)
Definition _runCycle_trader (traderId : string) : M unit :=
  st ← get;
  match assoc traderId (traders (db st)) with
  | None => log warn (tag ("Trader not found: " ++ traderId))
  | Some _ =>
      try_catch (_processTrader traderId;; ret tt)
                (fun message => log error (tag ("Failed to process " ++ traderId ++ ": "
                                                 ++ message)))
  end.

Definition _runCycle_traders (traderIds : list string) : M unit :=
  for_each traderIds _runCycle_trader.

Definition _runCycle : M unit :=
  if negb (enabled cfg) then log info (tag "Disabled, skipping cycle")
  else
    traderIds ← (if autoDiscoverTraderIds cfg
                 then discovered ← _discoverTraders;
                      ret (if (0 <? length discovered)%nat then discovered
                           else traderIds cfg)
                 else ret (traderIds cfg));
    _buildBaselines traderIds;;
    _runCycle_traders traderIds.

End Engine.

(** ** The verbose rendering *)

Section EngineVerbose.

Variable Number_of_string : string -> num.
Variable cfg : config.

Local Abbreviation ToNumber := (ToNumber Number_of_string).
Local Abbreviation js_gt0 := (js_gt0 Number_of_string).
Local Abbreviation js_le0 := (js_le0 Number_of_string).

(** [typeof v === "number" && v > 0] *)
Definition positive_number (v : jsval) : bool :=
  match v with VNumber n => num_gt n (Num 0) | _ => false end.

(** [typeof v === "string" && !isNaN(Number(v))] *)
Definition numeric_string (v : jsval) : bool :=
  match v with
  | VString s => Number_isFinite (Number_of_string s)
  | _ => false
  end.

(** The two tests on a record found in an array-shaped table; [resolved]
    is the value of [resolvedPrice] before them. *)
Definition resolve_array_entry (resolved : jsval) (found : option price_entry) : jsval :=
  match found with
  | Some e =>
      if positive_number (f_Price e) then f_Price e
      else if positive_number (f_price e) then f_price e
      else resolved
  | None => resolved
  end.

(** The two tests on the value extracted from a map-shaped table. *)
Definition resolve_extracted (resolved : jsval) (extracted : jsval) : jsval :=
  if positive_number extracted then extracted
  else if numeric_string extracted then VNumber (ToNumber extracted)
  else resolved.

(** The body of the [try] block, up to the cache write. *)
Definition resolve_price (d : tables) (templateId : string) : result jsval :=
  let resolvedPrice := VNull in
  match
    match prices d with
    | None => Ok resolvedPrice
    | Some (TArray rows) =>
        match find_entry templateId rows with
        | Ok found => Ok (resolve_array_entry resolvedPrice found)
        | Throw e => Throw e
        end
    | Some (TMap rows) =>
        match rows !! templateId with
        | Some priceEntry => Ok (resolve_extracted resolvedPrice (any_price_field priceEntry))
        | None => Ok resolvedPrice
        end
    end
  with
  | Throw e => Throw e
  | Ok resolvedPrice =>
      if truthy resolvedPrice then Ok resolvedPrice
      else
        match handbook_Items d with
        | Some (TArray rows) =>
            match find_entry templateId rows with
            | Ok found => Ok (resolve_array_entry resolvedPrice found)
            | Throw e => Throw e
            end
        | Some (TMap rows) =>
            match rows !! templateId with
            | Some handbookEntry =>
                Ok (resolve_extracted resolvedPrice
                      (js_or_else (f_Price handbookEntry) (f_price handbookEntry)))
            | None => Ok resolvedPrice
            end
        | None => Ok resolvedPrice
        end
  end.

Definition _lookupTemplatePriceFromDatabase (templateId : string) : M jsval :=
  st ← get;
  match priceCache st !! templateId with
  | Some cached => ret cached
  | None =>
      try_catch
        (resolvedPrice ← lift (resolve_price (db st) templateId);
         modify (fun st => with_priceCache (<[templateId := resolvedPrice]> (priceCache st)) st);;
         ret resolvedPrice)
        (fun message =>
           log error (tag ("Failed to lookup price for template " ++ templateId ++ ": "
                           ++ message));;
           modify (fun st => with_priceCache (<[templateId := VNull]> (priceCache st)) st);;
           ret VNull)
  end.

(** The first loop of the baseline builder; nothing in its [try] block
    can throw on the store modelled here. *)
Fixpoint collect_unique_templates (d : tables) (targetTraderIds : list string)
  (uniqueTemplateIds : list string) : list string :=
  match targetTraderIds with
  | [] => uniqueTemplateIds
  | currentTraderId :: rest =>
      match assoc currentTraderId (traders d) with
      | Some {| assort := Some {| items := ItemsArray l |} |} =>
          collect_unique_templates d rest (add_templates l uniqueTemplateIds)
      | _ => collect_unique_templates d rest uniqueTemplateIds
      end
  end.

Definition _buildBaselinePricesFromTraders (targetTraderIds : list string) (forceRebuild : bool)
  : M unit :=
  st ← get;
  if negb forceRebuild && stickToBaseline cfg && (0 <? size (baselinePrices st))%nat
  then
    if debug cfg then log debug_ (tag "baseline already present, skipping rebuild")
    else ret tt
  else
    modify (with_baselinePrices ∅);;
    let uniqueTemplateIds := collect_unique_templates (db st) targetTraderIds [] in
    for_each uniqueTemplateIds (fun templateId =>
      try_catch
        (templatePrice ← _lookupTemplatePriceFromDatabase templateId;
         if truthy templatePrice && js_gt0 templatePrice
         then modify (fun st => with_baselinePrices
                                  (<[templateId := templatePrice]> (baselinePrices st)) st)
         else ret tt)
        (fun message =>
           if debug cfg
           then log error (tag ("Failed to establish baseline price for " ++ templateId
                                ++ ": " ++ message))
           else ret tt));;
    st ← get;
    log info (tag ("built baseline for " ++ pretty (size (baselinePrices st)) ++ " templates")).

Definition _convertRublesToTargetCurrency (rubleAmount : num) (targetCurrencyTemplateId : string)
  : M jsval :=
  try_catch
    (st ← get;
     (match currencyCache st !! targetCurrencyTemplateId with
      | Some _ => ret tt
      | None =>
          currencyPrice ← _lookupTemplatePriceFromDatabase targetCurrencyTemplateId;
          modify (fun st => with_currencyCache
                              (<[targetCurrencyTemplateId := js_or_else currencyPrice VNull]>
                                 (currencyCache st)) st)
      end);;
     st ← get;
     let conversionRate := default VUndefined (currencyCache st !! targetCurrencyTemplateId) in
     if negb (truthy conversionRate) || js_le0 conversionRate then ret VNull
     else
       let convertedAmount := num_div rubleAmount (ToNumber conversionRate) in
       if negb (Number_isFinite convertedAmount) then ret VNull
       else ret (VNumber (roundValueByMode convertedAmount (CurrencyConversion_rounding cfg))))
    (fun message =>
       log error (tag ("Currency conversion failed for " ++ targetCurrencyTemplateId ++ ": "
                       ++ message));;
       ret VNull).

(** The result is the position of the offer found in the array. *)
Definition _findCurrencyOfferInTradeList (tradeOffers : list (option offer)) : option nat :=
  find_index_from (fun currentOffer =>
    match currentOffer with
    | Some o => includes (currency_values cfg) (offer_tpl o)
    | None => false
    end) 0%nat tradeOffers.

Definition _calculateRandomizedPrice (baselinePrice : jsval) : M num :=
  r ← rng_call;
  let randomMultiplier := multiplier_of cfg r in
  let calculatedRublePrice := num_mul (ToNumber baselinePrice) (Num randomMultiplier) in
  let calculatedRublePrice :=
    if truthy (VNumber (Num (minAbsolute cfg))) && num_gt (Num (minAbsolute cfg)) (Num 0)
    then Math_max calculatedRublePrice (Num (minAbsolute cfg)) else calculatedRublePrice in
  let calculatedRublePrice :=
    if truthy (VNumber (Num (maxAbsolute cfg))) && num_gt (Num (maxAbsolute cfg)) (Num 0)
    then Math_min calculatedRublePrice (Num (maxAbsolute cfg)) else calculatedRublePrice in
  ret (roundValueByMode calculatedRublePrice (rounding cfg)).

(** The write shared by the two branches of [_updateTradeOfferPrice]. *)
Definition write_price (i : nat) (t : offer) (tradeOffersList : list (option offer))
  (finalRublePrice : num) : M (bool * list (option offer)) :=
  if is_ruble cfg (offer_tpl t)
  then ret (true, write_count i (Math_max (Num 1) finalRublePrice) tradeOffersList)
  else
    convertedCurrencyAmount ← _convertRublesToTargetCurrency finalRublePrice (offer_tpl t);
    let v := Math_max (Num 1)
               (ToNumber (js_or_else convertedCurrencyAmount
                            (VNumber (Math_floor finalRublePrice)))) in
    ret (true, write_count i v tradeOffersList).

Definition _updateTradeOfferPrice (tradeOffersList : list (option offer))
  (finalRublePrice : num) : M (bool * list (option offer)) :=
  if onlyCashTrades cfg then
    match _findCurrencyOfferInTradeList tradeOffersList with
    | None => ret (false, tradeOffersList)
    | Some i =>
        match tradeOffersList !! i with
        | Some (Some currencyOffer) => write_price i currencyOffer tradeOffersList finalRublePrice
        | _ => ret (false, tradeOffersList)
        end
    end
  else
    match tradeOffersList with
    | Some firstTradeOffer :: _ => write_price 0 firstTradeOffer tradeOffersList finalRublePrice
    | _ => ret (false, tradeOffersList)
    end.

(** [String(nickname || "")] precedes [toLowerCase] here, so a nickname
    that is no string is tested on its string conversion. *)
Definition _autoDiscoverRelevantTraders : M (list string) :=
  st ← get;
  let discoveredTraderIds :=
    map fst (List.filter (fun kv => nickname_matches (nickname (snd kv))) (traders (db st))) in
  (if debug cfg
   then log debug_ (tag ("auto-discovered " ++ pretty (length discoveredTraderIds)
                         ++ " traders"))
   else ret tt);;
  ret discoveredTraderIds.

(** One turn of the loop over [assortedItemsList]; the result tells
    whether [modifiedItemsCount] is incremented. *)
Definition _randomizeTraderPrices_item (targetTrader : string) (currentItem : option item)
  : M bool :=
  match currentItem with
  | None => ret false
  | Some i =>
      if String.eqb (item_tpl i) "" || String.eqb (item_id i) "" then ret false
      else
        st ← get;
        let baselinePrice := default VUndefined (baselinePrices st !! item_tpl i) in
        if negb (truthy baselinePrice) || js_le0 baselinePrice then ret false
        else
          finalRublePrice ← _calculateRandomizedPrice baselinePrice;
          st ← get;
          match lookup_scheme targetTrader (item_id i) (db st) with
          | None => ret false
          | Some barterOptions =>
              res ← _updateTradeOfferPrice (scheme_offers barterOptions) finalRublePrice;
              modify (fun st => with_db (store_offers targetTrader (item_id i) (snd res)
                                           (db st)) st);;
              ret (fst res)
          end
  end.

Fixpoint _randomizeTraderPrices_items (targetTrader : string) (l : list (option item))
  (modifiedItemsCount : nat) : M nat :=
  match l with
  | [] => ret modifiedItemsCount
  | currentItem :: rest =>
      wasUpdated ← _randomizeTraderPrices_item targetTrader currentItem;
      _randomizeTraderPrices_items targetTrader rest
        (if (wasUpdated : bool) then S modifiedItemsCount else modifiedItemsCount)
  end.

Definition _randomizeTraderPrices (targetTrader : string) : M nat :=
  st ← get;
  match assoc targetTrader (traders (db st)) with
  | Some {| nickname := n; assort := Some a |} =>
      let assortedItemsList := match items a with ItemsArray l => l | _ => [] end in
      modifiedItemsCount ← _randomizeTraderPrices_items targetTrader assortedItemsList 0%nat;
      (if (0 <? modifiedItemsCount)%nat && debug cfg
       then log info (tag ("Updated " ++ pretty modifiedItemsCount ++ " offers for "
                           ++ nickname_or "unknown" n))
       else ret tt);;
      ret modifiedItemsCount
  | _ => ret 0%nat
  end.

(** The loop "Process each trader" of [_executeOneRandomizationCycle]. *)
Definition _executeOneRandomizationCycle_trader (currentTraderId : string) : M unit :=
  st ← get;
  match assoc currentTraderId (traders (db st)) with
  | None => log warn (tag ("trader not found: " ++ currentTraderId))
  | Some _ =>
      try_catch (_randomizeTraderPrices currentTraderId;; ret tt)
                (fun message => log error (tag ("failed to randomize " ++ currentTraderId
                                                 ++ ": " ++ message)))
  end.

Definition _executeOneRandomizationCycle_traders (activeTraderIds : list string) : M unit :=
  for_each activeTraderIds _executeOneRandomizationCycle_trader.

Definition _executeOneRandomizationCycle : M unit :=
  if negb (enabled cfg) then log info (tag "disabled -> skipping cycle")
  else
    activeTraderIds ← (if autoDiscoverTraderIds cfg
                       then discoveredTraderIds ← _autoDiscoverRelevantTraders;
                            ret (if (0 <? length discoveredTraderIds)%nat
                                 then discoveredTraderIds else traderIds cfg)
                       else ret (traderIds cfg));
    _buildBaselinePricesFromTraders activeTraderIds false;;
    _executeOneRandomizationCycle_traders activeTraderIds.

End EngineVerbose.


(** ** Notions used in the statements *)

(** How often generator [g] is called by a schedule. *)
Definition count_calls (g : nat) (sched : list nat) : nat :=
  length (List.filter (Nat.eqb g) sched).

(** Two generators constructed one after the other from the same seed, then
    a schedule of calls: the values each of them returned. *)
Definition two_generators (body : Z -> Q * Z) (ctor : Z -> Z) (seed : Z) (h0 : gen_heap)
  (sched : list nat) : list Q * list Q :=
  let '(a, h1) := gen_new ctor seed h0 in
  let '(b, h2) := gen_new ctor seed h1 in
  let outs := fst (gen_run body sched h2) in
  (outputs_of a outs, outputs_of b outs).

(** ** Sample configurations, stores and states *)

(** The built-in defaults of the loader, with the seed resolved. *)
Definition DEFAULT_CONFIG (seed : Z) : config := {|
  enabled := true;
  autoDiscoverTraderIds := true;
  traderIds := [];
  minMultiplier := BUILTIN_minMultiplier;
  maxMultiplier := BUILTIN_maxMultiplier;
  intervalSeconds := 3600;
  rounding := "nearest";
  onlyCashTrades := true;
  currencyTpls := [("ruble", "5449016a4bdc2d6f028b456f");
                   ("dollar", "5696686a4bdc2da3298b456a");
                   ("eur", "569668774bdc2da2298b4568")];
  CurrencyConversion_rounding := "nearest";
  stickToBaseline := true;
  minAbsolute := 0;
  maxAbsolute := 0;
  seed := seed;
  debug := false
|}.

Definition with_multipliers (mn mx : Q) (c : config) : config := {|
  enabled := enabled c;
  autoDiscoverTraderIds := autoDiscoverTraderIds c;
  traderIds := traderIds c;
  minMultiplier := mn;
  maxMultiplier := mx;
  intervalSeconds := intervalSeconds c;
  rounding := rounding c;
  onlyCashTrades := onlyCashTrades c;
  currencyTpls := currencyTpls c;
  CurrencyConversion_rounding := CurrencyConversion_rounding c;
  stickToBaseline := stickToBaseline c;
  minAbsolute := minAbsolute c;
  maxAbsolute := maxAbsolute c;
  seed := seed c;
  debug := debug c
|}.

(** A user configuration with [minMultiplier: -2, maxMultiplier: -1]. *)
Definition cfg_negative : config := with_multipliers (-2) (-1) (DEFAULT_CONFIG 0).

Definition empty_tables : tables :=
  {| prices := None; handbook_Items := None; traders := [] |}.

(** The engine right after [postDBLoad] has constructed the generator. *)
Definition initial_state (c : config) (d : tables) : state := {|
  rng := seededRandom (seed c);
  baselinePrices := ∅;
  priceCache := ∅;
  currencyCache := ∅;
  logger := [];
  db := d
|}.

(** What a method guarantees about the value it returns, when it returns. *)
Definition returns {A : Type} (P : A -> Prop) (m : M A) : Prop :=
  forall st a st', m st = (Ok a, st') -> P a.

(** The frame relations: the method leaves the generator alone, leaves the
    baseline map alone, only adds entries to the reference price cache. *)
Definition preserves (R : state -> state -> Prop) {A : Type} (m : M A) : Prop :=
  forall st, R st (snd (m st)).
Definition same_rng (st st' : state) : Prop := rng st' = rng st.
Definition same_baselines (st st' : state) : Prop := baselinePrices st' = baselinePrices st.
Definition cache_grows (st st' : state) : Prop := priceCache st ⊆ priceCache st'.

(** The offer at position [i] of [offers] was given the quantity [v] and
    nothing else changed. *)
Definition wrote_count (offers offers' : list (option offer)) (i : nat) (v : Q) : Prop :=
  exists t, offers !! i = Some (Some t) /\
            offers' = <[i := Some {| offer_tpl := offer_tpl t; offer_count := Num v |}]> offers.

(** The updater reported a write only if it gave some offer a quantity of
    at least 1. *)
Definition written_at_least_1 (offers : list (option offer))
  (res : bool * list (option offer)) : Prop :=
  fst res = true -> exists i v, wrote_count offers (snd res) i v /\ (1 <= v)%Q.

(** A value a conversion may return. *)
Definition null_or_number (v : jsval) : Prop := v = VNull \/ exists x, v = VNumber (Num x).

Definition ruble_tpl : string := "5449016a4bdc2d6f028b456f".
Definition dollar_tpl : string := "5696686a4bdc2da3298b456a".

Definition ruble_offer (n : Q) : option offer :=
  Some {| offer_tpl := ruble_tpl; offer_count := Num n |}.
Definition dollar_offer (n : Q) : option offer :=
  Some {| offer_tpl := dollar_tpl; offer_count := Num n |}.

(** A dollar offer listed before a ruble offer. *)
Definition dollar_then_ruble : list (option offer) := [dollar_offer 10; ruble_offer 1000].

Definition no_fields : price_entry := {|
  f_Id := VUndefined; f_id := VUndefined; f_Price := VUndefined;
  f_price := VUndefined; f_DefaultPrice := VUndefined; f_basePrice := VUndefined
|}.

(** [{ Id: id, Price: p }] *)
Definition entry_Id_Price (id : string) (p : jsval) : price_entry := {|
  f_Id := VString id; f_id := VUndefined; f_Price := p;
  f_price := VUndefined; f_DefaultPrice := VUndefined; f_basePrice := VUndefined
|}.

(** [{ Price: p }] *)
Definition entry_Price (p : jsval) : price_entry := {|
  f_Id := VUndefined; f_id := VUndefined; f_Price := p;
  f_price := VUndefined; f_DefaultPrice := VUndefined; f_basePrice := VUndefined
|}.

(** A price table [{ "x": { Price: "-5" } }]. *)
Definition tables_negative_string : tables :=
  {| prices := Some (TMap {[ "x" := entry_Price (VString "-5") ]});
     handbook_Items := None; traders := [] |}.

(** A price table [[ { Id: "x", Price: "100" } ]]. *)
Definition tables_array_string : tables :=
  {| prices := Some (TArray [Some (entry_Id_Price "x" (VString "100"))]);
     handbook_Items := None; traders := [] |}.

(** A state whose baseline map holds one entry. *)
Definition frozen_state (d : tables) : state :=
  with_baselinePrices {[ "x" := VNumber (Num 1000) ]} (initial_state (DEFAULT_CONFIG 0) d).

(** What may happen to the engine between two calls of the resolver: any
    method of the engine, or a change of the store by the host. *)
Inductive activity : Type :=
  | DoLookup (templateId : string)
  | DoBuildBaselines (traderIds : list string) (forceRebuild : bool)
  | DoConvert (rubles : num) (currencyTpl : string)
  | DoUpdateOffer (offers : list (option offer)) (rubles : num)
  | DoProcessTrader (trader : string)
  | DoCycle
  | StoreChanged (d : tables).

Definition perform_compact (N : string -> num) (cfg : config) (a : activity) (st : state)
  : state :=
  match a with
  | DoLookup templateId => snd (_lookupPrice N templateId st)
  | DoBuildBaselines traderIds _ => snd (_buildBaselines N cfg traderIds st)
  | DoConvert rubles currencyTpl => snd (_convertCurrency N cfg rubles currencyTpl st)
  | DoUpdateOffer offers rubles => snd (_updateOffer N cfg offers rubles st)
  | DoProcessTrader trader => snd (_processTrader N cfg trader st)
  | DoCycle => snd (_runCycle N cfg st)
  | StoreChanged d => with_db d st
  end.

Definition perform_verbose (N : string -> num) (cfg : config) (a : activity) (st : state)
  : state :=
  match a with
  | DoLookup templateId => snd (_lookupTemplatePriceFromDatabase N templateId st)
  | DoBuildBaselines traderIds forceRebuild =>
      snd (_buildBaselinePricesFromTraders N cfg traderIds forceRebuild st)
  | DoConvert rubles currencyTpl =>
      snd (_convertRublesToTargetCurrency N cfg rubles currencyTpl st)
  | DoUpdateOffer offers rubles => snd (_updateTradeOfferPrice N cfg offers rubles st)
  | DoProcessTrader trader => snd (_randomizeTraderPrices N cfg trader st)
  | DoCycle => snd (_executeOneRandomizationCycle N cfg st)
  | StoreChanged d => with_db d st
  end.

(** A method that returns on every state. *)
Definition never_throws {A : Type} (m : M A) : Prop :=
  forall st, exists a st', m st = (Ok a, st').

(** The test both renderings apply before they draw a price for an
    assortment item: the item is an object with a non-empty [_tpl] and a
    non-empty [_id], and the baseline map holds a truthy value for its
    [_tpl] that is not [<= 0]. *)
Definition carries_baseline (N : string -> num) (st : state) (it : option item) : bool :=
  match it with
  | Some i =>
      negb (String.eqb (item_tpl i) "") && negb (String.eqb (item_id i) "")
      && (let baseline := default VUndefined (baselinePrices st !! item_tpl i) in
          truthy baseline && negb (js_le0 N baseline))
  | None => false
  end.

(** The array [trader.assort.items], empty when there is none. *)
Definition trader_items (d : tables) (t : string) : list (option item) :=
  match assoc t (traders d) with
  | Some {| assort := Some {| items := ItemsArray l |} |} => l
  | _ => []
  end.

(** An item whose template has a baseline price but whose [_id] is empty. *)
Definition item_without_id : option item := Some {| item_tpl := "x"; item_id := "" |}.

Definition tables_item_without_id : tables :=
  {| prices := None; handbook_Items := None;
     traders := [("t", {| nickname := Some (NickString "AIO");
                          assort := Some {| items := ItemsArray [item_without_id];
                                            barter_scheme := [] |} |})] |}.

Definition ruble_then_dollar : list (option offer) := [ruble_offer 5; dollar_offer 1].

(** What happens between the two calls in the memoization example: the host
    replaces the store, then the engine runs a cycle. *)
Definition example_activities : list activity := [StoreChanged empty_tables; DoCycle].

(** ** Notions used by the further properties *)

(** A resolver result of the compact rendering: absent, or a truthy value
    that coerces to a number greater than zero. *)
Definition positive_or_null (N : string -> num) (v : jsval) : Prop :=
  v = VNull \/ (truthy v = true /\ js_gt0 N v = true).

(** Every entry of the reference price cache satisfies [P]. *)
Definition cache_ok (P : jsval -> Prop) (st : state) : Prop :=
  forall k v, priceCache st !! k = Some v -> P v.

(** Every baseline price is the cached reference price of its template and
    is strictly positive. *)
Definition baselines_ok (N : string -> num) (st : state) : Prop :=
  forall k v, baselinePrices st !! k = Some v ->
              priceCache st !! k = Some v /\ truthy v = true /\ js_gt0 N v = true.

(** The method keeps the property [I] of the engine state. *)
Definition keeps (I : state -> Prop) (st st' : state) : Prop := I st -> I st'.

(** The state the engine reaches from [st] by a sequence of activities. *)
Definition after_compact (N : string -> num) (cfg : config) (acts : list activity)
  (st : state) : state :=
  fold_left (fun s a => perform_compact N cfg a s) acts st.

Definition after_verbose (N : string -> num) (cfg : config) (acts : list activity)
  (st : state) : state :=
  fold_left (fun s a => perform_verbose N cfg a s) acts st.

(** A store with one trader whose [assort.items] is an object. *)
Definition tables_items_object : tables :=
  {| prices := None; handbook_Items := None;
     traders := [("t", {| nickname := Some (NickString "AIO");
                          assort := Some {| items := ItemsOther; barter_scheme := [] |} |})] |}.

(** The defaults with one configured trader and discovery switched off. *)
Definition cfg_one_trader : config := {|
  enabled := true;
  autoDiscoverTraderIds := false;
  traderIds := ["t"];
  minMultiplier := BUILTIN_minMultiplier;
  maxMultiplier := BUILTIN_maxMultiplier;
  intervalSeconds := 3600;
  rounding := "nearest";
  onlyCashTrades := true;
  currencyTpls := currencyTpls (DEFAULT_CONFIG 0);
  CurrencyConversion_rounding := "nearest";
  stickToBaseline := true;
  minAbsolute := 0;
  maxAbsolute := 0;
  seed := 0;
  debug := false
|}.

(** The defaults with both absolute bounds set to 500. *)
Definition cfg_fixed_price : config := {|
  enabled := true;
  autoDiscoverTraderIds := true;
  traderIds := [];
  minMultiplier := BUILTIN_minMultiplier;
  maxMultiplier := BUILTIN_maxMultiplier;
  intervalSeconds := 3600;
  rounding := "nearest";
  onlyCashTrades := true;
  currencyTpls := currencyTpls (DEFAULT_CONFIG 0);
  CurrencyConversion_rounding := "nearest";
  stickToBaseline := true;
  minAbsolute := 500;
  maxAbsolute := 500;
  seed := 0;
  debug := false
|}.

(** An engine whose rate cache holds a dollar rate of 120. *)
Definition state_with_dollar_rate : state :=
  with_currencyCache {[ dollar_tpl := VNumber (Num 120) ]}
    (initial_state (DEFAULT_CONFIG 0) empty_tables).


(** ** Doubles

    A number with the range of a double: [NaN], an infinity, or a finite
    value.  An operation whose exact result reaches the overflow threshold
    [2^1024 - 2^970] of binary64 gives an infinity; the rounding of finite
    results to 53 bits is not modelled. *)
Inductive double : Type :=
  | DNaN
  | DInf (negative : bool)
  | DFin (q : Q).

Definition double_overflow : Q := inject_Z (2 ^ 1024 - 2 ^ 970).

Definition to_double (x : Q) : double :=
  if Qle_bool double_overflow x then DInf false
  else if Qle_bool x (- double_overflow) then DInf true
  else DFin x.

Definition double_opp (a : double) : double :=
  match a with
  | DNaN => DNaN
  | DInf s => DInf (negb s)
  | DFin x => DFin (- x)
  end.

(** [a + b] *)
Definition double_add (a b : double) : double :=
  match a, b with
  | DFin x, DFin y => to_double (x + y)
  | DFin _, DInf s | DInf s, DFin _ => DInf s
  | DInf s, DInf s' => if Bool.eqb s s' then DInf s else DNaN
  | _, _ => DNaN
  end.

(** [a - b] *)
Definition double_sub (a b : double) : double := double_add a (double_opp b).

(** [a * b]; zero times an infinity is [NaN]. *)
Definition double_mul (a b : double) : double :=
  match a, b with
  | DFin x, DFin y => to_double (x * y)
  | DFin x, DInf s | DInf s, DFin x =>
      if Qeq_bool x 0 then DNaN else DInf (xorb s (negb (Qle_bool 0 x)))
  | DInf s, DInf s' => DInf (xorb s s')
  | _, _ => DNaN
  end.

(** [a < b] and [a > b]: false as soon as an operand is [NaN]. *)
Definition double_lt (a b : double) : bool :=
  match a, b with
  | DNaN, _ | _, DNaN => false
  | DInf true, DInf true => false
  | DInf true, _ => true
  | _, DInf true => false
  | DInf false, _ => false
  | DFin _, DInf false => true
  | DFin x, DFin y => negb (Qle_bool y x)
  end.

Definition double_gt (a b : double) : bool := double_lt b a.

(** [Math.max(a, b)] *)
Definition double_max (a b : double) : double :=
  match a, b with
  | DNaN, _ | _, DNaN => DNaN
  | _, _ => if double_lt a b then b else a
  end.

Definition double_floor (a : double) : double :=
  match a with
  | DFin x => DFin (inject_Z (Qfloor x))
  | _ => a
  end.

Definition double_abs (a : double) : double :=
  match a with
  | DNaN => DNaN
  | DInf _ => DInf false
  | DFin x => DFin (Qabs x)
  end.

(** The order and the equality of the values of doubles; [NaN] is
    related to nothing. *)
Definition double_le (a b : double) : Prop :=
  match a, b with
  | DNaN, _ | _, DNaN => False
  | DInf true, _ => True
  | _, DInf false => True
  | DFin x, DFin y => (x <= y)%Q
  | _, _ => False
  end.

Definition double_eq (a b : double) : Prop :=
  match a, b with
  | DFin x, DFin y => (x == y)%Q
  | DInf s, DInf s' => s = s'
  | _, _ => False
  end.

(** What [Number.isFinite] lets through: a finite number; [NaN] stands
    for every other value. *)
Definition finite_or_NaN (a : double) : num :=
  match a with
  | DFin x => Num x
  | _ => NaN
  end.

Definition double_of_num (a : num) : double :=
  match a with
  | Num x => DFin x
  | NaN => DNaN
  end.

(** *** The multiplier in doubles

    [this.rng() * (max - min) + min] of both price randomizers, with the
    overflow of its three operations. *)
Definition multiplier_double (cfg : config) (r : Q) : double :=
  double_add
    (double_mul (DFin r) (double_sub (DFin (maxMultiplier cfg)) (DFin (minMultiplier cfg))))
    (DFin (minMultiplier cfg)).

(** The same expression in the binary64 arithmetic of the Standard
    Library, rounding included. *)
Definition multiplier_binary64 (r mn mx : SpecFloat.spec_float) : SpecFloat.spec_float :=
  SpecFloat.SFadd 53 1024
    (SpecFloat.SFmul 53 1024 r (SpecFloat.SFsub 53 1024 mx mn)) mn.

(** The value of a binary64 number. *)
Definition binary64_value (f : SpecFloat.spec_float) : double :=
  match f with
  | SpecFloat.S754_zero _ => DFin 0
  | SpecFloat.S754_infinity s => DInf s
  | SpecFloat.S754_nan => DNaN
  | SpecFloat.S754_finite s m e =>
      DFin ((if s then -1 else 1) * inject_Z (Z.pos m) * Qpower 2 e)
  end.

(** The double written [1e308], which is [5010420900022432 * 2^971], and
    the first output of the generator seeded with 0, which is
    [1144304738 / 2^32], as binary64 numbers. *)
Definition double_1e308 : Q := inject_Z (5010420900022432 * 2 ^ 971).
Definition binary64_1e308 : SpecFloat.spec_float :=
  SpecFloat.S754_finite false 5010420900022432 971.
Definition binary64_first_output : SpecFloat.spec_float :=
  SpecFloat.S754_finite false (1144304738 * 2 ^ 22) (-54).

(** A configuration with the multipliers [-1e308] and [1e308]. *)
Definition cfg_huge_multipliers : config :=
  with_multipliers (- double_1e308) double_1e308 (DEFAULT_CONFIG 0).


(** ** The loader: [loadAndValidateConfig]

    The loader exists in two renderings as well.  The steps that
    normalise one field each are taken one by one; their arguments are the
    values of the merged configuration object. *)

(** [Number(x) || d] of the compact loader: the default replaces [NaN] and
    zero alike; an infinity is kept. *)
Definition double_or (n : double) (d : Q) : double :=
  match n with
  | DFin q => if Qeq_bool q 0 then DFin d else n
  | DInf _ => n
  | DNaN => DFin d
  end.

(** The multipliers of the verbose loader, for every value [Number]
    delivers: what [Number.isFinite] rejects is replaced by the default. *)
Definition normalize_multipliers_double (rawMin rawMax : double) : Q * Q :=
  normalize_multipliers (finite_or_NaN rawMin) (finite_or_NaN rawMax).

(** The multipliers, compact loader. *)
Definition normalize_multipliers_compact (rawMin rawMax : double) : double * double :=
  let mn := double_or rawMin BUILTIN_minMultiplier in
  let mx := double_or rawMax BUILTIN_maxMultiplier in
  if double_gt mn mx then (mx, mn) else (mn, mx).

(** The absolute bounds of the verbose loader, for every value [Number]
    delivers: [Number(x) || 0], the clamp at zero, the swap. *)
Definition normalize_absolutes_double (rawMin rawMax : double) : double * double :=
  let mn := double_or rawMin 0 in
  let mx := double_or rawMax 0 in
  let mn := if double_lt mn (DFin 0) then DFin 0 else mn in
  let mx := if double_lt mx (DFin 0) then DFin 0 else mx in
  if double_gt mx (DFin 0) && double_gt mn mx then (mx, mn) else (mn, mx).

(** [Math.max(0, Number(x) || 0)] on both bounds, then the swap: the
    absolute bounds of the compact loader. *)
Definition normalize_absolutes_compact (rawMin rawMax : double) : double * double :=
  let mn := double_max (DFin 0) (double_or rawMin 0) in
  let mx := double_max (DFin 0) (double_or rawMax 0) in
  if double_gt mx (DFin 0) && double_gt mn mx then (mx, mn) else (mn, mx).

Definition BUILTIN_intervalSeconds : Z := 3600.

(** [Number.isFinite(Number(x)) ? Math.floor(Math.abs(Number(x))) : 3600],
    verbose loader; [NaN] stands for every value [Number.isFinite]
    rejects. *)
Definition normalize_intervalSeconds (raw : num) : Z :=
  match raw with
  | Num q => Qfloor (Qabs q)
  | NaN => BUILTIN_intervalSeconds
  end.

(** [Math.abs(Math.floor(Number(x) || 3600))], compact loader. *)
Definition normalize_intervalSeconds_compact (raw : double) : double :=
  double_abs (double_floor (double_or raw (inject_Z BUILTIN_intervalSeconds))).

(** The rounding modes: a value that is not one of the three names is
    replaced by ["nearest"].  [None] stands for a value that is no string. *)
Definition normalize_rounding (raw : option string) : string :=
  match raw with
  | Some s => if includes ["nearest"; "floor"; "ceil"] s then s else "nearest"
  | None => "nearest"
  end.

Section TraderIds.

(** The elements of the array [traderIds] and [String] on them. *)
Variable A : Type.
Variable String_of : A -> string.

(** [new Set(strings)] in insertion order. *)
Definition Set_of (strings : list string) : list string :=
  fold_left (fun s x => set_add x s) strings [].

(** [Array.from(new Set(traderIds.map(String).filter(id => id.length > 0)))];
    [None] stands for a value that is no array. *)
Definition normalize_traderIds (raw : option (list A)) : list string :=
  let arr := match raw with Some l => l | None => [] end in
  Set_of (List.filter (fun id => negb (String.eqb id "")) (map String_of arr)).

End TraderIds.

(** *** The seed *)

(** [/^\\d+$/.test(s)] as the verbose loader writes it: the pattern holds an
    escaped backslash, so it accepts a backslash followed by one or more
    letters [d] and nothing else. *)
Fixpoint all_letter_d (s : string) : bool :=
  match s with
  | EmptyString => true
  | String c rest => Ascii.eqb c "d" && all_letter_d rest
  end.

Definition seed_pattern_test (s : string) : bool :=
  match s with
  | String c (String "d" rest) => Ascii.eqb c "\" && all_letter_d rest
  | _ => false
  end.

Definition is_white_space (c : ascii) : bool :=
  let n := Ascii.nat_of_ascii c in
  (Nat.eqb n 9 || Nat.eqb n 10 || Nat.eqb n 11 || Nat.eqb n 12 || Nat.eqb n 13
   || Nat.eqb n 32)%bool.

Fixpoint trim_start (s : string) : string :=
  match s with
  | String c rest => if is_white_space c then trim_start rest else s
  | EmptyString => EmptyString
  end.

(** The longest prefix of decimal digits, as a number; [None] when the
    string does not start with a digit. *)
Fixpoint leading_digits (s : string) (acc : option Z) : option Z :=
  match s with
  | String c rest =>
      let n := Z.of_nat (Ascii.nat_of_ascii c) in
      if (48 <=? n) && (n <=? 57)
      then leading_digits rest (Some (10 * default 0 acc + (n - 48)))
      else acc
  | EmptyString => acc
  end.

(** [parseInt(s, 10)] on a string of ASCII characters. *)
Definition parseInt10 (s : string) : num :=
  let s := trim_start s in
  let '(sign, digits) :=
    match s with
    | String "-" rest => (-1, rest)
    | String "+" rest => (1, rest)
    | _ => (1, s)
    end in
  match leading_digits digits None with
  | Some z => Num (inject_Z (sign * z))
  | None => NaN
  end.

Section Seed.

Variable Number_of_string : string -> num.

(** [parseInt(md5(JSON.stringify(...)).slice(0, 8), 16) >>> 0], the seed
    derived from the normalised multipliers and trader identifiers. *)
Variable derived : Z.

(** The seed of the compact loader and its flag [_derivedSeed]. *)
Definition normalize_seed_compact (seed : jsval) : num * bool :=
  match seed with
  | VNull | VUndefined => (Num (inject_Z derived), true)
  | _ =>
      match ToNumber Number_of_string seed with
      | Num q => (Math_floor (Num (Qabs q)), false)
      | NaN => (Num (inject_Z derived), true)
      end
  end.

(** The seed of the verbose loader. *)
Definition normalize_seed (seed : jsval) : num * bool :=
  match seed with
  | VNull | VUndefined => (Num (inject_Z derived), true)
  | VNumber (Num q) => (Math_floor (Num (Qabs q)), false)
  | VString s =>
      if seed_pattern_test s then (parseInt10 s, false)
      else (Num (inject_Z derived), true)
  | _ => (Num (inject_Z derived), true)
  end.

(** [Number(config.seed) >>> 0], the argument the verbose engine gives
    to the generator's constructor; the seed is [NaN] or an integer. *)
Definition seed_argument (seed : num) : Z :=
  match seed with
  | Num q => ToUint32 (Qfloor q)
  | NaN => 0
  end.

End Seed.

(** *** The search for the configuration files *)

Section FileSearch.

(** [path.join], [path.dirname], [fs.existsSync] and [process.cwd()];
    the file system does not change during a search. *)
Variable path_join : string -> string -> string.
Variable path_dirname : string -> string.
Variable fs_existsSync : string -> bool.
Variable process_cwd : string.

(** The inner loop over the file names, in one directory. *)
Fixpoint try_filenames (currentDir : string) (filenames tried : list string)
  : option string * list string :=
  match filenames with
  | [] => (None, tried)
  | filename :: rest =>
      let filepath := path_join currentDir filename in
      let tried := tried ++ [filepath] in
      if fs_existsSync filepath then (Some filepath, tried)
      else try_filenames currentDir rest tried
  end.

(** The outer loop, [levels] iterations being left. *)
Fixpoint search_upward (levels : nat) (currentDir : string) (filenames tried : list string)
  : option string * list string :=
  match levels with
  | O => (None, tried)
  | S levels' =>
      match try_filenames currentDir filenames tried with
      | (Some filepath, tried) => (Some filepath, tried)
      | (None, tried) =>
          let parent := path_dirname currentDir in
          if String.eqb parent "" || String.eqb parent currentDir then (None, tried)
          else search_upward levels' parent filenames tried
      end
  end.

(** [findConfigFile(startDir, filenames, maxDepth)] of the compact loader:
    the pair of [found] and [tried]. *)
Definition findConfigFile (startDir : string) (filenames : list string) (maxDepth : nat)
  : option string * list string :=
  let currentDir := if String.eqb startDir "" then process_cwd else startDir in
  search_upward (S maxDepth) currentDir filenames [].

(** [searchDirectoryTreeUpward] of the verbose loader. *)
Definition searchDirectoryTreeUpward (startingDirectory : string)
  (candidateFilenames : list string) (maximumLevelsToSearch : nat)
  : option string * list string :=
  let currentDirectory :=
    if String.eqb startingDirectory "" then process_cwd else startingDirectory in
  search_upward (S maximumLevelsToSearch) currentDirectory candidateFilenames [].

(** What a search appended to [tried], and what it found: the path found
    exists and is the last one appended, and no other appended path
    exists. *)
Definition search_outcome (found : option string) (new : list string) : Prop :=
  match found with
  | Some p =>
      fs_existsSync p = true /\
      exists before, new = before ++ [p] /\ Forall (fun q => fs_existsSync q = false) before
  | None => Forall (fun q => fs_existsSync q = false) new
  end.

(** The directory reached after [k] steps upward. *)
Definition ancestor (k : nat) (dir : string) : string := Nat.iter k path_dirname dir.

End FileSearch.

(** ** The helper [clampNumberWithinBounds] of the verbose rendering

    [None] stands for a bound that is [null] or [undefined]. *)
Definition clampNumberWithinBounds (numberValue : num) (lowerBound upperBound : option num)
  : num :=
  let numberValue :=
    match lowerBound with
    | Some lo => Math_max numberValue lo
    | None => numberValue
    end in
  match upperBound with
  | Some hi => if num_gt hi (Num 0) then Math_min numberValue hi else numberValue
  | None => numberValue
  end.

(** ** Scheduling *)

(** The timer slot of the engine and the intervals the event loop holds:
    [setInterval] hands out a fresh handle and [clearInterval] removes the
    interval with the given handle.  Every interval of this program runs
    the same callback, so an interval is its handle and its delay in
    milliseconds. *)
Record timers : Type := {
  intervalTimer : option nat;
  armed : list (nat * Z);
  next_handle : nat
}.

Definition no_timers : timers :=
  {| intervalTimer := None; armed := []; next_handle := O |}.

Definition clearInterval (h : nat) (tm : timers) : timers :=
  {| intervalTimer := intervalTimer tm;
     armed := List.filter (fun t => negb (Nat.eqb (fst t) h)) (armed tm);
     next_handle := next_handle tm |}.

Definition setInterval (delay : Z) (tm : timers) : nat * timers :=
  (next_handle tm,
   {| intervalTimer := intervalTimer tm;
      armed := armed tm ++ [(next_handle tm, delay)];
      next_handle := S (next_handle tm) |}).

Definition with_intervalTimer (v : option nat) (tm : timers) : timers :=
  {| intervalTimer := v; armed := armed tm; next_handle := next_handle tm |}.

(** "Clear existing timer" *)
Definition clear_existing_timer (tm : timers) : timers :=
  match intervalTimer tm with
  | Some h => with_intervalTimer None (clearInterval h tm)
  | None => tm
  end.

(** The slot holds the handle of the one armed interval, or both are
    empty. *)
Definition timers_ok (tm : timers) : Prop :=
  map fst (armed tm) = match intervalTimer tm with Some h => [h] | None => [] end.

Section Scheduling.

Variable Number_of_string : string -> num.
Variable cfg : config.

(** [_schedule(db)] of the compact rendering. *)
Definition _schedule (tm : timers) (st : state) : result unit * state * timers :=
  let tm := clear_existing_timer tm in
  match _runCycle Number_of_string cfg st with
  | (Throw e, st) => (Throw e, st, tm)
  | (Ok _, st) =>
      if 0 <? intervalSeconds cfg then
        let '(h, tm) := setInterval (intervalSeconds cfg * 1000) tm in
        let tm := with_intervalTimer (Some h) tm in
        let st := snd (log info (tag ("Scheduled cycle every "
                                      ++ pretty (intervalSeconds cfg) ++ "s")) st) in
        (Ok tt, st, tm)
      else (Ok tt, st, tm)
  end.

(** The callback [_schedule] gives to [setInterval]. *)
Definition _schedule_callback : M unit :=
  try_catch (_runCycle Number_of_string cfg)
            (fun message => log error (tag ("Cycle error: " ++ message))).

(** "Start randomization" of [postDBLoad]. *)
Definition postDBLoad_start (tm : timers) (st : state) : state * timers :=
  match _schedule tm st with
  | (Ok _, st, tm) => (snd (log info (tag "Initialized successfully") st), tm)
  | (Throw e, st, tm) =>
      (snd (log error (tag ("Initialization failed: " ++ e)) st), tm)
  end.

(** [_schedulePeriodicRandomization(databaseTables)] of the verbose
    rendering. *)
Definition _schedulePeriodicRandomization (tm : timers) (st : state)
  : result unit * state * timers :=
  let tm := clear_existing_timer tm in
  match _executeOneRandomizationCycle Number_of_string cfg st with
  | (Throw e, st) => (Throw e, st, tm)
  | (Ok _, st) =>
      if negb (intervalSeconds cfg =? 0) && (0 <? intervalSeconds cfg) then
        let '(h, tm) := setInterval (intervalSeconds cfg * 1000) tm in
        let tm := with_intervalTimer (Some h) tm in
        let st := snd (log info (tag ("Scheduled cycle every "
                                      ++ pretty (intervalSeconds cfg) ++ "s")) st) in
        (Ok tt, st, tm)
      else (Ok tt, st, tm)
  end.

Definition _schedulePeriodicRandomization_callback : M unit :=
  try_catch (_executeOneRandomizationCycle Number_of_string cfg)
            (fun message => log error (tag ("periodic run error: " ++ message))).

Definition postDBLoad_start_verbose (tm : timers) (st : state) : state * timers :=
  match _schedulePeriodicRandomization tm st with
  | (Ok _, st, tm) => (snd (log info (tag "initialized") st), tm)
  | (Throw e, st, tm) =>
      (snd (log error (tag ("initialization failed: " ++ e)) st), tm)
  end.

End Scheduling.

(** An event of the engine's life after construction: [postDBLoad] has set
    up logger, configuration and generator, which leaves the engine in
    some state [st] and does not touch the timers, and reaches "Start
    randomization"; or an interval of the event loop fires. *)
Inductive event : Type :=
  | Start (st : state)
  | Fire.

Definition run_event (N : string -> num) (cfg : config) (ev : event)
  (w : state * timers) : state * timers :=
  match ev with
  | Start st => postDBLoad_start N cfg (snd w) st
  | Fire =>
      match armed (snd w) with
      | [] => w
      | _ :: _ => (snd (_schedule_callback N cfg (fst w)), snd w)
      end
  end.

Definition run_event_verbose (N : string -> num) (cfg : config) (ev : event)
  (w : state * timers) : state * timers :=
  match ev with
  | Start st => postDBLoad_start_verbose N cfg (snd w) st
  | Fire =>
      match armed (snd w) with
      | [] => w
      | _ :: _ => (snd (_schedulePeriodicRandomization_callback N cfg (fst w)), snd w)
      end
  end.

(** The engine and the event loop after a sequence of events. *)
Definition run_events (N : string -> num) (cfg : config) (evs : list event)
  (w : state * timers) : state * timers :=
  fold_left (fun w ev => run_event N cfg ev w) evs w.

Definition run_events_verbose (N : string -> num) (cfg : config) (evs : list event)
  (w : state * timers) : state * timers :=
  fold_left (fun w ev => run_event_verbose N cfg ev w) evs w.

(** The intervals [_schedule] leaves behind when its cycle has returned. *)
Definition scheduled (cfg : config) (h : nat) : list (nat * Z) :=
  if 0 <? intervalSeconds cfg then [(h, intervalSeconds cfg * 1000)] else [].

(** What holds of the event loop during the engine's life: the slot and
    the event loop agree, at most one interval is armed, and an armed
    interval has the configured period, which is positive. *)
Definition one_interval (cfg : config) (tm : timers) : Prop :=
  timers_ok tm /\ (length (armed tm) <= 1)%nat /\
  (forall h delay, In (h, delay) (armed tm) ->
                   0 < intervalSeconds cfg /\ delay = intervalSeconds cfg * 1000).

(** ** The shape of the store

    What a cycle leaves alone in the store: two offers have the same shape
    when both are [null] or both name the same counterpart, whatever their
    quantities. *)
Definition offer_shape (o o' : option offer) : Prop :=
  match o, o' with
  | Some t, Some t' => offer_tpl t' = offer_tpl t
  | None, None => True
  | _, _ => False
  end.

Definition offers_shape (l l' : list (option offer)) : Prop := Forall2 offer_shape l l'.

(** Two schemes of the same kind whose offers have the same shape; the
    alternatives after element 0 of a nested scheme are equal. *)
Definition scheme_shape (s s' : scheme) : Prop :=
  match s, s' with
  | SNested (o :: rest), SNested (o' :: rest') => offers_shape o o' /\ rest' = rest
  | SNested [], SNested [] => True
  | SFlat l, SFlat l' => offers_shape l l'
  | _, _ => False
  end.

(** Two objects with the same keys in the same order and related values. *)
Definition bindings_shape {A : Type} (R : A -> A -> Prop) (l l' : list (string * A)) : Prop :=
  Forall2 (fun b b' => fst b' = fst b /\ R (snd b) (snd b')) l l'.

Definition assort_shape (a a' : option assortment) : Prop :=
  match a, a' with
  | Some a, Some a' =>
      items a' = items a /\ bindings_shape scheme_shape (barter_scheme a) (barter_scheme a')
  | None, None => True
  | _, _ => False
  end.

Definition trader_shape (t t' : trader) : Prop :=
  nickname t' = nickname t /\ assort_shape (assort t) (assort t').

(** The store [d'] differs from [d] in quantities of offers only. *)
Definition same_shape (d d' : tables) : Prop :=
  prices d' = prices d /\ handbook_Items d' = handbook_Items d /\
  bindings_shape trader_shape (traders d) (traders d').

(** The frame relations of the store: untouched, changed in quantities
    only. *)
Definition same_db (st st' : state) : Prop := db st' = db st.
Definition keeps_shape (st st' : state) : Prop := same_shape (db st) (db st').

(** The schemes found under the same keys in two stores. *)
Definition schemes_agree (d d' : tables) (trader itemId : string) : Prop :=
  match lookup_scheme trader itemId d, lookup_scheme trader itemId d' with
  | Some s, Some s' => scheme_shape s s'
  | None, None => True
  | _, _ => False
  end.

(** What stores of the same shape share, spelled out: the tables, the
    traders with their nicknames, the assortment items, and the kind and
    counterparts of every barter scheme. *)
Definition only_quantities_differ (d d' : tables) : Prop :=
  same_shape d d' /\
  (prices d' = prices d /\ handbook_Items d' = handbook_Items d) /\
  map (fun kv => (fst kv, nickname (snd kv))) (traders d')
  = map (fun kv => (fst kv, nickname (snd kv))) (traders d) /\
  (forall t, trader_items d' t = trader_items d t) /\
  (forall t id, schemes_agree d d' t id).


(** ** The parts of a cycle *)

(** "Determine which traders to process" of [_runCycle]. *)
Definition _runCycle_traderIds (cfg : config) : M (list string) :=
  if autoDiscoverTraderIds cfg
  then discovered ← _discoverTraders cfg;
       ret (if (0 <? length discovered)%nat then discovered else traderIds cfg)
  else ret (traderIds cfg).

(** The same step of [_executeOneRandomizationCycle]. *)
Definition _executeOneRandomizationCycle_traderIds (cfg : config) : M (list string) :=
  if autoDiscoverTraderIds cfg
  then discoveredTraderIds ← _autoDiscoverRelevantTraders cfg;
       ret (if (0 <? length discoveredTraderIds)%nat
            then discoveredTraderIds else traderIds cfg)
  else ret (traderIds cfg).

(** The traders of a store whose nickname passes the test of discovery,
    in store order. *)
Definition matching_traders (d : tables) : list string :=
  map fst (List.filter (fun kv => nickname_matches (nickname (snd kv))) (traders d)).

(** Every nickname of the store that holds a value holds a string. *)
Definition nicknames_are_strings (d : tables) : Prop :=
  forall id t, In (id, t) (traders d) -> nickname_is_string (nickname t) = true.

(** A configuration that names its traders and does not discover any. *)
Definition with_traderIds (ids : list string) (c : config) : config := {|
  enabled := enabled c;
  autoDiscoverTraderIds := false;
  traderIds := ids;
  minMultiplier := minMultiplier c;
  maxMultiplier := maxMultiplier c;
  intervalSeconds := intervalSeconds c;
  rounding := rounding c;
  onlyCashTrades := onlyCashTrades c;
  currencyTpls := currencyTpls c;
  CurrencyConversion_rounding := CurrencyConversion_rounding c;
  stickToBaseline := stickToBaseline c;
  minAbsolute := minAbsolute c;
  maxAbsolute := maxAbsolute c;
  seed := seed c;
  debug := debug c
|}.

Definition cfg_two_traders : config := with_traderIds ["a"; "b"] (DEFAULT_CONFIG 0).

Definition cfg_three_traders : config :=
  with_traderIds ["missing"; "a"; "b"] (DEFAULT_CONFIG 0).

(** A store with the price 1000 for the template ["x"] and two traders:
    ["a"], whose [assort.items] is an object, and after it ["b"], who sells
    one item of the template ["x"] for 5 rubles. *)
Definition tables_bad_then_good : tables :=
  {| prices := Some (TMap {[ "x" := entry_Price (VNumber (Num 1000)) ]});
     handbook_Items := None;
     traders :=
       [("a", {| nickname := None;
                 assort := Some {| items := ItemsOther; barter_scheme := [] |} |});
        ("b", {| nickname := None;
                 assort := Some {| items := ItemsArray [Some {| item_tpl := "x";
                                                                item_id := "i" |}];
                                   barter_scheme := [("i", SNested [[ruble_offer 5]])] |} |})]
  |}.

(** A trader with three items: two of the template ["x"], of which only
    the first has a barter scheme, and one of a template ["y"]. *)
Definition tables_priced_items : tables :=
  {| prices := None; handbook_Items := None;
     traders :=
       [("t", {| nickname := Some (NickString "AIO");
                 assort := Some {| items := ItemsArray
                                     [Some {| item_tpl := "x"; item_id := "a" |};
                                      Some {| item_tpl := "x"; item_id := "b" |};
                                      Some {| item_tpl := "y"; item_id := "c" |}];
                                   barter_scheme := [("a", SNested [[ruble_offer 5]])] |} |})]
  |}.


(** * Verification *)

(** ** The monad *)

Lemma mbind_bind {A B : Type} (k : A -> M B) (m : M A) : mbind k m = bind m k.
Proof. reflexivity. Qed.

Lemma bind_Ok {A B : Type} (m : M A) (k : A -> M B) st a st' :
  m st = (Ok a, st') -> bind m k st = k a st'.
Proof. intros H. unfold bind. rewrite H. reflexivity. Qed.

Lemma bind_Throw {A B : Type} (m : M A) (k : A -> M B) st e st' :
  m st = (Throw e, st') -> bind m k st = (Throw e, st').
Proof. intros H. unfold bind. rewrite H. reflexivity. Qed.

(** A relation between the state before and the state after a method, kept
    by every way of composing methods. *)
Section Preserves.

Variable R : state -> state -> Prop.
Hypothesis R_refl : forall st, R st st.
Hypothesis R_trans : forall a b c, R a b -> R b c -> R a c.

Local Abbreviation preserves := (preserves R).

Lemma preserves_ret {A : Type} (a : A) : preserves (ret a).
Proof. intros st. apply R_refl. Qed.

Lemma preserves_get : preserves get.
Proof. intros st. apply R_refl. Qed.

Lemma preserves_throw {A : Type} e : preserves (@throw A e).
Proof. intros st. apply R_refl. Qed.

Lemma preserves_lift {A : Type} (r : result A) : preserves (lift r).
Proof. intros st. apply R_refl. Qed.

Lemma preserves_modify f : (forall st, R st (f st)) -> preserves (modify f).
Proof. intros H st. apply H. Qed.

Lemma preserves_bind {A B : Type} (m : M A) (k : A -> M B) :
  preserves m -> (forall a, preserves (k a)) -> preserves (bind m k).
Proof.
  intros Hm Hk st. unfold bind. specialize (Hm st).
  destruct (m st) as [[a|e] st1]; cbn [snd] in *.
  - eapply R_trans; [exact Hm | apply Hk].
  - exact Hm.
Qed.

(** The continuation may depend on the state read by [get]. *)
Lemma preserves_get_bind {B : Type} (k : state -> M B) :
  (forall s, preserves (k s)) -> preserves (bind get k).
Proof. intros Hk st. unfold bind, get. apply Hk. Qed.

Lemma preserves_try_catch {A : Type} (m : M A) (h : string -> M A) :
  preserves m -> (forall e, preserves (h e)) -> preserves (try_catch m h).
Proof.
  intros Hm Hh st. unfold try_catch. specialize (Hm st).
  destruct (m st) as [[a|e] st1]; cbn [snd] in *.
  - exact Hm.
  - eapply R_trans; [exact Hm | apply Hh].
Qed.

Lemma preserves_for_each {X : Type} (xs : list X) (body : X -> M unit) :
  (forall x, preserves (body x)) -> preserves (for_each xs body).
Proof.
  intros Hb. induction xs as [|x xs IH]; cbn [for_each].
  - apply preserves_ret.
  - rewrite mbind_bind. apply preserves_bind; [apply Hb | intros _; exact IH].
Qed.

End Preserves.

Lemma same_rng_refl st : same_rng st st.
Proof. reflexivity. Qed.
Lemma same_rng_trans a b c : same_rng a b -> same_rng b c -> same_rng a c.
Proof. unfold same_rng. congruence. Qed.
Lemma same_baselines_refl st : same_baselines st st.
Proof. reflexivity. Qed.
Lemma same_baselines_trans a b c : same_baselines a b -> same_baselines b c -> same_baselines a c.
Proof. unfold same_baselines. congruence. Qed.
Lemma cache_grows_refl st : cache_grows st st.
Proof. unfold cache_grows. reflexivity. Qed.
Lemma cache_grows_trans a b c : cache_grows a b -> cache_grows b c -> cache_grows a c.
Proof. unfold cache_grows. intros H1 H2. etrans; eassumption. Qed.

(** Breaking a method down along its binds, for a frame [R]. *)
Ltac frame_step Rrefl Rtrans :=
  lazymatch goal with
  | |- preserves _ (@mbind _ _ _ _ _ _) => rewrite mbind_bind
  | |- preserves _ (ret _) => apply (preserves_ret _ Rrefl)
  | |- preserves _ get => apply (preserves_get _ Rrefl)
  | |- preserves _ (throw _) => apply (preserves_throw _ Rrefl)
  | |- preserves _ (lift _) => apply (preserves_lift _ Rrefl)
  | |- preserves _ (bind get _) => apply (preserves_get_bind _); intros ?
  | |- preserves _ (bind _ _) => apply (preserves_bind _ Rtrans); [|intros ?]
  | |- preserves _ (try_catch _ _) => apply (preserves_try_catch _ Rtrans); [|intros ?]
  | |- preserves _ (for_each _ _) => apply (preserves_for_each _ Rrefl Rtrans); intros ?
  | |- preserves _ (modify _) => apply (preserves_modify _); intros ?
  | |- preserves _ (match ?x with _ => _ end) => destruct x
  end.


Create HintDb frame.

Ltac frame_leaf :=
  lazymatch goal with
  | |- same_rng _ _ => reflexivity
  | |- same_baselines _ _ => reflexivity
  | |- cache_grows _ _ => unfold cache_grows; reflexivity
  | |- _ => idtac
  end.

Ltac frame_with Rrefl Rtrans :=
  repeat first
    [ solve [auto with frame nocore]
    | frame_step Rrefl Rtrans ];
  frame_leaf.

Ltac frame_rng := frame_with same_rng_refl same_rng_trans.
Ltac frame_baselines := frame_with same_baselines_refl same_baselines_trans.
Ltac frame_cache := frame_with cache_grows_refl cache_grows_trans.

Section Frames.

Variable Number_of_string : string -> num.
Variable cfg : config.

Lemma log_same_rng l msg : preserves same_rng (log l msg).
Proof. unfold log. frame_rng. Qed.
Lemma log_same_baselines l msg : preserves same_baselines (log l msg).
Proof. unfold log. frame_baselines. Qed.
Lemma log_cache_grows l msg : preserves cache_grows (log l msg).
Proof. unfold log. frame_cache. Qed.
Hint Resolve log_same_rng log_same_baselines log_cache_grows : frame.

Lemma rng_call_same_baselines : preserves same_baselines rng_call.
Proof. intros st. unfold rng_call. destruct (mulberry32_call (rng st)). reflexivity. Qed.
Lemma rng_call_cache_grows : preserves cache_grows rng_call.
Proof. intros st. unfold rng_call. destruct (mulberry32_call (rng st)). unfold cache_grows. cbn. reflexivity. Qed.
Hint Resolve rng_call_same_baselines rng_call_cache_grows : frame.

(** *** The generator is touched by the price randomizer only *)

Lemma _lookupPrice_same_rng id : preserves same_rng (_lookupPrice Number_of_string id).
Proof. unfold _lookupPrice. frame_rng. Qed.
Hint Resolve _lookupPrice_same_rng : frame.

Lemma _buildBaselines_same_rng ids :
  preserves same_rng (_buildBaselines Number_of_string cfg ids).
Proof. unfold _buildBaselines. frame_rng. Qed.

Lemma _convertCurrency_same_rng rubles id :
  preserves same_rng (_convertCurrency Number_of_string cfg rubles id).
Proof. unfold _convertCurrency. frame_rng. Qed.
Hint Resolve _convertCurrency_same_rng : frame.

Lemma _updateOffer_same_rng offers rubles :
  preserves same_rng (_updateOffer Number_of_string cfg offers rubles).
Proof. unfold _updateOffer. frame_rng. Qed.

Lemma _lookupTemplatePriceFromDatabase_same_rng id :
  preserves same_rng (_lookupTemplatePriceFromDatabase Number_of_string id).
Proof. unfold _lookupTemplatePriceFromDatabase. frame_rng. Qed.
Hint Resolve _lookupTemplatePriceFromDatabase_same_rng : frame.

Lemma _buildBaselinePricesFromTraders_same_rng ids force :
  preserves same_rng (_buildBaselinePricesFromTraders Number_of_string cfg ids force).
Proof. unfold _buildBaselinePricesFromTraders. frame_rng. Qed.

Lemma _convertRublesToTargetCurrency_same_rng rubles id :
  preserves same_rng (_convertRublesToTargetCurrency Number_of_string cfg rubles id).
Proof. unfold _convertRublesToTargetCurrency. frame_rng. Qed.
Hint Resolve _convertRublesToTargetCurrency_same_rng : frame.

Lemma _updateTradeOfferPrice_same_rng offers rubles :
  preserves same_rng (_updateTradeOfferPrice Number_of_string cfg offers rubles).
Proof. unfold _updateTradeOfferPrice, write_price. frame_rng. Qed.

End Frames.


(** ** The deterministic generator *)

Lemma ToUint32_range x : 0 <= ToUint32 x < two32.
Proof. unfold ToUint32, two32. apply Z.mod_pos_bound. lia. Qed.

Lemma js_ushr_range a k : 0 <= js_ushr a k < two32.
Proof.
  unfold js_ushr. pose proof (ToUint32_range a) as [H0 H1].
  assert (Hk : 0 <= k mod 32) by (apply Z.mod_pos_bound; lia).
  split.
  - apply Z.shiftr_nonneg. exact H0.
  - rewrite Z.shiftr_div_pow2 by exact Hk.
    apply Z.le_lt_trans with (ToUint32 a); [|exact H1].
    apply Z.div_le_upper_bound; [apply Z.pow_pos_nonneg; lia|].
    assert (1 <= 2 ^ (k mod 32)) by (apply Z.lt_pred_le, Z.pow_pos_nonneg; lia).
    nia.
Qed.

Lemma mulberry32_call_output s :
  exists k, 0 <= k < two32 /\ fst (mulberry32_call s) = Qmake k 4294967296.
Proof.
  unfold mulberry32_call. cbv zeta. cbn [fst].
  eexists. split; [|reflexivity]. apply js_ushr_range.
Qed.

Lemma mulberry32_call_range s :
  (0 <= fst (mulberry32_call s))%Q /\ (fst (mulberry32_call s) < 1)%Q.
Proof.
  destruct (mulberry32_call_output s) as (k & Hk & ->).
  unfold two32 in Hk. unfold Qle, Qlt. cbn [Qnum Qden]. lia.
Qed.

Section ClosureFacts.

Variable body : Z -> Q * Z.

Lemma gen_stream_S n s :
  gen_stream body (S n) s = fst (body s) :: gen_stream body n (snd (body s)).
Proof. reflexivity. Qed.

Lemma gen_advance_S n s : gen_advance body (S n) s = gen_advance body n (snd (body s)).
Proof. reflexivity. Qed.

Lemma gen_advance_1 s : gen_advance body 1 s = snd (body s).
Proof. reflexivity. Qed.

(** A shorter stream is a prefix of a longer one. *)
Lemma gen_stream_lookup n m s i x :
  gen_stream body n s !! i = Some x -> (i < m)%nat -> gen_stream body m s !! i = Some x.
Proof.
  revert m s i. induction n as [|n IH]; intros m s i Hx Hi.
  - discriminate.
  - destruct m as [|m]; [lia|].
    rewrite gen_stream_S in *.
    destruct i as [|i]; [exact Hx|].
    cbn [lookup list_lookup] in *. apply IH; [exact Hx | lia].
Qed.

Lemma gen_stream_length n s : length (gen_stream body n s) = n.
Proof.
  revert s. induction n as [|n IH]; intros s; [reflexivity|].
  rewrite gen_stream_S. cbn [length]. now rewrite IH.
Qed.

Lemma gen_call_Some (h : gen_heap) g s :
  h !! g = Some s ->
  gen_call body g h = Some (fst (body s), <[g := snd (body s)]> h).
Proof. intros H. unfold gen_call. rewrite H. reflexivity. Qed.

Lemma gen_run_cons_Some g rest (h h' : gen_heap) r :
  gen_call body g h = Some (r, h') ->
  gen_run body (g :: rest) h
  = ((g, r) :: fst (gen_run body rest h'), snd (gen_run body rest h')).
Proof. intros H. cbn [gen_run]. rewrite H. destruct (gen_run body rest h'). reflexivity. Qed.

Lemma gen_run_cons_None g rest (h : gen_heap) :
  h !! g = None -> gen_run body (g :: rest) h = gen_run body rest h.
Proof. intros H. cbn [gen_run]. unfold gen_call. rewrite H. reflexivity. Qed.

Lemma outputs_of_cons g g0 r outs :
  outputs_of g ((g0, r) :: outs) =
    if Nat.eqb g0 g then r :: outputs_of g outs else outputs_of g outs.
Proof. unfold outputs_of. cbn [List.filter fst]. destruct (Nat.eqb g0 g); reflexivity. Qed.

Lemma count_calls_cons g g0 sched :
  count_calls g (g0 :: sched) =
    if Nat.eqb g g0 then S (count_calls g sched) else count_calls g sched.
Proof. unfold count_calls. cbn [List.filter]. destruct (Nat.eqb g g0); reflexivity. Qed.

(** Whatever the schedule, generator [g] returns the stream of its own
    cell and its cell advances by one step per call of [g]. *)
Lemma gen_run_outputs sched : forall (h : gen_heap) g s,
  h !! g = Some s ->
  outputs_of g (fst (gen_run body sched h)) = gen_stream body (count_calls g sched) s /\
  snd (gen_run body sched h) !! g = Some (gen_advance body (count_calls g sched) s).
Proof.
  induction sched as [|g0 rest IH]; intros h g s Hg.
  - split; [reflexivity | exact Hg].
  - rewrite count_calls_cons.
    destruct (h !! g0) as [s0|] eqn:Hg0.
    + rewrite (gen_run_cons_Some _ _ _ _ _ (gen_call_Some _ _ _ Hg0)).
      cbn [fst snd]. rewrite outputs_of_cons.
      destruct (Nat.eqb_spec g g0) as [->|Hne].
      * assert (s0 = s) by congruence. subst s0.
        rewrite Nat.eqb_refl, gen_stream_S, gen_advance_S.
        assert (Hlt : (g0 < length h)%nat) by (eapply lookup_lt_Some; eassumption).
        destruct (IH (<[g0 := snd (body s)]> h) g0 (snd (body s))) as [IH1 IH2].
        { apply list_lookup_insert_eq. exact Hlt. }
        rewrite IH1, IH2. split; reflexivity.
      * destruct (Nat.eqb_spec g0 g) as [->|_]; [congruence|].
        apply IH. rewrite list_lookup_insert_ne by congruence. exact Hg.
    + rewrite (gen_run_cons_None _ _ _ Hg0).
      destruct (Nat.eqb_spec g g0) as [->|Hne]; [congruence|].
      apply IH. exact Hg.
Qed.

Lemma two_generators_streams ctor seed h0 sched :
  two_generators body ctor seed h0 sched =
    (gen_stream body (count_calls (length h0) sched) (ctor seed),
     gen_stream body (count_calls (S (length h0)) sched) (ctor seed)).
Proof.
  unfold two_generators, gen_new.
  assert (Hlen : length (h0 ++ [ctor seed]) = S (length h0))
    by (rewrite length_app; cbn [length]; lia).
  rewrite Hlen.
  set (h2 := (h0 ++ [ctor seed]) ++ [ctor seed]).
  assert (Ha : h2 !! length h0 = Some (ctor seed)).
  { subst h2. rewrite lookup_app_l by (rewrite Hlen; lia).
    rewrite lookup_app_r by lia. now rewrite Nat.sub_diag. }
  assert (Hb : h2 !! S (length h0) = Some (ctor seed)).
  { subst h2. rewrite lookup_app_r by (rewrite Hlen; lia).
    rewrite Hlen, Nat.sub_diag. reflexivity. }
  destruct (gen_run_outputs sched h2 _ _ Ha) as [-> _].
  destruct (gen_run_outputs sched h2 _ _ Hb) as [-> _].
  reflexivity.
Qed.

Lemma two_generators_agree ctor seed h0 sched n x y :
  fst (two_generators body ctor seed h0 sched) !! n = Some x ->
  snd (two_generators body ctor seed h0 sched) !! n = Some y ->
  x = y.
Proof.
  rewrite two_generators_streams. cbn [fst snd]. intros Hx Hy.
  assert (Hn : (n < count_calls (S (length h0)) sched)%nat).
  { apply lookup_lt_Some in Hy. now rewrite gen_stream_length in Hy. }
  pose proof (gen_stream_lookup _ _ _ _ _ Hx Hn) as Hx'.
  congruence.
Qed.

End ClosureFacts.

Section RandomizerSteps.

Variable Number_of_string : string -> num.
Variable cfg : config.

Lemma _randomizePrice_run baseline st :
  _randomizePrice Number_of_string cfg baseline st =
    (Ok (round
           (let price := num_mul (ToNumber Number_of_string baseline)
                           (Num (multiplier_of cfg (fst (mulberry32_call (rng st))))) in
            let price := if num_gt (Num (minAbsolute cfg)) (Num 0)
                         then Math_max price (Num (minAbsolute cfg)) else price in
            if num_gt (Num (maxAbsolute cfg)) (Num 0)
            then Math_min price (Num (maxAbsolute cfg)) else price)
           (rounding cfg)),
     with_rng (snd (mulberry32_call (rng st))) st).
Proof.
  unfold _randomizePrice. rewrite mbind_bind. unfold bind, rng_call.
  destruct (mulberry32_call (rng st)) as [r s']. reflexivity.
Qed.

Lemma _calculateRandomizedPrice_run baseline st :
  _calculateRandomizedPrice Number_of_string cfg baseline st =
    (Ok (roundValueByMode
           (let price := num_mul (ToNumber Number_of_string baseline)
                           (Num (multiplier_of cfg (fst (mulberry32_call (rng st))))) in
            let price := if truthy (VNumber (Num (minAbsolute cfg)))
                            && num_gt (Num (minAbsolute cfg)) (Num 0)
                         then Math_max price (Num (minAbsolute cfg)) else price in
            if truthy (VNumber (Num (maxAbsolute cfg)))
               && num_gt (Num (maxAbsolute cfg)) (Num 0)
            then Math_min price (Num (maxAbsolute cfg)) else price)
           (rounding cfg)),
     with_rng (snd (mulberry32_call (rng st))) st).
Proof.
  unfold _calculateRandomizedPrice. rewrite mbind_bind. unfold bind, rng_call.
  destruct (mulberry32_call (rng st)) as [r s']. reflexivity.
Qed.

End RandomizerSteps.

(** C4. Two generators freshly constructed from the same seed return the
    same value at every position of their output streams, however their
    calls are interleaved with each other and with calls of other
    generators; each is a prefix of the stream of the seed, one step per
    call.  In the engine, the price randomizer advances the generator by
    exactly one step and the resolver, the baseline builder and the offer
    updater leave it alone.  Both renderings. *)
Theorem C4_generator_deterministic :
  (forall ctor, ctor = seededRandom \/ ctor = createDeterministicRandomGenerator ->
   forall seed h0 sched,
     two_generators mulberry32_call ctor seed h0 sched =
       (gen_stream mulberry32_call (count_calls (length h0) sched) (ToUint32 seed),
        gen_stream mulberry32_call (count_calls (S (length h0)) sched) (ToUint32 seed)) /\
     (forall n x y,
        fst (two_generators mulberry32_call ctor seed h0 sched) !! n = Some x ->
        snd (two_generators mulberry32_call ctor seed h0 sched) !! n = Some y -> x = y)) /\
  (forall N cfg baseline st,
     rng (snd (_randomizePrice N cfg baseline st)) = gen_advance mulberry32_call 1 (rng st) /\
     rng (snd (_calculateRandomizedPrice N cfg baseline st))
     = gen_advance mulberry32_call 1 (rng st)) /\
  (forall N cfg ids offers rubles id force,
     preserves same_rng (_lookupPrice N id) /\
     preserves same_rng (_buildBaselines N cfg ids) /\
     preserves same_rng (_updateOffer N cfg offers rubles) /\
     preserves same_rng (_lookupTemplatePriceFromDatabase N id) /\
     preserves same_rng (_buildBaselinePricesFromTraders N cfg ids force) /\
     preserves same_rng (_updateTradeOfferPrice N cfg offers rubles)).
Proof.
  split; [|split].
  - intros ctor Hctor seed h0 sched.
    assert (Hc : ctor seed = ToUint32 seed) by (destruct Hctor; subst; reflexivity).
    rewrite <- Hc. split.
    + apply two_generators_streams.
    + apply two_generators_agree.
  - intros N cfg baseline st.
    rewrite _randomizePrice_run, _calculateRandomizedPrice_run, gen_advance_1.
    split; reflexivity.
  - intros N cfg ids offers rubles id force.
    repeat split.
    + apply _lookupPrice_same_rng.
    + apply _buildBaselines_same_rng.
    + apply _updateOffer_same_rng.
    + apply _lookupTemplatePriceFromDatabase_same_rng.
    + apply _buildBaselinePricesFromTraders_same_rng.
    + apply _updateTradeOfferPrice_same_rng.
Qed.

(** ** The price randomizer *)

Lemma double_overflow_pos : (0 < double_overflow)%Q.
Proof. reflexivity. Qed.

(** A value inside the range is delivered as it is. *)
Lemma to_double_finite x :
  (- double_overflow < x)%Q -> (x < double_overflow)%Q -> to_double x = DFin x.
Proof.
  intros Hlo Hhi. unfold to_double.
  destruct (Qle_bool double_overflow x) eqn:E1; [apply Qle_bool_iff in E1; lra|].
  destruct (Qle_bool x (- double_overflow)) eqn:E2; [apply Qle_bool_iff in E2; lra|].
  reflexivity.
Qed.

Lemma to_double_overflow x : (double_overflow <= x)%Q -> to_double x = DInf false.
Proof. intros H. unfold to_double. apply Qle_bool_iff in H. rewrite H. reflexivity. Qed.

(** When [max - min] overflows, the multiplier is an infinity for every
    generator output but 0, for which it is [NaN]. *)
Lemma multiplier_double_overflow cfg r :
  (0 <= r)%Q -> (double_overflow <= maxMultiplier cfg - minMultiplier cfg)%Q ->
  multiplier_double cfg r = if Qeq_bool r 0 then DNaN else DInf false.
Proof.
  intros Hr H. unfold multiplier_double, double_sub, double_opp, double_add at 2.
  rewrite to_double_overflow by (unfold Qminus in H; exact H).
  unfold double_mul. destruct (Qeq_bool r 0); [reflexivity|].
  apply Qle_bool_iff in Hr. rewrite Hr. reflexivity.
Qed.

(** C5, as stated, fails: with the multipliers -1e308 and 1e308, which
    are ordered and which the loader passes on as they are, [max - min]
    overflows, and for the first output of the generator seeded with 0 the
    multiplier is [Infinity], above [maxMultiplier]; for the output 0 it is
    [NaN].  The binary64 arithmetic of the Standard Library gives the same
    infinity. *)
Lemma C5_counterexample_overflow :
  (0 <= fst (mulberry32_call (seededRandom 0)) < 1)%Q /\
  (minMultiplier cfg_huge_multipliers <= maxMultiplier cfg_huge_multipliers)%Q /\
  normalize_multipliers (Num (- double_1e308)) (Num double_1e308)
  = (minMultiplier cfg_huge_multipliers, maxMultiplier cfg_huge_multipliers) /\
  multiplier_double cfg_huge_multipliers (fst (mulberry32_call (seededRandom 0)))
  = DInf false /\
  multiplier_double cfg_huge_multipliers 0 = DNaN /\
  double_eq (binary64_value binary64_first_output)
            (DFin (fst (mulberry32_call (seededRandom 0)))) /\
  binary64_value binary64_1e308 = DFin (maxMultiplier cfg_huge_multipliers) /\
  binary64_value (SpecFloat.SFopp binary64_1e308)
  = DFin (minMultiplier cfg_huge_multipliers) /\
  multiplier_binary64 binary64_first_output (SpecFloat.SFopp binary64_1e308)
    binary64_1e308
  = SpecFloat.S754_infinity false.
Proof.
  split; [split; vm_compute; [discriminate|reflexivity]|].
  split; [vm_compute; discriminate|].
  repeat split; vm_compute; reflexivity.
Qed.

(** C5, amended.  For a generator output [r] in [0,1) and multipliers
    that are doubles with [minMultiplier <= maxMultiplier] whose difference
    does not overflow, the multiplier [r * (max - min) + min] is a finite
    number between the two bounds. *)
Theorem C5_multiplier_within_bounds cfg (r : Q) :
  (0 <= r)%Q -> (r < 1)%Q -> (minMultiplier cfg <= maxMultiplier cfg)%Q ->
  (- double_overflow < minMultiplier cfg)%Q -> (maxMultiplier cfg < double_overflow)%Q ->
  (maxMultiplier cfg - minMultiplier cfg < double_overflow)%Q ->
  exists m,
    multiplier_double cfg r = DFin m /\ (m == multiplier_of cfg r)%Q /\
    (minMultiplier cfg <= m)%Q /\ (m <= maxMultiplier cfg)%Q.
Proof.
  intros H0 H1 Hmm Hlo Hhi Hd. pose proof double_overflow_pos as HT.
  unfold multiplier_double, double_sub, double_opp, double_add at 2.
  rewrite to_double_finite by lra.
  unfold double_mul. rewrite to_double_finite by nra.
  unfold double_add. rewrite to_double_finite by nra.
  eexists. split; [reflexivity|]. unfold multiplier_of. split; [ring|]. split; nra.
Qed.


Lemma Qle_bool_false x y : Qle_bool x y = false -> (y < x)%Q.
Proof.
  intros H. apply Qnot_le_lt. intros Hle. apply Qle_bool_iff in Hle. congruence.
Qed.

Lemma Qfloor_nonneg x : (0 <= x)%Q -> 0 <= Qfloor x.
Proof. intros H. change 0 with (Qfloor 0). apply Qfloor_resp_le. exact H. Qed.

Lemma Qceiling_nonneg x : (0 <= x)%Q -> 0 <= Qceiling x.
Proof. intros H. change 0 with (Qceiling 0). apply Qceiling_resp_le. exact H. Qed.

Lemma inject_Z_nonneg z : 0 <= z -> (0 <= inject_Z z)%Q.
Proof. intros H. change 0%Q with (inject_Z 0). rewrite <- Zle_Qle. exact H. Qed.

Lemma round_nonneg x mode :
  (0 <= x)%Q -> exists p, round (Num x) mode = Num p /\ (0 <= p)%Q.
Proof.
  intros H. unfold round, Math_floor, Math_ceil, Math_round.
  destruct (String.eqb mode "floor"); [|destruct (String.eqb mode "ceil")];
    eexists; (split; [reflexivity|]); apply inject_Z_nonneg.
  - now apply Qfloor_nonneg.
  - now apply Qceiling_nonneg.
  - apply Qfloor_nonneg. lra.
Qed.

Lemma roundValueByMode_round v mode : roundValueByMode v mode = round v mode.
Proof. reflexivity. Qed.

(** The two clamps of the randomizer keep a value non-negative, and make it
    so when a positive lower bound is configured. *)
Lemma clamped_nonneg (v mn mx : Q) (gmn gmx : bool) :
  (0 <= mn)%Q -> (0 <= mx)%Q ->
  (gmn = true -> (0 < mn)%Q) -> (gmx = true -> (0 < mx)%Q) ->
  ((0 <= v)%Q \/ gmn = true) ->
  exists v',
    (let price := Num v in
     let price := if gmn then Math_max price (Num mn) else price in
     if gmx then Math_min price (Num mx) else price) = Num v' /\ (0 <= v')%Q.
Proof.
  intros Hmn Hmx Hgmn Hgmx Hv. cbv zeta. unfold Math_max, Math_min.
  destruct gmn, gmx; eexists; (split; [reflexivity|]);
    repeat match goal with
           | |- context [Qle_bool ?a ?b] =>
               let E := fresh "E" in
               destruct (Qle_bool a b) eqn:E;
               [apply Qle_bool_iff in E | apply Qle_bool_false in E]
           end;
    try specialize (Hgmn eq_refl); try specialize (Hgmx eq_refl);
    try (destruct Hv as [Hv|Hv]; [|discriminate Hv]); lra.
Qed.

Lemma num_gt_0_true q : num_gt (Num q) (Num 0) = true -> (0 < q)%Q.
Proof. cbn. intros H. apply Qle_bool_false. now destruct (Qle_bool q 0). Qed.

Lemma num_gt_0_of_pos q : (0 < q)%Q -> num_gt (Num q) (Num 0) = true.
Proof.
  intros H. cbn. destruct (Qle_bool q 0) eqn:E; [|reflexivity].
  apply Qle_bool_iff in E. lra.
Qed.

Section RandomizerSign.

Variable Number_of_string : string -> num.
Variable cfg : config.
Hypothesis Hvalid : validated cfg.
Hypothesis Hfloor : (0 <= minMultiplier cfg)%Q \/ (0 < minAbsolute cfg)%Q.

Lemma multiplier_lower r : (0 <= r)%Q -> (minMultiplier cfg <= multiplier_of cfg r)%Q.
Proof. destruct Hvalid as (Hmm & _). intros Hr. unfold multiplier_of. nra. Qed.

Lemma _randomizePrice_nonneg baseline q st :
  ToNumber Number_of_string baseline = Num q -> (0 < q)%Q ->
  exists p, fst (_randomizePrice Number_of_string cfg baseline st) = Ok (Num p)
            /\ (0 <= p)%Q.
Proof.
  intros Hb Hq. rewrite _randomizePrice_run. cbn [fst]. rewrite Hb.
  destruct (mulberry32_call_range (rng st)) as [Hr0 _].
  pose proof (multiplier_lower _ Hr0) as Hm.
  destruct Hvalid as (_ & HmnA & HmxA).
  unfold num_mul.
  destruct (clamped_nonneg (q * multiplier_of cfg (fst (mulberry32_call (rng st))))
              (minAbsolute cfg) (maxAbsolute cfg)
              (num_gt (Num (minAbsolute cfg)) (Num 0))
              (num_gt (Num (maxAbsolute cfg)) (Num 0)))
    as (v' & Hv' & Hv'0); try assumption.
  - apply num_gt_0_true.
  - apply num_gt_0_true.
  - destruct Hfloor as [H|H].
    + left. nra.
    + right. now apply num_gt_0_of_pos.
  - cbv zeta in Hv'. rewrite Hv'.
    destruct (round_nonneg v' (rounding cfg) Hv'0) as (p & Hp & Hp0).
    exists p. now rewrite Hp.
Qed.

Lemma _calculateRandomizedPrice_nonneg baseline q st :
  ToNumber Number_of_string baseline = Num q -> (0 < q)%Q ->
  exists p, fst (_calculateRandomizedPrice Number_of_string cfg baseline st) = Ok (Num p)
            /\ (0 <= p)%Q.
Proof.
  intros Hb Hq. rewrite _calculateRandomizedPrice_run. cbn [fst]. rewrite Hb.
  destruct (mulberry32_call_range (rng st)) as [Hr0 _].
  pose proof (multiplier_lower _ Hr0) as Hm.
  destruct Hvalid as (_ & HmnA & HmxA).
  unfold num_mul.
  destruct (clamped_nonneg (q * multiplier_of cfg (fst (mulberry32_call (rng st))))
              (minAbsolute cfg) (maxAbsolute cfg)
              (truthy (VNumber (Num (minAbsolute cfg)))
               && num_gt (Num (minAbsolute cfg)) (Num 0))
              (truthy (VNumber (Num (maxAbsolute cfg)))
               && num_gt (Num (maxAbsolute cfg)) (Num 0)))
    as (v' & Hv' & Hv'0); try assumption.
  - intros H. apply andb_true_iff in H as [_ H]. now apply num_gt_0_true.
  - intros H. apply andb_true_iff in H as [_ H]. now apply num_gt_0_true.
  - destruct Hfloor as [H|H].
    + left. nra.
    + right. apply andb_true_iff. split; [|now apply num_gt_0_of_pos].
      cbn. destruct (Qeq_bool (minAbsolute cfg) 0) eqn:E; [|reflexivity].
      apply Qeq_bool_iff in E. lra.
  - cbv zeta in Hv'. rewrite Hv'. rewrite roundValueByMode_round.
    destruct (round_nonneg v' (rounding cfg) Hv'0) as (p & Hp & Hp0).
    exists p. now rewrite Hp.
Qed.

End RandomizerSign.

(** C6, as stated, fails: the loader accepts the multiplier bounds [-2] and
    [-1] unchanged, and with them the randomizer turns the baseline [100]
    into a negative price, in both renderings. *)
Lemma C6_counterexample_negative_multiplier :
  validated cfg_negative /\
  normalize_multipliers (Num (-2)) (Num (-1)) = ((-2)%Q, (-1)%Q) /\
  normalize_absolutes (Num 0) (Num 0) = (0%Q, 0%Q) /\
  fst (_randomizePrice decimal_Number cfg_negative (VNumber (Num 100))
         (initial_state cfg_negative empty_tables)) = Ok (Num (-173)) /\
  fst (_calculateRandomizedPrice decimal_Number cfg_negative (VNumber (Num 100))
         (initial_state cfg_negative empty_tables)) = Ok (Num (-173)) /\
  (-173 < 0)%Q.
Proof.
  split; [|split; [|split; [|split; [|split]]]].
  - unfold validated, cfg_negative. cbn. repeat split; unfold Qle; cbn; lia.
  - vm_compute. reflexivity.
  - vm_compute. reflexivity.
  - vm_compute. reflexivity.
  - vm_compute. reflexivity.
  - reflexivity.
Qed.

(** C6, amended. For a strictly positive baseline and a validated
    configuration whose [minMultiplier] is non-negative or whose
    [minAbsolute] is positive, the price randomizer returns a number that is
    not negative (both renderings). *)
Theorem C6_randomized_price_nonnegative N cfg baseline q st :
  validated cfg ->
  (0 <= minMultiplier cfg)%Q \/ (0 < minAbsolute cfg)%Q ->
  ToNumber N baseline = Num q -> (0 < q)%Q ->
  (exists p, fst (_randomizePrice N cfg baseline st) = Ok (Num p) /\ (0 <= p)%Q) /\
  (exists p, fst (_calculateRandomizedPrice N cfg baseline st) = Ok (Num p) /\ (0 <= p)%Q).
Proof.
  intros Hv Hf Hb Hq. split.
  - eapply _randomizePrice_nonneg; eassumption.
  - eapply _calculateRandomizedPrice_nonneg; eassumption.
Qed.


(** ** What methods return *)

Section Returns.

Context {A : Type} (P : A -> Prop).

Lemma returns_ret (a : A) : P a -> returns P (ret a).
Proof. intros H st a' st' E. inversion E. subst. exact H. Qed.

Lemma returns_throw e : returns P (throw e).
Proof. intros st a st' E. discriminate E. Qed.

Lemma returns_bind {B : Type} (m : M B) (k : B -> M A) :
  (forall b, returns P (k b)) -> returns P (bind m k).
Proof.
  intros Hk st a st' E. unfold bind in E.
  destruct (m st) as [[b|e] st1]; [|discriminate E].
  eapply Hk. exact E.
Qed.

Lemma returns_try_catch (m : M A) (h : string -> M A) :
  returns P m -> (forall e, returns P (h e)) -> returns P (try_catch m h).
Proof.
  intros Hm Hh st a st' E. unfold try_catch in E.
  destruct (m st) as [[b|e] st1] eqn:Em.
  - inversion E. subst. eapply Hm. exact Em.
  - eapply Hh. exact E.
Qed.

End Returns.

Ltac returns_step :=
  lazymatch goal with
  | |- returns _ (@mbind _ _ _ _ _ _) => rewrite mbind_bind
  | |- returns _ (throw _) => apply returns_throw
  | |- returns _ (bind _ _) => apply returns_bind; intros ?
  | |- returns _ (try_catch _ _) => apply returns_try_catch; [|intros ?]
  | |- returns _ (match ?x with _ => _ end) => destruct x eqn:?
  end.

(** ** The offer updater *)

Lemma round_Num x mode : exists y, round (Num x) mode = Num y.
Proof.
  unfold round. destruct (String.eqb mode "floor"); [|destruct (String.eqb mode "ceil")];
    eexists; reflexivity.
Qed.

Lemma Math_max_1 x : exists v, Math_max (Num 1) (Num x) = Num v /\ (1 <= v)%Q.
Proof.
  unfold Math_max. eexists. split; [reflexivity|].
  destruct (Qle_bool 1 x) eqn:E; [now apply Qle_bool_iff in E | lra].
Qed.

Lemma write_count_wrote offers i t v :
  offers !! i = Some (Some t) -> wrote_count offers (write_count i (Num v) offers) i v.
Proof. intros H. exists t. split; [exact H|]. unfold write_count. now rewrite H. Qed.

Lemma find_index_from_spec {X : Type} (p : X -> bool) (l : list X) : forall k i,
  find_index_from p k l = Some i ->
  exists j, i = (k + j)%nat /\ (exists x, l !! j = Some x /\ p x = true) /\
            forall j' x, (j' < j)%nat -> l !! j' = Some x -> p x = false.
Proof.
  induction l as [|x l IH]; intros k i H; [discriminate|].
  cbn [find_index_from] in H. destruct (p x) eqn:Hp.
  - inversion H. subst. exists 0%nat. split; [lia|]. split; [exists x; now split|].
    intros j' x' Hj. lia.
  - destruct (IH _ _ H) as (j & -> & (y & Hy & Hpy) & Hmin).
    exists (S j). split; [lia|]. split; [exists y; now split|].
    intros [|j'] x' Hj Hx'; [cbn in Hx'; congruence|].
    apply (Hmin j' x'); [lia | exact Hx'].
Qed.

Lemma find_index_from_None {X : Type} (p : X -> bool) (l : list X) : forall k,
  find_index_from p k l = None -> forall j x, l !! j = Some x -> p x = false.
Proof.
  induction l as [|x l IH]; intros k H j y Hy; [discriminate|].
  cbn [find_index_from] in H. destruct (p x) eqn:Hp; [discriminate|].
  destruct j as [|j]; [cbn in Hy; congruence|]. eapply IH; eauto.
Qed.

Section OfferUpdater.

Variable Number_of_string : string -> num.
Variable cfg : config.

Lemma _convertCurrency_returns q id :
  returns null_or_number (_convertCurrency Number_of_string cfg (Num q) id).
Proof.
  unfold _convertCurrency. repeat returns_step.
  all: try (apply returns_ret; left; reflexivity).
  all: apply returns_ret; right.
  all: match goal with
       | H : negb (Number_isFinite ?c) = false |- _ =>
           destruct c as [|x] eqn:Ec; [discriminate H|]
       end.
  all: destruct (round_Num x (CurrencyConversion_rounding cfg)) as (y & ->); eauto.
Qed.

Lemma _convertRublesToTargetCurrency_returns q id :
  returns null_or_number (_convertRublesToTargetCurrency Number_of_string cfg (Num q) id).
Proof.
  unfold _convertRublesToTargetCurrency. repeat returns_step.
  all: try (apply returns_ret; left; reflexivity).
  all: apply returns_ret; right.
  all: match goal with
       | H : negb (Number_isFinite ?c) = false |- _ =>
           destruct c as [|x] eqn:Ec; [discriminate H|]
       end.
  all: rewrite roundValueByMode_round.
  all: destruct (round_Num x (CurrencyConversion_rounding cfg)) as (y & ->); eauto.
Qed.

(** The quantity written for a counterpart other than the base currency. *)
Lemma converted_count converted q :
  null_or_number converted ->
  exists v, Math_max (Num 1)
              (ToNumber Number_of_string
                 (js_or_else converted (VNumber (Math_floor (Num q))))) = Num v
            /\ (1 <= v)%Q.
Proof.
  intros [->|(x & ->)]; unfold js_or_else.
  - cbn [truthy ToNumber Math_floor]. apply Math_max_1.
  - destruct (truthy (VNumber (Num x))); cbn [ToNumber Math_floor];
      apply Math_max_1.
Qed.

Lemma _updateOffer_writes offers q :
  returns (written_at_least_1 offers) (_updateOffer Number_of_string cfg offers (Num q)).
Proof.
  unfold _updateOffer.
  set (target := if onlyCashTrades cfg then _ else _). clearbody target.
  destruct target as [i|]; [|apply returns_ret; intros H; discriminate H].
  destruct (offers !! i) as [[t|]|] eqn:Hi;
    try (apply returns_ret; intros H; discriminate H).
  destruct (is_ruble cfg (offer_tpl t)).
  - apply returns_ret. intros _. cbn [fst snd].
    destruct (Math_max_1 q) as (v & -> & Hv).
    exists i, v. split; [eapply write_count_wrote; eassumption | exact Hv].
  - rewrite mbind_bind. intros st a st' E. unfold bind in E.
    destruct (_convertCurrency _ _ _ _ st) as [[converted|e] st1] eqn:Ec; [|discriminate E].
    apply _convertCurrency_returns in Ec.
    destruct (converted_count converted q Ec) as (v & Hv & Hv1).
    rewrite Hv in E. inversion E. subst. intros _. cbn [fst snd].
    exists i, v. split; [eapply write_count_wrote; eassumption | exact Hv1].
Qed.

Lemma write_price_writes i t offers q :
  offers !! i = Some (Some t) ->
  returns (written_at_least_1 offers) (write_price Number_of_string cfg i t offers (Num q)).
Proof.
  intros Hi. unfold write_price.
  destruct (is_ruble cfg (offer_tpl t)).
  - apply returns_ret. intros _. cbn [fst snd].
    destruct (Math_max_1 q) as (v & -> & Hv).
    exists i, v. split; [eapply write_count_wrote; eassumption | exact Hv].
  - rewrite mbind_bind. intros st a st' E. unfold bind in E.
    destruct (_convertRublesToTargetCurrency _ _ _ _ st) as [[converted|e] st1] eqn:Ec;
      [|discriminate E].
    apply _convertRublesToTargetCurrency_returns in Ec.
    destruct (converted_count converted q Ec) as (v & Hv & Hv1).
    rewrite Hv in E. inversion E. subst. intros _. cbn [fst snd].
    exists i, v. split; [eapply write_count_wrote; eassumption | exact Hv1].
Qed.

Lemma _updateTradeOfferPrice_writes offers q :
  returns (written_at_least_1 offers)
          (_updateTradeOfferPrice Number_of_string cfg offers (Num q)).
Proof.
  unfold _updateTradeOfferPrice. destruct (onlyCashTrades cfg).
  - destruct (_findCurrencyOfferInTradeList cfg offers) as [i|];
      [|apply returns_ret; intros H; discriminate H].
    destruct (offers !! i) as [[t|]|] eqn:Hi;
      try (apply returns_ret; intros H; discriminate H).
    now apply write_price_writes.
  - destruct offers as [|[t|] rest];
      try (apply returns_ret; intros H; discriminate H).
    now apply write_price_writes.
Qed.

End OfferUpdater.



(** ** The choice of the target offer *)

(** C2, as stated, fails: in the list "dollar offer, ruble offer" the
    search returns the dollar offer at position 0, and under cash-only mode
    the updater writes there and leaves the ruble offer as it was (both
    renderings; the empty store has no dollar rate, so the floored price is
    written). *)
Lemma C2_counterexample_first_currency_wins :
  currencyTpls_ruble (DEFAULT_CONFIG 0) = Some ruble_tpl /\
  dollar_then_ruble !! 1%nat = Some (ruble_offer 1000) /\
  _findCurrencyOffer (DEFAULT_CONFIG 0) dollar_then_ruble = Some 0%nat /\
  _findCurrencyOfferInTradeList (DEFAULT_CONFIG 0) dollar_then_ruble = Some 0%nat /\
  dollar_then_ruble !! 0%nat = Some (dollar_offer 10) /\
  fst (_updateOffer decimal_Number (DEFAULT_CONFIG 0) dollar_then_ruble (Num 500)
         (initial_state (DEFAULT_CONFIG 0) empty_tables))
  = Ok (true, [dollar_offer 500; ruble_offer 1000]) /\
  fst (_updateTradeOfferPrice decimal_Number (DEFAULT_CONFIG 0) dollar_then_ruble (Num 500)
         (initial_state (DEFAULT_CONFIG 0) empty_tables))
  = Ok (true, [dollar_offer 500; ruble_offer 1000]).
Proof. repeat split; vm_compute; reflexivity. Qed.

Lemma find_index_from_first {X : Type} (p : X -> bool) (l : list X) : forall k i x,
  l !! i = Some x -> p x = true ->
  (forall j y, (j < i)%nat -> l !! j = Some y -> p y = false) ->
  find_index_from p k l = Some (k + i)%nat.
Proof.
  induction l as [|a l IH]; intros k i x Hi Hp Hmin; [discriminate|].
  cbn [find_index_from]. destruct i as [|i].
  - cbn in Hi. inversion Hi. subst. rewrite Hp. f_equal. lia.
  - rewrite (Hmin 0%nat a) by (reflexivity || lia).
    rewrite (IH (S k) i x Hi Hp).
    + f_equal. lia.
    + intros j y Hj Hy. apply (Hmin (S j) y); [lia | exact Hy].
Qed.

(** C2, amended. Under cash-only mode the search selects the first offer in
    list order whose counterpart identifier is among the configured currency
    identifiers: an offer in a configured currency - the base currency
    included - is selected when no offer before it is in a configured
    currency, and the offer selected never has a currency offer before it
    (both renderings). *)
Theorem C2_first_currency_offer_selected cfg (offers : list (option offer)) :
  (forall i o,
     offers !! i = Some (Some o) ->
     offer_tpl o <> "" ->
     includes (currency_values cfg) (offer_tpl o) = true ->
     (forall j o', (j < i)%nat -> offers !! j = Some (Some o') ->
                   includes (currency_values cfg) (offer_tpl o') = false) ->
     _findCurrencyOffer cfg offers = Some i /\
     _findCurrencyOfferInTradeList cfg offers = Some i) /\
  (forall i,
     _findCurrencyOffer cfg offers = Some i ->
     exists o, offers !! i = Some (Some o) /\
               includes (currency_values cfg) (offer_tpl o) = true /\
               forall j o', (j < i)%nat -> offers !! j = Some (Some o') ->
                            offer_tpl o' <> "" ->
                            includes (currency_values cfg) (offer_tpl o') = false) /\
  (forall i,
     _findCurrencyOfferInTradeList cfg offers = Some i ->
     exists o, offers !! i = Some (Some o) /\
               includes (currency_values cfg) (offer_tpl o) = true /\
               forall j o', (j < i)%nat -> offers !! j = Some (Some o') ->
                            includes (currency_values cfg) (offer_tpl o') = false).
Proof.
  split; [|split].
  - intros i o Hi Hne Hinc Hmin. split.
    + unfold _findCurrencyOffer.
      rewrite (find_index_from_first _ _ 0%nat i (Some o) Hi); [reflexivity| |].
      * rewrite Hinc. destruct (String.eqb_spec (offer_tpl o) ""); [contradiction|reflexivity].
      * intros j [o'|] Hj Hy; [|reflexivity].
        rewrite (Hmin j o' Hj Hy). apply andb_false_r.
    + unfold _findCurrencyOfferInTradeList.
      rewrite (find_index_from_first _ _ 0%nat i (Some o) Hi); [reflexivity| |].
      * exact Hinc.
      * intros j [o'|] Hj Hy; [|reflexivity]. apply (Hmin j o' Hj Hy).
  - intros i H. unfold _findCurrencyOffer in H.
    apply find_index_from_spec in H as (j & -> & ([o|] & Ho & Hp) & Hmin); [|discriminate].
    apply andb_true_iff in Hp as [Hne Hinc].
    exists o. repeat split; [exact Ho | exact Hinc |].
    intros j' o' Hj Ho' Hne'. specialize (Hmin j' (Some o') Hj Ho').
    cbn beta iota in Hmin. apply andb_false_iff in Hmin as [Hmin|Hmin]; [|exact Hmin].
    destruct (String.eqb_spec (offer_tpl o') ""); [contradiction|discriminate].
  - intros i H. unfold _findCurrencyOfferInTradeList in H.
    apply find_index_from_spec in H as (j & -> & ([o|] & Ho & Hp) & Hmin); [|discriminate].
    exists o. repeat split; [exact Ho | exact Hp |].
    intros j' o' Hj Ho'. apply (Hmin j' (Some o') Hj Ho').
Qed.

(** ** The baseline builder under retention *)

(** C3. With retention mode on and a non-empty baseline map, the baseline
    builder (called with the store and the trader set, as the cycle does)
    leaves the baseline map as it is, whatever the store now holds; the
    compact rendering changes nothing at all, the verbose one at most logs
    a debug line. *)
Theorem C3_frozen_baseline_kept N cfg ids (d : tables) st :
  stickToBaseline cfg = true ->
  (0 < size (baselinePrices st))%nat ->
  _buildBaselines N cfg ids (with_db d st) = (Ok tt, with_db d st) /\
  exists st',
    _buildBaselinePricesFromTraders N cfg ids false (with_db d st) = (Ok tt, st') /\
    baselinePrices st' = baselinePrices st /\
    priceCache st' = priceCache st /\
    rng st' = rng st /\
    db st' = d /\
    (debug cfg = false -> st' = with_db d st).
Proof.
  intros Hstick Hsize. apply Nat.ltb_lt in Hsize. split.
  - unfold _buildBaselines. rewrite mbind_bind. unfold bind, get.
    cbn [baselinePrices with_db]. rewrite Hstick, Hsize. reflexivity.
  - unfold _buildBaselinePricesFromTraders. rewrite mbind_bind. unfold bind, get.
    cbn [baselinePrices with_db]. rewrite Hstick, Hsize. cbn [negb andb].
    destruct (debug cfg); eexists; (split; [reflexivity|]); cbn; repeat split; congruence.
Qed.

(** ** The reference price resolver *)

(** C7 fails on the code: the verbose resolver returns the number -5 for
    the map-shaped table [{ "x": { Price: "-5" } }], and the compact
    resolver returns the string "100", not a number, for the array-shaped
    table [[ { Id: "x", Price: "100" } ]]. *)
Theorem C7_resolver_returns_nonpositive_or_string :
  fst (_lookupTemplatePriceFromDatabase decimal_Number "x"
         (initial_state (DEFAULT_CONFIG 0) tables_negative_string))
  = Ok (VNumber (Num (-5))) /\
  fst (_lookupPrice decimal_Number "x"
         (initial_state (DEFAULT_CONFIG 0) tables_array_string))
  = Ok (VString "100").
Proof. split; vm_compute; reflexivity. Qed.


(** ** Memoization of the resolver *)

Section CacheFrames.

Variable Number_of_string : string -> num.
Variable cfg : config.

Hint Resolve log_same_rng log_same_baselines log_cache_grows
  rng_call_same_baselines rng_call_cache_grows : frame.

Lemma _lookupPrice_cache_grows id : preserves cache_grows (_lookupPrice Number_of_string id).
Proof.
  intros st. unfold _lookupPrice. rewrite mbind_bind. unfold bind at 1, get.
  destruct (priceCache st !! id) eqn:E; [apply cache_grows_refl|].
  rewrite !mbind_bind. unfold bind, lift, modify, ret.
  destruct (scan_prices _ _ _) as [price|e]; [|apply cache_grows_refl].
  destruct (scan_handbook _ _ _ _) as [price'|e]; [|apply cache_grows_refl].
  unfold cache_grows. cbn [snd priceCache with_priceCache].
  apply insert_subseteq. exact E.
Qed.

Lemma _lookupTemplatePriceFromDatabase_cache_grows id :
  preserves cache_grows (_lookupTemplatePriceFromDatabase Number_of_string id).
Proof.
  intros st. unfold _lookupTemplatePriceFromDatabase. rewrite mbind_bind.
  unfold bind at 1, get.
  destruct (priceCache st !! id) eqn:E; [apply cache_grows_refl|].
  unfold try_catch. rewrite !mbind_bind. unfold bind, lift, modify, ret, log, modify.
  destruct (resolve_price _ _ _) as [price|e];
    unfold cache_grows; cbn [snd priceCache with_priceCache with_logger];
    apply insert_subseteq; exact E.
Qed.

Hint Resolve _lookupPrice_cache_grows _lookupTemplatePriceFromDatabase_cache_grows : frame.

Lemma _buildBaselines_cache_grows ids :
  preserves cache_grows (_buildBaselines Number_of_string cfg ids).
Proof. unfold _buildBaselines. frame_cache. Qed.

Lemma _convertCurrency_cache_grows rubles id :
  preserves cache_grows (_convertCurrency Number_of_string cfg rubles id).
Proof. unfold _convertCurrency. frame_cache. Qed.
Hint Resolve _convertCurrency_cache_grows : frame.

Lemma _updateOffer_cache_grows offers rubles :
  preserves cache_grows (_updateOffer Number_of_string cfg offers rubles).
Proof. unfold _updateOffer. frame_cache. Qed.
Hint Resolve _updateOffer_cache_grows : frame.

Lemma _randomizePrice_cache_grows baseline :
  preserves cache_grows (_randomizePrice Number_of_string cfg baseline).
Proof. unfold _randomizePrice. frame_cache. Qed.
Hint Resolve _randomizePrice_cache_grows : frame.

Lemma _processTrader_item_cache_grows t it :
  preserves cache_grows (_processTrader_item Number_of_string cfg t it).
Proof. unfold _processTrader_item. frame_cache. Qed.
Hint Resolve _processTrader_item_cache_grows : frame.

Lemma _processTrader_items_cache_grows t l : forall n,
  preserves cache_grows (_processTrader_items Number_of_string cfg t l n).
Proof. induction l as [|it l IH]; intros n; cbn [_processTrader_items]; frame_cache. Qed.
Hint Resolve _processTrader_items_cache_grows : frame.

Lemma _processTrader_cache_grows t :
  preserves cache_grows (_processTrader Number_of_string cfg t).
Proof. unfold _processTrader. frame_cache. Qed.
Hint Resolve _processTrader_cache_grows _buildBaselines_cache_grows : frame.

Lemma _runCycle_cache_grows : preserves cache_grows (_runCycle Number_of_string cfg).
Proof.
  unfold _runCycle, _runCycle_traders, _runCycle_trader, _discoverTraders. frame_cache.
Qed.

Lemma _buildBaselinePricesFromTraders_cache_grows ids force :
  preserves cache_grows (_buildBaselinePricesFromTraders Number_of_string cfg ids force).
Proof. unfold _buildBaselinePricesFromTraders. frame_cache. Qed.

Lemma _convertRublesToTargetCurrency_cache_grows rubles id :
  preserves cache_grows (_convertRublesToTargetCurrency Number_of_string cfg rubles id).
Proof. unfold _convertRublesToTargetCurrency. frame_cache. Qed.
Hint Resolve _convertRublesToTargetCurrency_cache_grows : frame.

Lemma _updateTradeOfferPrice_cache_grows offers rubles :
  preserves cache_grows (_updateTradeOfferPrice Number_of_string cfg offers rubles).
Proof. unfold _updateTradeOfferPrice, write_price. frame_cache. Qed.
Hint Resolve _updateTradeOfferPrice_cache_grows : frame.

Lemma _calculateRandomizedPrice_cache_grows baseline :
  preserves cache_grows (_calculateRandomizedPrice Number_of_string cfg baseline).
Proof. unfold _calculateRandomizedPrice. frame_cache. Qed.
Hint Resolve _calculateRandomizedPrice_cache_grows : frame.

Lemma _randomizeTraderPrices_item_cache_grows t it :
  preserves cache_grows (_randomizeTraderPrices_item Number_of_string cfg t it).
Proof. unfold _randomizeTraderPrices_item. frame_cache. Qed.
Hint Resolve _randomizeTraderPrices_item_cache_grows : frame.

Lemma _randomizeTraderPrices_items_cache_grows t l : forall n,
  preserves cache_grows (_randomizeTraderPrices_items Number_of_string cfg t l n).
Proof.
  induction l as [|it l IH]; intros n; cbn [_randomizeTraderPrices_items]; frame_cache.
Qed.
Hint Resolve _randomizeTraderPrices_items_cache_grows : frame.

Lemma _randomizeTraderPrices_cache_grows t :
  preserves cache_grows (_randomizeTraderPrices Number_of_string cfg t).
Proof. unfold _randomizeTraderPrices. frame_cache. Qed.
Hint Resolve _randomizeTraderPrices_cache_grows
  _buildBaselinePricesFromTraders_cache_grows : frame.

Lemma _executeOneRandomizationCycle_cache_grows :
  preserves cache_grows (_executeOneRandomizationCycle Number_of_string cfg).
Proof.
  unfold _executeOneRandomizationCycle, _executeOneRandomizationCycle_traders,
    _executeOneRandomizationCycle_trader, _autoDiscoverRelevantTraders.
  frame_cache.
Qed.

Lemma perform_compact_cache_grows a st :
  cache_grows st (perform_compact Number_of_string cfg a st).
Proof.
  destruct a; cbn [perform_compact].
  - apply _lookupPrice_cache_grows.
  - apply _buildBaselines_cache_grows.
  - apply _convertCurrency_cache_grows.
  - apply _updateOffer_cache_grows.
  - apply _processTrader_cache_grows.
  - apply _runCycle_cache_grows.
  - unfold cache_grows. reflexivity.
Qed.

Lemma perform_verbose_cache_grows a st :
  cache_grows st (perform_verbose Number_of_string cfg a st).
Proof.
  destruct a; cbn [perform_verbose].
  - apply _lookupTemplatePriceFromDatabase_cache_grows.
  - apply _buildBaselinePricesFromTraders_cache_grows.
  - apply _convertRublesToTargetCurrency_cache_grows.
  - apply _updateTradeOfferPrice_cache_grows.
  - apply _randomizeTraderPrices_cache_grows.
  - apply _executeOneRandomizationCycle_cache_grows.
  - unfold cache_grows. reflexivity.
Qed.

Lemma fold_perform_cache_grows (perform : activity -> state -> state) acts :
  (forall a st, cache_grows st (perform a st)) ->
  forall st, cache_grows st (fold_left (fun s a => perform a s) acts st).
Proof.
  intros Hp. induction acts as [|a acts IH]; intros st; cbn [fold_left].
  - apply cache_grows_refl.
  - eapply cache_grows_trans; [apply Hp | apply IH].
Qed.

(** A cached identifier is answered from the cache: the store is not
    consulted and the state does not change. *)
Lemma _lookupPrice_cached id r st :
  priceCache st !! id = Some r -> _lookupPrice Number_of_string id st = (Ok r, st).
Proof.
  intros H. unfold _lookupPrice. rewrite mbind_bind. unfold bind, get. now rewrite H.
Qed.

Lemma _lookupTemplatePriceFromDatabase_cached id r st :
  priceCache st !! id = Some r ->
  _lookupTemplatePriceFromDatabase Number_of_string id st = (Ok r, st).
Proof.
  intros H. unfold _lookupTemplatePriceFromDatabase. rewrite mbind_bind.
  unfold bind, get. now rewrite H.
Qed.

(** A call that returns leaves its result in the cache. *)
Lemma _lookupPrice_caches id r st st1 :
  _lookupPrice Number_of_string id st = (Ok r, st1) -> priceCache st1 !! id = Some r.
Proof.
  unfold _lookupPrice. rewrite mbind_bind. unfold bind at 1, get.
  destruct (priceCache st !! id) eqn:E.
  - intros H. inversion H. subst. exact E.
  - rewrite !mbind_bind. unfold bind, lift, modify, ret.
    destruct (scan_prices _ _ _) as [price|e]; [|discriminate].
    destruct (scan_handbook _ _ _ _) as [price'|e]; [|discriminate].
    intros H. inversion H. subst. cbn [priceCache with_priceCache].
    apply lookup_insert_eq.
Qed.

(** The verbose resolver returns on every state, and caches. *)
Lemma _lookupTemplatePriceFromDatabase_caches id st :
  exists r st1,
    _lookupTemplatePriceFromDatabase Number_of_string id st = (Ok r, st1) /\
    priceCache st1 !! id = Some r.
Proof.
  unfold _lookupTemplatePriceFromDatabase. rewrite mbind_bind. unfold bind at 1, get.
  destruct (priceCache st !! id) eqn:E.
  - eexists _, _. split; [reflexivity | exact E].
  - unfold try_catch. rewrite !mbind_bind. unfold bind, lift, modify, ret, log, modify.
    destruct (resolve_price _ _ _) as [price|e];
      (eexists _, _; split; [reflexivity|]);
      cbn [priceCache with_priceCache]; apply lookup_insert_eq.
Qed.

End CacheFrames.



(** ** Methods that always return *)

Lemma never_throws_ret {A : Type} (a : A) : never_throws (ret a).
Proof. intros st. eexists _, _. reflexivity. Qed.

Lemma never_throws_get : never_throws get.
Proof. intros st. eexists _, _. reflexivity. Qed.

Lemma never_throws_modify f : never_throws (modify f).
Proof. intros st. eexists _, _. reflexivity. Qed.

Lemma never_throws_log l msg : never_throws (log l msg).
Proof. apply never_throws_modify. Qed.

Lemma never_throws_rng_call : never_throws rng_call.
Proof.
  intros st. unfold rng_call. destruct (mulberry32_call (rng st)). eexists _, _. reflexivity.
Qed.

Lemma never_throws_bind {A B : Type} (m : M A) (k : A -> M B) :
  never_throws m -> (forall a, never_throws (k a)) -> never_throws (bind m k).
Proof.
  intros Hm Hk st. destruct (Hm st) as (a & st1 & E). unfold bind. rewrite E. apply Hk.
Qed.

(** A [try] whose handler returns, returns. *)
Lemma never_throws_try_catch {A : Type} (m : M A) (h : string -> M A) :
  (forall e, never_throws (h e)) -> never_throws (try_catch m h).
Proof.
  intros Hh st. unfold try_catch. destruct (m st) as [[a|e] st1].
  - eexists _, _. reflexivity.
  - apply Hh.
Qed.

Lemma never_throws_for_each {X : Type} (xs : list X) (body : X -> M unit) :
  (forall x, never_throws (body x)) -> never_throws (for_each xs body).
Proof.
  intros Hb. induction xs as [|x xs IH]; cbn [for_each].
  - apply never_throws_ret.
  - rewrite mbind_bind. apply never_throws_bind; [apply Hb | intros _; exact IH].
Qed.

(** A loop whose body always returns performs every turn, in order. *)
Lemma for_each_all_turns {X : Type} (xs : list X) (body : X -> M unit) :
  (forall x, never_throws (body x)) ->
  forall st, for_each xs body st = (Ok tt, fold_left (fun s x => snd (body x s)) xs st).
Proof.
  intros Hb. induction xs as [|x xs IH]; intros st; cbn [for_each fold_left].
  - reflexivity.
  - rewrite mbind_bind. unfold bind.
    destruct (Hb x st) as ([] & st1 & E). rewrite E. cbn [snd]. apply IH.
Qed.

Create HintDb total.
#[export] Hint Resolve never_throws_log never_throws_rng_call : total.

Ltac total_step :=
  lazymatch goal with
  | |- never_throws (@mbind _ _ _ _ _ _) => rewrite mbind_bind
  | |- never_throws (ret _) => apply never_throws_ret
  | |- never_throws get => apply never_throws_get
  | |- never_throws (modify _) => apply never_throws_modify
  | |- never_throws (bind _ _) => apply never_throws_bind; [|intros ?]
  | |- never_throws (try_catch _ _) => apply never_throws_try_catch; intros ?
  | |- never_throws (for_each _ _) => apply never_throws_for_each; intros ?
  | |- never_throws (match ?x with _ => _ end) => destruct x
  end.

Ltac total := repeat first [ solve [auto with total nocore] | total_step ].

(** ** The loop over the traders *)

Section TraderLoop.

Variable Number_of_string : string -> num.
Variable cfg : config.

Lemma _runCycle_trader_missing id st :
  assoc id (traders (db st)) = None ->
  _runCycle_trader Number_of_string cfg id st =
    (Ok tt, with_logger (logger st ++ [(warn, tag ("Trader not found: " ++ id))]) st).
Proof.
  intros H. unfold _runCycle_trader. rewrite mbind_bind. unfold bind, get.
  rewrite H. reflexivity.
Qed.

Lemma _runCycle_trader_failed id t st e st1 :
  assoc id (traders (db st)) = Some t ->
  _processTrader Number_of_string cfg id st = (Throw e, st1) ->
  _runCycle_trader Number_of_string cfg id st =
    (Ok tt, with_logger (logger st1 ++ [(error, tag ("Failed to process " ++ id ++ ": "
                                                      ++ e))]) st1).
Proof.
  intros H E. unfold _runCycle_trader. rewrite mbind_bind. unfold bind at 1, get.
  rewrite H. unfold try_catch. rewrite mbind_bind. unfold bind. rewrite E. reflexivity.
Qed.

Lemma _runCycle_trader_processed id t st n st1 :
  assoc id (traders (db st)) = Some t ->
  _processTrader Number_of_string cfg id st = (Ok n, st1) ->
  _runCycle_trader Number_of_string cfg id st = (Ok tt, st1).
Proof.
  intros H E. unfold _runCycle_trader. rewrite mbind_bind. unfold bind at 1, get.
  rewrite H. unfold try_catch. rewrite mbind_bind. unfold bind. rewrite E. reflexivity.
Qed.

Lemma _runCycle_trader_never_throws id :
  never_throws (_runCycle_trader Number_of_string cfg id).
Proof. unfold _runCycle_trader. total. Qed.

Lemma _executeOneRandomizationCycle_trader_missing id st :
  assoc id (traders (db st)) = None ->
  _executeOneRandomizationCycle_trader Number_of_string cfg id st =
    (Ok tt, with_logger (logger st ++ [(warn, tag ("trader not found: " ++ id))]) st).
Proof.
  intros H. unfold _executeOneRandomizationCycle_trader. rewrite mbind_bind.
  unfold bind, get. rewrite H. reflexivity.
Qed.

Lemma _executeOneRandomizationCycle_trader_failed id t st e st1 :
  assoc id (traders (db st)) = Some t ->
  _randomizeTraderPrices Number_of_string cfg id st = (Throw e, st1) ->
  _executeOneRandomizationCycle_trader Number_of_string cfg id st =
    (Ok tt, with_logger (logger st1 ++ [(error, tag ("failed to randomize " ++ id ++ ": "
                                                      ++ e))]) st1).
Proof.
  intros H E. unfold _executeOneRandomizationCycle_trader. rewrite mbind_bind.
  unfold bind at 1, get. rewrite H. unfold try_catch. rewrite mbind_bind.
  unfold bind. rewrite E. reflexivity.
Qed.

Lemma _executeOneRandomizationCycle_trader_processed id t st n st1 :
  assoc id (traders (db st)) = Some t ->
  _randomizeTraderPrices Number_of_string cfg id st = (Ok n, st1) ->
  _executeOneRandomizationCycle_trader Number_of_string cfg id st = (Ok tt, st1).
Proof.
  intros H E. unfold _executeOneRandomizationCycle_trader. rewrite mbind_bind.
  unfold bind at 1, get. rewrite H. unfold try_catch. rewrite mbind_bind.
  unfold bind. rewrite E. reflexivity.
Qed.

Lemma _executeOneRandomizationCycle_trader_never_throws id :
  never_throws (_executeOneRandomizationCycle_trader Number_of_string cfg id).
Proof. unfold _executeOneRandomizationCycle_trader. total. Qed.

End TraderLoop.


(** ** Generator steps consumed by one trader *)

Section GeneratorSteps.

Variable Number_of_string : string -> num.
Variable cfg : config.

Hint Resolve log_same_rng log_same_baselines rng_call_same_baselines
  _lookupPrice_same_rng _convertCurrency_same_rng _updateOffer_same_rng
  _lookupTemplatePriceFromDatabase_same_rng _convertRublesToTargetCurrency_same_rng
  _updateTradeOfferPrice_same_rng : frame.

Lemma _lookupPrice_same_baselines id :
  preserves same_baselines (_lookupPrice Number_of_string id).
Proof. unfold _lookupPrice. frame_baselines. Qed.
Hint Resolve _lookupPrice_same_baselines : frame.

Lemma _convertCurrency_same_baselines rubles id :
  preserves same_baselines (_convertCurrency Number_of_string cfg rubles id).
Proof. unfold _convertCurrency. frame_baselines. Qed.
Hint Resolve _convertCurrency_same_baselines : frame.

Lemma _updateOffer_same_baselines offers rubles :
  preserves same_baselines (_updateOffer Number_of_string cfg offers rubles).
Proof. unfold _updateOffer. frame_baselines. Qed.
Hint Resolve _updateOffer_same_baselines : frame.

Lemma _randomizePrice_same_baselines baseline :
  preserves same_baselines (_randomizePrice Number_of_string cfg baseline).
Proof. unfold _randomizePrice. frame_baselines. Qed.
Hint Resolve _randomizePrice_same_baselines : frame.

Lemma _processTrader_item_same_baselines t it :
  preserves same_baselines (_processTrader_item Number_of_string cfg t it).
Proof. unfold _processTrader_item. frame_baselines. Qed.

Lemma _lookupTemplatePriceFromDatabase_same_baselines id :
  preserves same_baselines (_lookupTemplatePriceFromDatabase Number_of_string id).
Proof. unfold _lookupTemplatePriceFromDatabase. frame_baselines. Qed.
Hint Resolve _lookupTemplatePriceFromDatabase_same_baselines : frame.

Lemma _convertRublesToTargetCurrency_same_baselines rubles id :
  preserves same_baselines (_convertRublesToTargetCurrency Number_of_string cfg rubles id).
Proof. unfold _convertRublesToTargetCurrency. frame_baselines. Qed.
Hint Resolve _convertRublesToTargetCurrency_same_baselines : frame.

Lemma _updateTradeOfferPrice_same_baselines offers rubles :
  preserves same_baselines (_updateTradeOfferPrice Number_of_string cfg offers rubles).
Proof. unfold _updateTradeOfferPrice, write_price. frame_baselines. Qed.
Hint Resolve _updateTradeOfferPrice_same_baselines : frame.

Lemma _calculateRandomizedPrice_same_baselines baseline :
  preserves same_baselines (_calculateRandomizedPrice Number_of_string cfg baseline).
Proof. unfold _calculateRandomizedPrice. frame_baselines. Qed.
Hint Resolve _calculateRandomizedPrice_same_baselines : frame.

Lemma _randomizeTraderPrices_item_same_baselines t it :
  preserves same_baselines (_randomizeTraderPrices_item Number_of_string cfg t it).
Proof. unfold _randomizeTraderPrices_item. frame_baselines. Qed.

Lemma carries_baseline_same st st' it :
  baselinePrices st' = baselinePrices st ->
  carries_baseline Number_of_string st' it = carries_baseline Number_of_string st it.
Proof. intros H. unfold carries_baseline. now rewrite H. Qed.

(** After a method that advanced the generator to [s'], a continuation
    that leaves the generator alone ends with the generator at [s']. *)
Lemma bind_rng_after {A B : Type} (m : M A) (k : A -> M B) st a st1 :
  m st = (Ok a, st1) -> preserves same_rng (k a) ->
  rng (snd (bind m k st)) = rng st1.
Proof. intros E Hk. unfold bind. rewrite E. apply Hk. Qed.

(** The part of a turn that follows the drawing of the price. *)
Lemma after_price_same_rng t i newPrice :
  preserves same_rng
    (bind get (fun st =>
       match lookup_scheme t (item_id i) (db st) with
       | None => ret false
       | Some sch =>
           bind (_updateOffer Number_of_string cfg (scheme_offers sch) newPrice)
             (fun res =>
                bind (modify (fun st => with_db (store_offers t (item_id i) (snd res)
                                                   (db st)) st))
                     (fun _ => ret (fst res)))
       end)).
Proof. frame_rng. Qed.

Lemma after_price_same_rng_verbose t i newPrice :
  preserves same_rng
    (bind get (fun st =>
       match lookup_scheme t (item_id i) (db st) with
       | None => ret false
       | Some sch =>
           bind (_updateTradeOfferPrice Number_of_string cfg (scheme_offers sch) newPrice)
             (fun res =>
                bind (modify (fun st => with_db (store_offers t (item_id i) (snd res)
                                                   (db st)) st))
                     (fun _ => ret (fst res)))
       end)).
Proof. frame_rng. Qed.

(** One turn of the loop over the items: one step of the generator when
    the item passes the test, none otherwise - also when the turn ends in
    an error of the conversion. *)
Lemma _processTrader_item_rng t it st :
  rng (snd (_processTrader_item Number_of_string cfg t it st)) =
    if carries_baseline Number_of_string st it
    then snd (mulberry32_call (rng st)) else rng st.
Proof.
  unfold _processTrader_item, carries_baseline. destruct it as [i|]; [|reflexivity].
  destruct (String.eqb (item_tpl i) ""); [reflexivity|].
  destruct (String.eqb (item_id i) ""); [reflexivity|].
  cbn [orb negb andb]. rewrite mbind_bind. unfold bind at 1, get.
  destruct (negb (truthy _) || js_le0 _ _) eqn:E.
  - apply orb_true_iff in E as [E|E].
    + apply negb_true_iff in E. rewrite E. reflexivity.
    + rewrite E. now rewrite andb_false_r.
  - apply orb_false_iff in E as [E1 E2]. apply negb_false_iff in E1.
    rewrite E1, E2. cbn [negb andb]. rewrite !mbind_bind.
    rewrite (bind_rng_after _ _ _ _ _ (_randomizePrice_run _ _ _ _)); [reflexivity|].
    apply after_price_same_rng.
Qed.

Lemma _randomizeTraderPrices_item_rng t it st :
  rng (snd (_randomizeTraderPrices_item Number_of_string cfg t it st)) =
    if carries_baseline Number_of_string st it
    then snd (mulberry32_call (rng st)) else rng st.
Proof.
  unfold _randomizeTraderPrices_item, carries_baseline. destruct it as [i|]; [|reflexivity].
  destruct (String.eqb (item_tpl i) ""); [reflexivity|].
  destruct (String.eqb (item_id i) ""); [reflexivity|].
  cbn [orb negb andb]. rewrite mbind_bind. unfold bind at 1, get.
  destruct (negb (truthy _) || js_le0 _ _) eqn:E.
  - apply orb_true_iff in E as [E|E].
    + apply negb_true_iff in E. rewrite E. reflexivity.
    + rewrite E. now rewrite andb_false_r.
  - apply orb_false_iff in E as [E1 E2]. apply negb_false_iff in E1.
    rewrite E1, E2. cbn [negb andb]. rewrite !mbind_bind.
    rewrite (bind_rng_after _ _ _ _ _ (_calculateRandomizedPrice_run _ _ _ _));
      [reflexivity|].
    apply after_price_same_rng_verbose.
Qed.

Lemma gen_advance_count (p : option item -> bool) it l s :
  gen_advance mulberry32_call (length (List.filter p l))
    (if p it then snd (mulberry32_call s) else s)
  = gen_advance mulberry32_call (length (List.filter p (it :: l))) s.
Proof.
  cbn [List.filter]. destruct (p it); [|reflexivity].
  cbn [length]. now rewrite gen_advance_S.
Qed.

Lemma _processTrader_items_rng t l : forall n st r st',
  _processTrader_items Number_of_string cfg t l n st = (Ok r, st') ->
  rng st' = gen_advance mulberry32_call
              (length (List.filter (carries_baseline Number_of_string st) l)) (rng st).
Proof.
  induction l as [|it l IH]; intros n st r st' H.
  - cbn in H. inversion H. reflexivity.
  - cbn [_processTrader_items] in H. rewrite mbind_bind in H. unfold bind in H.
    pose proof (_processTrader_item_rng t it st) as Hrng.
    pose proof (_processTrader_item_same_baselines t it st) as Hbase.
    destruct (_processTrader_item _ _ t it st) as [[b|e] st1]; [|discriminate H].
    cbn [snd] in Hrng, Hbase. apply IH in H. rewrite H, Hrng.
    rewrite <- gen_advance_count. f_equal. f_equal.
    apply List.filter_ext. intros x. now apply carries_baseline_same.
Qed.

Lemma _randomizeTraderPrices_items_rng t l : forall n st r st',
  _randomizeTraderPrices_items Number_of_string cfg t l n st = (Ok r, st') ->
  rng st' = gen_advance mulberry32_call
              (length (List.filter (carries_baseline Number_of_string st) l)) (rng st).
Proof.
  induction l as [|it l IH]; intros n st r st' H.
  - cbn in H. inversion H. reflexivity.
  - cbn [_randomizeTraderPrices_items] in H. rewrite mbind_bind in H. unfold bind in H.
    pose proof (_randomizeTraderPrices_item_rng t it st) as Hrng.
    pose proof (_randomizeTraderPrices_item_same_baselines t it st) as Hbase.
    destruct (_randomizeTraderPrices_item _ _ t it st) as [[b|e] st1]; [|discriminate H].
    cbn [snd] in Hrng, Hbase. apply IH in H. rewrite H, Hrng.
    rewrite <- gen_advance_count. f_equal. f_equal.
    apply List.filter_ext. intros x. now apply carries_baseline_same.
Qed.

Lemma _processTrader_rng t st n st' :
  _processTrader Number_of_string cfg t st = (Ok n, st') ->
  rng st' = gen_advance mulberry32_call
              (length (List.filter (carries_baseline Number_of_string st)
                         (trader_items (db st) t))) (rng st).
Proof.
  unfold _processTrader, trader_items. rewrite mbind_bind. unfold bind at 1, get.
  destruct (assoc t (traders (db st))) as [[nick [a|]]|];
    try (intros H; inversion H; reflexivity).
  destruct a as [its bs]. cbn [items]. destruct its as [|l|].
  - intros H. inversion H. reflexivity.
  - rewrite mbind_bind. unfold bind at 1.
    destruct (_processTrader_items _ _ t l 0%nat st) as [[k|e] st1] eqn:E; [|discriminate].
    apply _processTrader_items_rng in E. intros H. rewrite <- E.
    assert (Hk : preserves same_rng
                   (bind (if (0 <? k)%nat && debug cfg
                          then log info (tag (nickname_or "Unknown" nick ++ ": updated "
                                              ++ pretty k ++ " offers"))
                          else ret tt) (fun _ => ret k))) by frame_rng.
    specialize (Hk st1). rewrite mbind_bind in H. rewrite H in Hk. exact Hk.
  - discriminate.
Qed.

End GeneratorSteps.


(** ** The verbose rendering catches every error of the store *)

Section VerboseTotal.

Variable Number_of_string : string -> num.
Variable cfg : config.

Lemma _lookupTemplatePriceFromDatabase_never_throws id :
  never_throws (_lookupTemplatePriceFromDatabase Number_of_string id).
Proof. unfold _lookupTemplatePriceFromDatabase. total. Qed.
Hint Resolve _lookupTemplatePriceFromDatabase_never_throws : total.

Lemma _buildBaselinePricesFromTraders_never_throws ids force :
  never_throws (_buildBaselinePricesFromTraders Number_of_string cfg ids force).
Proof. unfold _buildBaselinePricesFromTraders. total. Qed.

Lemma _convertRublesToTargetCurrency_never_throws rubles id :
  never_throws (_convertRublesToTargetCurrency Number_of_string cfg rubles id).
Proof. unfold _convertRublesToTargetCurrency. total. Qed.
Hint Resolve _convertRublesToTargetCurrency_never_throws : total.

Lemma _updateTradeOfferPrice_never_throws offers rubles :
  never_throws (_updateTradeOfferPrice Number_of_string cfg offers rubles).
Proof. unfold _updateTradeOfferPrice, write_price. total. Qed.
Hint Resolve _updateTradeOfferPrice_never_throws : total.

Lemma _calculateRandomizedPrice_never_throws baseline :
  never_throws (_calculateRandomizedPrice Number_of_string cfg baseline).
Proof. unfold _calculateRandomizedPrice. total. Qed.
Hint Resolve _calculateRandomizedPrice_never_throws : total.

Lemma _randomizeTraderPrices_item_never_throws t it :
  never_throws (_randomizeTraderPrices_item Number_of_string cfg t it).
Proof. unfold _randomizeTraderPrices_item. total. Qed.
Hint Resolve _randomizeTraderPrices_item_never_throws : total.

Lemma _randomizeTraderPrices_items_never_throws t l : forall n,
  never_throws (_randomizeTraderPrices_items Number_of_string cfg t l n).
Proof.
  induction l as [|it l IH]; intros n; cbn [_randomizeTraderPrices_items]; total.
Qed.
Hint Resolve _randomizeTraderPrices_items_never_throws : total.

Lemma _randomizeTraderPrices_never_throws t :
  never_throws (_randomizeTraderPrices Number_of_string cfg t).
Proof. unfold _randomizeTraderPrices. total. Qed.

Hint Resolve log_same_rng : frame.

Lemma _randomizeTraderPrices_counted_rng t l nick st n st' :
  bind (_randomizeTraderPrices_items Number_of_string cfg t l 0%nat)
    (fun k =>
       bind (if (0 <? k)%nat && debug cfg
             then log info (tag ("Updated " ++ pretty k ++ " offers for "
                                 ++ nickname_or "unknown" nick))
             else ret tt) (fun _ => ret k)) st = (Ok n, st') ->
  rng st' = gen_advance mulberry32_call
              (length (List.filter (carries_baseline Number_of_string st) l)) (rng st).
Proof.
  unfold bind at 1.
  destruct (_randomizeTraderPrices_items _ _ t l 0%nat st) as [[k|e] st1] eqn:E;
    [|discriminate].
  apply _randomizeTraderPrices_items_rng in E. intros H. rewrite <- E.
  assert (Hk : preserves same_rng
                 (bind (if (0 <? k)%nat && debug cfg
                        then log info (tag ("Updated " ++ pretty k ++ " offers for "
                                            ++ nickname_or "unknown" nick))
                        else ret tt) (fun _ => ret k))) by frame_rng.
  specialize (Hk st1). rewrite H in Hk. exact Hk.
Qed.

Lemma _randomizeTraderPrices_rng t st n st' :
  _randomizeTraderPrices Number_of_string cfg t st = (Ok n, st') ->
  rng st' = gen_advance mulberry32_call
              (length (List.filter (carries_baseline Number_of_string st)
                         (trader_items (db st) t))) (rng st).
Proof.
  unfold _randomizeTraderPrices, trader_items. rewrite mbind_bind. unfold bind at 1, get.
  destruct (assoc t (traders (db st))) as [[nick [a|]]|];
    try (intros H; inversion H; reflexivity).
  destruct a as [its bs]. cbn [items]. rewrite !mbind_bind.
  destruct its; apply _randomizeTraderPrices_counted_rng.
Qed.

End VerboseTotal.

(** C10, as stated, fails: an assortment item whose template carries the
    baseline price 1000 but whose [_id] is empty is skipped before any
    price is drawn, so processing the trader leaves the generator where it
    was (both renderings), although one of its items carries a baseline. *)
Lemma C10_counterexample_item_without_id :
  trader_items tables_item_without_id "t" = [item_without_id] /\
  baselinePrices (frozen_state tables_item_without_id) !! "x" = Some (VNumber (Num 1000)) /\
  _processTrader decimal_Number (DEFAULT_CONFIG 0) "t" (frozen_state tables_item_without_id)
  = (Ok 0%nat, frozen_state tables_item_without_id) /\
  _randomizeTraderPrices decimal_Number (DEFAULT_CONFIG 0) "t"
    (frozen_state tables_item_without_id)
  = (Ok 0%nat, frozen_state tables_item_without_id) /\
  gen_advance mulberry32_call 1 (rng (frozen_state tables_item_without_id))
  <> rng (frozen_state tables_item_without_id).
Proof.
  split; [reflexivity|]. split; [reflexivity|].
  split; [vm_compute; reflexivity|]. split; [vm_compute; reflexivity|].
  vm_compute. discriminate.
Qed.

(** C10, amended. When the processing of a trader returns, the generator
    has advanced by exactly one step for every assortment item that has a
    non-empty [_tpl], a non-empty [_id] and a baseline price for its [_tpl]
    - whether or not the item has a barter scheme and whether or not an
    offer was written - and by no step for any other item: the generator
    state afterwards is the one before, advanced by the number of such
    items.  The verbose rendering always returns. *)
Theorem C10_one_generator_step_per_priced_item N cfg (t : string) (st : state) :
  (forall n st',
     _processTrader N cfg t st = (Ok n, st') ->
     rng st' = gen_advance mulberry32_call
                 (length (List.filter (carries_baseline N st) (trader_items (db st) t)))
                 (rng st)) /\
  (exists n st',
     _randomizeTraderPrices N cfg t st = (Ok n, st') /\
     rng st' = gen_advance mulberry32_call
                 (length (List.filter (carries_baseline N st) (trader_items (db st) t)))
                 (rng st)).
Proof.
  split.
  - intros n st' H. eapply _processTrader_rng. exact H.
  - destruct (_randomizeTraderPrices_never_throws N cfg t st) as (n & st' & H).
    exists n, st'. split; [exact H|]. eapply _randomizeTraderPrices_rng. exact H.
Qed.


(** ** Instances of the theorems above *)


Lemma C2_witness_ruble_first :
  _findCurrencyOffer (DEFAULT_CONFIG 0) ruble_then_dollar = Some 0%nat /\
  _findCurrencyOfferInTradeList (DEFAULT_CONFIG 0) ruble_then_dollar = Some 0%nat.
Proof.
  apply (proj1 (C2_first_currency_offer_selected (DEFAULT_CONFIG 0) ruble_then_dollar)
           0%nat {| offer_tpl := ruble_tpl; offer_count := Num 5 |}).
  - reflexivity.
  - discriminate.
  - vm_compute. reflexivity.
  - intros j o' Hj. lia.
Defined.

Lemma C3_witness_frozen_baseline :
  _buildBaselines decimal_Number (DEFAULT_CONFIG 0) ["t"]
    (with_db tables_negative_string (frozen_state empty_tables))
  = (Ok tt, with_db tables_negative_string (frozen_state empty_tables)).
Proof.
  apply (C3_frozen_baseline_kept decimal_Number (DEFAULT_CONFIG 0) ["t"]
           tables_negative_string (frozen_state empty_tables)).
  - reflexivity.
  - vm_compute. lia.
Defined.

Lemma C5_witness_default_bounds :
  exists m,
    multiplier_double (DEFAULT_CONFIG 0) (1 # 2) = DFin m /\
    (m == multiplier_of (DEFAULT_CONFIG 0) (1 # 2))%Q /\
    (minMultiplier (DEFAULT_CONFIG 0) <= m)%Q /\ (m <= maxMultiplier (DEFAULT_CONFIG 0))%Q.
Proof.
  apply (C5_multiplier_within_bounds (DEFAULT_CONFIG 0) (1 # 2)).
  - unfold Qle. simpl. lia.
  - unfold Qlt. simpl. lia.
  - unfold Qle. simpl. lia.
  - vm_compute. reflexivity.
  - vm_compute. reflexivity.
  - vm_compute. reflexivity.
Defined.

Lemma C6_witness_default_config :
  exists p, fst (_randomizePrice decimal_Number (DEFAULT_CONFIG 0) (VNumber (Num 100))
                   (initial_state (DEFAULT_CONFIG 0) empty_tables)) = Ok (Num p)
            /\ (0 <= p)%Q.
Proof.
  apply (proj1 (C6_randomized_price_nonnegative decimal_Number (DEFAULT_CONFIG 0)
                  (VNumber (Num 100)) 100
                  (initial_state (DEFAULT_CONFIG 0) empty_tables)
                  ltac:(unfold validated; simpl; unfold Qle; simpl; lia)
                  ltac:(left; unfold Qle; simpl; lia)
                  ltac:(reflexivity)
                  ltac:(unfold Qlt; simpl; lia))).
Defined.


Lemma C10_witness_two_priced_items :
  length (List.filter (carries_baseline decimal_Number (frozen_state tables_priced_items))
            (trader_items (db (frozen_state tables_priced_items)) "t")) = 2%nat /\
  _processTrader decimal_Number (DEFAULT_CONFIG 0) "t" (frozen_state tables_priced_items)
  = (Ok 1%nat,
     snd (_processTrader decimal_Number (DEFAULT_CONFIG 0) "t"
            (frozen_state tables_priced_items))) /\
  rng (snd (_processTrader decimal_Number (DEFAULT_CONFIG 0) "t"
              (frozen_state tables_priced_items)))
  = gen_advance mulberry32_call
      (length (List.filter (carries_baseline decimal_Number (frozen_state tables_priced_items))
                 (trader_items (db (frozen_state tables_priced_items)) "t")))
      (rng (frozen_state tables_priced_items)) /\
  rng (snd (_processTrader decimal_Number (DEFAULT_CONFIG 0) "t"
              (frozen_state tables_priced_items)))
  <> rng (frozen_state tables_priced_items).
Proof.
  assert (H : _processTrader decimal_Number (DEFAULT_CONFIG 0) "t"
                (frozen_state tables_priced_items)
              = (Ok 1%nat,
                 snd (_processTrader decimal_Number (DEFAULT_CONFIG 0) "t"
                        (frozen_state tables_priced_items))))
    by (vm_compute; reflexivity).
  split; [vm_compute; reflexivity|]. split; [exact H|]. split.
  - exact (proj1 (C10_one_generator_step_per_priced_item decimal_Number (DEFAULT_CONFIG 0)
                    "t" (frozen_state tables_priced_items)) _ _ H).
  - vm_compute. discriminate.
Defined.


(** * Further properties of the engine *)

(** ** The generator *)

Lemma ToInt32_range x : - two31 <= ToInt32 x < two31.
Proof.
  unfold ToInt32. pose proof (Z.mod_pos_bound (x + two31) two32) as H.
  unfold two31, two32 in *. lia.
Qed.

Lemma ToUint32_plus x k : ToUint32 (x + k * two32) = ToUint32 x.
Proof. unfold ToUint32. apply Z_mod_plus_full. Qed.

Lemma ToInt32_of_ToUint32 x y : ToUint32 x = ToUint32 y -> ToInt32 x = ToInt32 y.
Proof.
  unfold ToUint32, ToInt32. intros H.
  rewrite <- (Zplus_mod_idemp_l x), <- (Zplus_mod_idemp_l y), H. reflexivity.
Qed.

Lemma ToUint32_add_congr x y c : ToUint32 x = ToUint32 y -> ToUint32 (x + c) = ToUint32 (y + c).
Proof.
  unfold ToUint32. intros H.
  rewrite <- (Zplus_mod_idemp_l x), <- (Zplus_mod_idemp_l y), H. reflexivity.
Qed.

Lemma mulberry32_call_congr s s' :
  ToUint32 s = ToUint32 s' -> mulberry32_call s = mulberry32_call s'.
Proof.
  intros H.
  pose proof (ToUint32_add_congr s s' 0x6D2B79F5 H) as HU.
  pose proof (ToInt32_of_ToUint32 _ _ HU) as HI.
  unfold mulberry32_call. cbv zeta. unfold js_xor, js_or, js_ushr, Math_imul.
  rewrite HU, HI. reflexivity.
Qed.

(** X1. Every value the generator returns is [k / 2^32] for an integer
    [0 <= k < 2^32], hence a number in [0, 1); and the captured state is a
    signed 32-bit integer after every call. *)
Theorem X1_generator_output_range (s : Z) :
  (exists k, 0 <= k < two32 /\ fst (mulberry32_call s) = Qmake k 4294967296) /\
  (0 <= fst (mulberry32_call s))%Q /\ (fst (mulberry32_call s) < 1)%Q /\
  - two31 <= snd (mulberry32_call s) < two31.
Proof.
  split; [apply mulberry32_call_output|].
  split; [apply mulberry32_call_range|].
  split; [apply mulberry32_call_range|].
  unfold mulberry32_call. cbv zeta. cbn [snd]. unfold js_xor at 1. apply ToInt32_range.
Qed.

(** X2. The generator depends on the seed only modulo 2^32: the state
    addition [state += 0x6D2B79F5] is not wrapped, yet states that agree
    modulo 2^32 give the same value and the same next state, so seeds that
    differ by a multiple of 2^32 give the same stream (both constructors). *)
Theorem X2_generator_seed_modulo_2_32 (seed k : Z) (n : nat) :
  seededRandom (seed + k * two32) = seededRandom seed /\
  createDeterministicRandomGenerator (seed + k * two32)
  = createDeterministicRandomGenerator seed /\
  mulberry32_call (seed + k * two32) = mulberry32_call seed /\
  gen_stream mulberry32_call n (seededRandom (seed + k * two32))
  = gen_stream mulberry32_call n (seededRandom seed).
Proof.
  assert (H : seededRandom (seed + k * two32) = seededRandom seed)
    by apply ToUint32_plus.
  split; [exact H|]. split; [exact H|]. split.
  - apply mulberry32_call_congr. apply ToUint32_plus.
  - now rewrite H.
Qed.

(** ** Rounding *)

Lemma Qfloor_bounds x : (inject_Z (Qfloor x) <= x)%Q /\ (x < inject_Z (Qfloor x) + 1)%Q.
Proof.
  split; [apply Qfloor_le|].
  pose proof (Qlt_floor x) as H. rewrite inject_Z_plus in H. exact H.
Qed.

Lemma Qceiling_bounds x : (inject_Z (Qceiling x) - 1 < x)%Q /\ (x <= inject_Z (Qceiling x))%Q.
Proof.
  split; [|apply Qle_ceiling].
  pose proof (Qceiling_lt x) as H. unfold Z.sub in H.
  rewrite inject_Z_plus in H. exact H.
Qed.

(** X3. [round] and [roundValueByMode] are the same function; on a number
    they return an integer [n]: the largest integer [<= x] for "floor", the
    least integer [>= x] for "ceil", and for every other mode string the
    integer with [n - 1/2 <= x < n + 1/2] (halves go up). *)
Theorem X3_round_by_mode (x : Q) (mode : string) :
  roundValueByMode (Num x) mode = round (Num x) mode /\
  exists n : Z,
    round (Num x) mode = Num (inject_Z n) /\
    (mode = "floor" -> (inject_Z n <= x)%Q /\ (x < inject_Z n + 1)%Q) /\
    (mode = "ceil" -> (inject_Z n - 1 < x)%Q /\ (x <= inject_Z n)%Q) /\
    (mode <> "floor" -> mode <> "ceil" ->
     (inject_Z n - (1 # 2) <= x)%Q /\ (x < inject_Z n + (1 # 2))%Q).
Proof.
  split; [reflexivity|]. unfold round.
  destruct (String.eqb_spec mode "floor") as [->|Hf].
  - exists (Qfloor x). split; [reflexivity|]. repeat split; try discriminate;
      try (intros; contradiction); intros; apply Qfloor_bounds.
  - destruct (String.eqb_spec mode "ceil") as [->|Hc].
    + exists (Qceiling x). split; [reflexivity|]. repeat split; try discriminate;
        try (intros; contradiction); intros; apply Qceiling_bounds.
    + exists (Qfloor (x + (1 # 2))). split; [reflexivity|].
      split; [intros; contradiction|]. split; [intros; contradiction|].
      intros _ _. destruct (Qfloor_bounds (x + (1 # 2))) as [H1 H2]. split; lra.
Qed.


(** ** The price randomizer, continued *)

Lemma Qle_bool_comp_l x x' y : (x == x')%Q -> Qle_bool x y = Qle_bool x' y.
Proof.
  intros H. destruct (Qle_bool x y) eqn:E1, (Qle_bool x' y) eqn:E2; try reflexivity.
  - apply Qle_bool_iff in E1. apply Qle_bool_false in E2. lra.
  - apply Qle_bool_iff in E2. apply Qle_bool_false in E1. lra.
Qed.

Lemma round_comp x y mode : (x == y)%Q -> round (Num x) mode = round (Num y) mode.
Proof.
  intros H. unfold round, Math_floor, Math_ceil, Math_round.
  destruct (String.eqb mode "floor"); [|destruct (String.eqb mode "ceil")]; do 2 f_equal.
  - now apply Qfloor_comp.
  - now apply Qceiling_comp.
  - apply Qfloor_comp. now rewrite H.
Qed.

Lemma round_le x y mode :
  (x <= y)%Q -> num_le (round (Num x) mode) (round (Num y) mode) = true.
Proof.
  intros H. unfold round, Math_floor, Math_ceil, Math_round.
  destruct (String.eqb mode "floor"); [|destruct (String.eqb mode "ceil")];
    cbn [num_le]; apply Qle_bool_iff; rewrite <- Zle_Qle.
  - now apply Qfloor_resp_le.
  - now apply Qceiling_resp_le.
  - apply Qfloor_resp_le. lra.
Qed.

Lemma absolute_test_same a :
  truthy (VNumber (Num a)) && num_gt (Num a) (Num 0) = num_gt (Num a) (Num 0).
Proof.
  cbn. destruct (Qle_bool a 0) eqn:E; [apply andb_false_r|].
  apply Qle_bool_false in E.
  destruct (Qeq_bool a 0) eqn:E0; [|reflexivity].
  apply Qeq_bool_iff in E0. lra.
Qed.

Lemma _calculateRandomizedPrice_same N cfg (baseline : jsval) (st : state) :
  _calculateRandomizedPrice N cfg baseline st = _randomizePrice N cfg baseline st.
Proof.
  rewrite _calculateRandomizedPrice_run, _randomizePrice_run, !absolute_test_same.
  reflexivity.
Qed.

(** X4. The two renderings of the price randomizer are the same function of
    the baseline, the configuration and the engine state: the extra
    truthiness test of the verbose one on the absolute bounds changes
    nothing. *)
Theorem X4_price_randomizers_agree N cfg (baseline : jsval) (st : state) :
  _calculateRandomizedPrice N cfg baseline st = _randomizePrice N cfg baseline st.
Proof. apply _calculateRandomizedPrice_same. Qed.

(** The price before rounding, as a function of the product
    [baseline * multiplier]. *)
Lemma clamp_cases (v mn mx : Q) :
  exists p,
    (let price := Num v in
     let price := if num_gt (Num mn) (Num 0) then Math_max price (Num mn) else price in
     if num_gt (Num mx) (Num 0) then Math_min price (Num mx) else price) = Num p /\
    ((0 < mn)%Q -> (mx <= 0)%Q \/ (mn <= mx)%Q -> (mn <= p)%Q) /\
    ((0 < mx)%Q -> (p <= mx)%Q) /\
    ((mn <= 0)%Q -> (mx <= 0)%Q -> p = v).
Proof.
  cbv zeta. unfold num_gt, Math_max, Math_min.
  destruct (Qle_bool mn 0) eqn:E1; [apply Qle_bool_iff in E1 | apply Qle_bool_false in E1];
    destruct (Qle_bool mx 0) eqn:E2;
    [apply Qle_bool_iff in E2 | apply Qle_bool_false in E2
    |apply Qle_bool_iff in E2 | apply Qle_bool_false in E2];
    cbn [negb]; eexists; (split; [reflexivity|]);
    repeat match goal with
           | |- context [Qle_bool ?a ?b] =>
               let E := fresh "E" in
               destruct (Qle_bool a b) eqn:E;
               [apply Qle_bool_iff in E | apply Qle_bool_false in E]
           end;
    repeat split; intros; try reflexivity; try lra;
    try (match goal with H : _ \/ _ |- _ => destruct H end; lra).
Qed.


Lemma clamp_comp (v v' mn mx : Q) :
  (v == v')%Q ->
  exists p p',
    (let price := Num v in
     let price := if num_gt (Num mn) (Num 0) then Math_max price (Num mn) else price in
     if num_gt (Num mx) (Num 0) then Math_min price (Num mx) else price) = Num p /\
    (let price := Num v' in
     let price := if num_gt (Num mn) (Num 0) then Math_max price (Num mn) else price in
     if num_gt (Num mx) (Num 0) then Math_min price (Num mx) else price) = Num p' /\
    (p == p')%Q.
Proof.
  intros Hv. cbv zeta. unfold num_gt, Math_max, Math_min.
  rewrite (Qle_bool_comp_l v v' mn Hv).
  destruct (negb (Qle_bool mn 0)), (negb (Qle_bool mx 0));
    repeat match goal with
           | |- context [Qle_bool ?a ?b] =>
               let E := fresh "E" in
               destruct (Qle_bool a b) eqn:E;
               [apply Qle_bool_iff in E | apply Qle_bool_false in E]
           end;
    eexists _, _; (split; [reflexivity|]); (split; [reflexivity|]); lra.
Qed.



(** ** The currency converter *)

Section Converter.

Variable Number_of_string : string -> num.
Variable cfg : config.

Lemma _convertCurrency_cached_rate q cur st rate :
  currencyCache st !! cur = Some (VNumber (Num rate)) -> (0 < rate)%Q ->
  _convertCurrency Number_of_string cfg (Num q) cur st
  = (Ok (VNumber (round (Num (q / rate)) (CurrencyConversion_rounding cfg))), st).
Proof.
  intros H Hr. unfold _convertCurrency. unfold mbind, M_bind, bind, get, ret.
  rewrite H. cbn beta iota. rewrite ?H.
  cbn [default from_option id truthy js_le0 ToNumber num_le num_div].
  assert (E0 : Qeq_bool rate 0 = false).
  { destruct (Qeq_bool rate 0) eqn:E; [|reflexivity]. apply Qeq_bool_iff in E. lra. }
  assert (E1 : Qle_bool rate 0 = false).
  { destruct (Qle_bool rate 0) eqn:E; [|reflexivity]. apply Qle_bool_iff in E. lra. }
  rewrite E0, E1. reflexivity.
Qed.

Lemma _convertRublesToTargetCurrency_cached_rate q cur st rate :
  currencyCache st !! cur = Some (VNumber (Num rate)) -> (0 < rate)%Q ->
  _convertRublesToTargetCurrency Number_of_string cfg (Num q) cur st
  = (Ok (VNumber (round (Num (q / rate)) (CurrencyConversion_rounding cfg))), st).
Proof.
  intros H Hr. unfold _convertRublesToTargetCurrency, try_catch.
  unfold mbind, M_bind, bind, get, ret.
  rewrite H. cbn beta iota. rewrite ?H.
  cbn [default from_option id truthy js_le0 ToNumber num_le num_div].
  assert (E0 : Qeq_bool rate 0 = false).
  { destruct (Qeq_bool rate 0) eqn:E; [|reflexivity]. apply Qeq_bool_iff in E. lra. }
  assert (E1 : Qle_bool rate 0 = false).
  { destruct (Qle_bool rate 0) eqn:E; [|reflexivity]. apply Qle_bool_iff in E. lra. }
  rewrite E0, E1. reflexivity.
Qed.

Lemma _convertCurrency_cached_null rubles cur st :
  currencyCache st !! cur = Some VNull ->
  _convertCurrency Number_of_string cfg rubles cur st = (Ok VNull, st).
Proof.
  intros H. unfold _convertCurrency. unfold mbind, M_bind, bind, get, ret.
  rewrite H. cbn beta iota. rewrite ?H. reflexivity.
Qed.

Lemma _convertRublesToTargetCurrency_cached_null rubles cur st :
  currencyCache st !! cur = Some VNull ->
  _convertRublesToTargetCurrency Number_of_string cfg rubles cur st = (Ok VNull, st).
Proof.
  intros H. unfold _convertRublesToTargetCurrency, try_catch.
  unfold mbind, M_bind, bind, get, ret. rewrite H. cbn beta iota. rewrite ?H. reflexivity.
Qed.

(** The part of the converter that follows the filling of the cache does
    not change the state. *)
Lemma _convertCurrency_fills rubles cur st r st' :
  _convertCurrency Number_of_string cfg rubles cur st = (Ok r, st') ->
  exists rate, currencyCache st' !! cur = Some rate /\
               (currencyCache st !! cur = None ->
                exists price, priceCache st' !! cur = Some price /\
                              rate = js_or_else price VNull).
Proof.
  unfold _convertCurrency, mbind, M_bind, bind, get, ret, modify.
  destruct (currencyCache st !! cur) as [rate|] eqn:E.
  - cbn beta iota. rewrite ?E. cbn [default from_option id].
    intros H. exists rate. split; [|discriminate].
    destruct (negb (truthy rate) || js_le0 Number_of_string rate);
      [|destruct (negb (Number_isFinite _))]; inversion H; subst; exact E.
  - destruct (_lookupPrice _ cur st) as [[price|e] st1] eqn:El; [|discriminate].
    apply _lookupPrice_caches in El.
    cbn beta iota. cbn [currencyCache with_currencyCache].
    rewrite lookup_insert_eq. cbn [default from_option id]. intros H.
    exists (js_or_else price VNull).
    assert (st' = with_currencyCache (<[cur := js_or_else price VNull]> (currencyCache st1))
                    st1).
    { destruct (negb (truthy _) || js_le0 _ _);
        [|destruct (negb (Number_isFinite _))]; inversion H; reflexivity. }
    subst st'. cbn [currencyCache priceCache with_currencyCache].
    split; [apply lookup_insert_eq|]. intros _. exists price. now split.
Qed.

End Converter.


(** ** The offer updater, continued *)

Lemma find_index_from_all_false {X : Type} (p : X -> bool) (l : list X) : forall k,
  (forall x, In x l -> p x = false) -> find_index_from p k l = None.
Proof.
  induction l as [|x l IH]; intros k H; [reflexivity|].
  cbn [find_index_from]. rewrite (H x) by (left; reflexivity).
  apply IH. intros y Hy. apply H. now right.
Qed.

(** X8. When no write is possible the offer updater reports "no update"
    and changes neither the offers nor the engine: under cash-only mode
    when no offer of the list is denominated in a configured currency, and
    otherwise when the list is empty or its first element is null.  No
    rate is looked up for it (both renderings). *)
Theorem X8_no_update_leaves_everything N cfg (offers : list (option offer)) (rubles : num)
  (st : state) :
  (onlyCashTrades cfg = true ->
   (forall o, In (Some o) offers -> includes (currency_values cfg) (offer_tpl o) = false) ->
   _updateOffer N cfg offers rubles st = (Ok (false, offers), st) /\
   _updateTradeOfferPrice N cfg offers rubles st = (Ok (false, offers), st)) /\
  (onlyCashTrades cfg = false ->
   offers = [] \/ (exists rest, offers = None :: rest) ->
   _updateOffer N cfg offers rubles st = (Ok (false, offers), st) /\
   _updateTradeOfferPrice N cfg offers rubles st = (Ok (false, offers), st)).
Proof.
  split.
  - intros Hcash Hnone. unfold _updateOffer, _updateTradeOfferPrice. rewrite Hcash.
    unfold _findCurrencyOffer, _findCurrencyOfferInTradeList.
    rewrite !find_index_from_all_false; [split; reflexivity| |].
    + intros [o|] Ho; [now apply Hnone | reflexivity].
    + intros [o|] Ho; [|reflexivity]. rewrite (Hnone o Ho). apply andb_false_r.
  - intros Hcash Hempty. unfold _updateOffer, _updateTradeOfferPrice. rewrite Hcash.
    destruct Hempty as [->|(rest & ->)]; split; reflexivity.
Qed.


(** ** Invariants of the caches *)

Lemma keeps_refl I st : keeps I st st.
Proof. intros H. exact H. Qed.

Lemma keeps_trans I a b c : keeps I a b -> keeps I b c -> keeps I a c.
Proof. unfold keeps. auto. Qed.

Ltac frame_keeps :=
  repeat first
    [ solve [auto with frame nocore]
    | lazymatch goal with
      | |- preserves (keeps ?I) _ => frame_step (keeps_refl I) (keeps_trans I)
      end ];
  try (let H := fresh in intros H; exact H).

Lemma bind_get_run {B : Type} (k : state -> M B) st : bind get k st = k st st.
Proof. reflexivity. Qed.

Lemma bind_modify_run {B : Type} f (k : unit -> M B) st :
  bind (modify f) k st = k tt (f st).
Proof. reflexivity. Qed.

Lemma for_each_keeps {X : Type} (I : state -> Prop) (xs : list X) (body : X -> M unit) :
  (forall x st, I st -> I (snd (body x st))) ->
  forall st, I st -> I (snd (for_each xs body st)).
Proof.
  intros Hb. induction xs as [|x xs IH]; intros st HI; cbn [for_each]; [exact HI|].
  rewrite mbind_bind. unfold bind. specialize (Hb x st HI).
  destruct (body x st) as [[[]|e] st1]; cbn [snd] in *; [now apply IH | exact Hb].
Qed.

Lemma positive_number_Num v :
  positive_number v = true -> exists q, v = VNumber (Num q).
Proof. destruct v as [| | |[|q]|]; try discriminate. eauto. Qed.

Section CacheInvariants.

Variable Number_of_string : string -> num.
Variable cfg : config.

Hint Resolve log_same_rng log_same_baselines log_cache_grows
  rng_call_same_baselines rng_call_cache_grows : frame.

(** *** The resolvers *)

Lemma final_price_ok price :
  positive_or_null Number_of_string
    (if truthy price && js_gt0 Number_of_string price then price else VNull).
Proof.
  destruct (truthy price && js_gt0 _ price) eqn:E; [|now left].
  right. now apply andb_true_iff in E.
Qed.

Lemma _lookupPrice_result_ok tpl st r st' :
  cache_ok (positive_or_null Number_of_string) st ->
  _lookupPrice Number_of_string tpl st = (Ok r, st') ->
  positive_or_null Number_of_string r /\
  cache_ok (positive_or_null Number_of_string) st'.
Proof.
  intros Hok. unfold _lookupPrice. rewrite mbind_bind. unfold bind at 1, get.
  destruct (priceCache st !! tpl) as [c|] eqn:E.
  - intros H. inversion H. subst. split; [eapply Hok; exact E | exact Hok].
  - rewrite !mbind_bind. unfold bind, lift, modify, ret.
    destruct (scan_prices _ _ _) as [price|e]; [|discriminate].
    destruct (scan_handbook _ _ _ _) as [price'|e]; [|discriminate].
    intros H. inversion H. subst. split; [apply final_price_ok|].
    intros k v. cbn [priceCache with_priceCache]. rewrite lookup_insert.
    destruct (decide (tpl = k)) as [->|Hne].
    + intros Hv. inversion Hv. apply final_price_ok.
    + apply Hok.
Qed.

Lemma _lookupPrice_keeps_cache_ok tpl :
  preserves (keeps (cache_ok (positive_or_null Number_of_string)))
            (_lookupPrice Number_of_string tpl).
Proof.
  intros st Hok.
  destruct (_lookupPrice Number_of_string tpl st) as [[r|e] st'] eqn:E.
  - now apply (_lookupPrice_result_ok tpl st r st' Hok E).
  - assert (st' = st); [|now subst].
    revert E. unfold _lookupPrice. rewrite mbind_bind. unfold bind at 1, get.
    destruct (priceCache st !! tpl); [discriminate|].
    rewrite !mbind_bind. unfold bind, lift, modify, ret.
    destruct (scan_prices _ _ _) as [price|e1]; [|intros H; now inversion H].
    destruct (scan_handbook _ _ _ _) as [price'|e1]; [discriminate|].
    intros H. now inversion H.
Qed.

Lemma resolve_array_entry_shape resolved found :
  null_or_number resolved -> null_or_number (resolve_array_entry resolved found).
Proof.
  intros H. unfold resolve_array_entry. destruct found as [e|]; [|exact H].
  destruct (positive_number (f_Price e)) eqn:E1.
  { right. now apply positive_number_Num. }
  destruct (positive_number (f_price e)) eqn:E2; [|exact H].
  right. now apply positive_number_Num.
Qed.

Lemma resolve_extracted_shape resolved extracted :
  null_or_number resolved ->
  null_or_number (resolve_extracted Number_of_string resolved extracted).
Proof.
  intros H. unfold resolve_extracted.
  destruct (positive_number extracted) eqn:E1.
  { right. now apply positive_number_Num. }
  destruct (numeric_string Number_of_string extracted) eqn:E2; [|exact H].
  right. destruct extracted as [| | | |s]; try discriminate. cbn in *.
  destruct (Number_of_string s) as [|q]; [discriminate|]. eauto.
Qed.

Lemma resolve_price_shape d tpl r :
  resolve_price Number_of_string d tpl = Ok r -> null_or_number r.
Proof.
  assert (Hnull : null_or_number VNull) by now left.
  unfold resolve_price.
  assert (Hprices : forall r1,
    match prices d with
    | None => Ok VNull
    | Some (TArray rows) =>
        match find_entry tpl rows with
        | Ok found => Ok (resolve_array_entry VNull found)
        | Throw e => Throw e
        end
    | Some (TMap rows) =>
        match rows !! tpl with
        | Some priceEntry =>
            Ok (resolve_extracted Number_of_string VNull (any_price_field priceEntry))
        | None => Ok VNull
        end
    end = Ok r1 -> null_or_number r1).
  { intros r1. destruct (prices d) as [[rows|rows]|].
    - destruct (find_entry tpl rows) as [found|e]; [|discriminate].
      intros H. inversion H. now apply resolve_array_entry_shape.
    - destruct (rows !! tpl); intros H; inversion H;
        [now apply resolve_extracted_shape | exact Hnull].
    - intros H. inversion H. exact Hnull. }
  revert Hprices.
  generalize (match prices d with
    | None => Ok VNull
    | Some (TArray rows) =>
        match find_entry tpl rows with
        | Ok found => Ok (resolve_array_entry VNull found)
        | Throw e => Throw e
        end
    | Some (TMap rows) =>
        match rows !! tpl with
        | Some priceEntry =>
            Ok (resolve_extracted Number_of_string VNull (any_price_field priceEntry))
        | None => Ok VNull
        end
    end).
  intros [r1|e] Hprices; [|discriminate].
  specialize (Hprices r1 eq_refl).
  destruct (truthy r1); [intros H; inversion H; subst; exact Hprices|].
  destruct (handbook_Items d) as [[hrows|hrows]|].
  - destruct (find_entry tpl hrows) as [hfound|e]; [|discriminate].
    intros H. inversion H. now apply resolve_array_entry_shape.
  - destruct (hrows !! tpl); intros H; inversion H; subst;
      [now apply resolve_extracted_shape | exact Hprices].
  - intros H. inversion H. subst. exact Hprices.
Qed.

Lemma _lookupTemplatePriceFromDatabase_result_ok tpl st r st' :
  cache_ok null_or_number st ->
  _lookupTemplatePriceFromDatabase Number_of_string tpl st = (Ok r, st') ->
  null_or_number r /\ cache_ok null_or_number st'.
Proof.
  intros Hok. unfold _lookupTemplatePriceFromDatabase. rewrite mbind_bind.
  unfold bind at 1, get.
  destruct (priceCache st !! tpl) as [c|] eqn:E.
  - intros H. inversion H. subst. split; [eapply Hok; exact E | exact Hok].
  - unfold try_catch. rewrite !mbind_bind. unfold bind, lift, modify, ret, log, modify.
    destruct (resolve_price _ _ _) as [price|e] eqn:Er.
    + apply resolve_price_shape in Er.
      intros H. inversion H. subst. split; [exact Er|].
      intros k v. cbn [priceCache with_priceCache]. rewrite lookup_insert.
      destruct (decide (tpl = k)) as [->|Hne];
        [intros Hv; inversion Hv; subst; exact Er | apply Hok].
    + intros H. inversion H. subst. split; [now left|].
      intros k v. cbn [priceCache with_priceCache with_logger]. rewrite lookup_insert.
      destruct (decide (tpl = k)) as [->|Hne];
        [intros Hv; inversion Hv; now left | apply Hok].
Qed.

Lemma _lookupTemplatePriceFromDatabase_keeps_cache_ok tpl :
  preserves (keeps (cache_ok null_or_number))
            (_lookupTemplatePriceFromDatabase Number_of_string tpl).
Proof.
  intros st Hok.
  destruct (_lookupTemplatePriceFromDatabase_caches Number_of_string tpl st)
    as (r & st' & E & _).
  rewrite E. now apply (_lookupTemplatePriceFromDatabase_result_ok tpl st r st' Hok E).
Qed.

End CacheInvariants.


(** A property of the two price maps that the resolver and the baseline
    builder keep is kept by every activity of the engine. *)
Section InvariantOfActivities.

Variable Number_of_string : string -> num.
Variable cfg : config.
Variable I : state -> Prop.

Hypothesis I_maps : forall st st',
  priceCache st' = priceCache st -> baselinePrices st' = baselinePrices st -> I st -> I st'.

Lemma log_keeps l msg : preserves (keeps I) (log l msg).
Proof. intros st. unfold keeps. apply I_maps; reflexivity. Qed.

Lemma rng_call_keeps : preserves (keeps I) rng_call.
Proof.
  intros st. unfold rng_call, keeps. destruct (mulberry32_call (rng st)).
  apply I_maps; reflexivity.
Qed.

Hint Resolve log_keeps rng_call_keeps : frame.

Ltac frame_I :=
  repeat first
    [ solve [auto with frame nocore]
    | frame_step (keeps_refl I) (keeps_trans I) ];
  try (unfold keeps; apply I_maps; reflexivity).

Section Compact.

Hypothesis lookup_keeps : forall tpl,
  preserves (keeps I) (_lookupPrice Number_of_string tpl).
Hypothesis build_keeps : forall ids,
  preserves (keeps I) (_buildBaselines Number_of_string cfg ids).

Hint Resolve lookup_keeps build_keeps : frame.

Lemma _convertCurrency_keeps rubles cur :
  preserves (keeps I) (_convertCurrency Number_of_string cfg rubles cur).
Proof. unfold _convertCurrency. frame_I. Qed.
Hint Resolve _convertCurrency_keeps : frame.

Lemma _updateOffer_keeps offers rubles :
  preserves (keeps I) (_updateOffer Number_of_string cfg offers rubles).
Proof. unfold _updateOffer. frame_I. Qed.
Hint Resolve _updateOffer_keeps : frame.

Lemma _randomizePrice_keeps baseline :
  preserves (keeps I) (_randomizePrice Number_of_string cfg baseline).
Proof. unfold _randomizePrice. frame_I. Qed.
Hint Resolve _randomizePrice_keeps : frame.

Lemma _processTrader_item_keeps t it :
  preserves (keeps I) (_processTrader_item Number_of_string cfg t it).
Proof. unfold _processTrader_item. frame_I. Qed.
Hint Resolve _processTrader_item_keeps : frame.

Lemma _processTrader_items_keeps t l : forall n,
  preserves (keeps I) (_processTrader_items Number_of_string cfg t l n).
Proof. induction l as [|it l IH]; intros n; cbn [_processTrader_items]; frame_I. Qed.
Hint Resolve _processTrader_items_keeps : frame.

Lemma _processTrader_keeps t :
  preserves (keeps I) (_processTrader Number_of_string cfg t).
Proof. unfold _processTrader. frame_I. Qed.
Hint Resolve _processTrader_keeps : frame.

Lemma _runCycle_keeps : preserves (keeps I) (_runCycle Number_of_string cfg).
Proof.
  unfold _runCycle, _runCycle_traders, _runCycle_trader, _discoverTraders. frame_I.
Qed.

Lemma after_compact_keeps acts : forall st,
  I st -> I (after_compact Number_of_string cfg acts st).
Proof.
  unfold after_compact.
  induction acts as [|a acts IH]; intros st HI; cbn [fold_left]; [exact HI|].
  apply IH. destruct a; cbn [perform_compact].
  - now apply lookup_keeps.
  - now apply build_keeps.
  - now apply _convertCurrency_keeps.
  - now apply _updateOffer_keeps.
  - now apply _processTrader_keeps.
  - now apply _runCycle_keeps.
  - revert HI. apply I_maps; reflexivity.
Qed.

End Compact.

Section Verbose.

Hypothesis lookup_keeps : forall tpl,
  preserves (keeps I) (_lookupTemplatePriceFromDatabase Number_of_string tpl).
Hypothesis build_keeps : forall ids force,
  preserves (keeps I) (_buildBaselinePricesFromTraders Number_of_string cfg ids force).

Hint Resolve lookup_keeps build_keeps : frame.

Lemma _convertRublesToTargetCurrency_keeps rubles cur :
  preserves (keeps I) (_convertRublesToTargetCurrency Number_of_string cfg rubles cur).
Proof. unfold _convertRublesToTargetCurrency. frame_I. Qed.
Hint Resolve _convertRublesToTargetCurrency_keeps : frame.

Lemma _updateTradeOfferPrice_keeps offers rubles :
  preserves (keeps I) (_updateTradeOfferPrice Number_of_string cfg offers rubles).
Proof. unfold _updateTradeOfferPrice, write_price. frame_I. Qed.
Hint Resolve _updateTradeOfferPrice_keeps : frame.

Lemma _calculateRandomizedPrice_keeps baseline :
  preserves (keeps I) (_calculateRandomizedPrice Number_of_string cfg baseline).
Proof. unfold _calculateRandomizedPrice. frame_I. Qed.
Hint Resolve _calculateRandomizedPrice_keeps : frame.

Lemma _randomizeTraderPrices_item_keeps t it :
  preserves (keeps I) (_randomizeTraderPrices_item Number_of_string cfg t it).
Proof. unfold _randomizeTraderPrices_item. frame_I. Qed.
Hint Resolve _randomizeTraderPrices_item_keeps : frame.

Lemma _randomizeTraderPrices_items_keeps t l : forall n,
  preserves (keeps I) (_randomizeTraderPrices_items Number_of_string cfg t l n).
Proof.
  induction l as [|it l IH]; intros n; cbn [_randomizeTraderPrices_items]; frame_I.
Qed.
Hint Resolve _randomizeTraderPrices_items_keeps : frame.

Lemma _randomizeTraderPrices_keeps t :
  preserves (keeps I) (_randomizeTraderPrices Number_of_string cfg t).
Proof. unfold _randomizeTraderPrices. frame_I. Qed.
Hint Resolve _randomizeTraderPrices_keeps : frame.

Lemma _executeOneRandomizationCycle_keeps :
  preserves (keeps I) (_executeOneRandomizationCycle Number_of_string cfg).
Proof.
  unfold _executeOneRandomizationCycle, _executeOneRandomizationCycle_traders,
    _executeOneRandomizationCycle_trader, _autoDiscoverRelevantTraders.
  frame_I.
Qed.

Lemma after_verbose_keeps acts : forall st,
  I st -> I (after_verbose Number_of_string cfg acts st).
Proof.
  unfold after_verbose.
  induction acts as [|a acts IH]; intros st HI; cbn [fold_left]; [exact HI|].
  apply IH. destruct a; cbn [perform_verbose].
  - now apply lookup_keeps.
  - now apply build_keeps.
  - now apply _convertRublesToTargetCurrency_keeps.
  - now apply _updateTradeOfferPrice_keeps.
  - now apply _randomizeTraderPrices_keeps.
  - now apply _executeOneRandomizationCycle_keeps.
  - revert HI. apply I_maps; reflexivity.
Qed.

End Verbose.

End InvariantOfActivities.


Lemma cache_ok_maps P st st' :
  priceCache st' = priceCache st -> baselinePrices st' = baselinePrices st ->
  cache_ok P st -> cache_ok P st'.
Proof. unfold cache_ok. intros -> _ H. exact H. Qed.

Lemma baselines_ok_maps N st st' :
  priceCache st' = priceCache st -> baselinePrices st' = baselinePrices st ->
  baselines_ok N st -> baselines_ok N st'.
Proof. unfold baselines_ok. intros -> -> H. exact H. Qed.

Lemma baselines_ok_mono N st st' :
  baselinePrices st' = baselinePrices st -> priceCache st ⊆ priceCache st' ->
  baselines_ok N st -> baselines_ok N st'.
Proof.
  unfold baselines_ok. intros -> Hsub H k v Hk.
  destruct (H k v Hk) as (Hc & Ht & Hg). repeat split; try assumption.
  eapply lookup_weaken; eassumption.
Qed.

Lemma baselines_ok_insert N st tpl r :
  baselines_ok N st -> priceCache st !! tpl = Some r ->
  truthy r && js_gt0 N r = true ->
  baselines_ok N (with_baselinePrices (<[tpl := r]> (baselinePrices st)) st).
Proof.
  intros H Hc Ht k v. cbn [baselinePrices priceCache with_baselinePrices].
  rewrite lookup_insert. destruct (decide (tpl = k)) as [->|Hne]; [|apply H].
  intros Hv. inversion Hv. subst. apply andb_true_iff in Ht as [Ht Hg]. now repeat split.
Qed.

Lemma baselines_ok_cleared N st : baselines_ok N (with_baselinePrices ∅ st).
Proof. intros k v. cbn [baselinePrices with_baselinePrices]. now rewrite lookup_empty. Qed.

Section BaselineInvariant.

Variable Number_of_string : string -> num.
Variable cfg : config.

Hint Resolve log_cache_grows log_same_baselines : frame.

Lemma _lookupPrice_keeps_baselines_ok tpl :
  preserves (keeps (baselines_ok Number_of_string)) (_lookupPrice Number_of_string tpl).
Proof.
  intros st. unfold keeps. apply baselines_ok_mono.
  - apply (_lookupPrice_same_baselines Number_of_string tpl st).
  - apply (_lookupPrice_cache_grows Number_of_string tpl st).
Qed.

Lemma _lookupTemplatePriceFromDatabase_keeps_baselines_ok tpl :
  preserves (keeps (baselines_ok Number_of_string))
            (_lookupTemplatePriceFromDatabase Number_of_string tpl).
Proof.
  intros st. unfold keeps. apply baselines_ok_mono.
  - apply (_lookupTemplatePriceFromDatabase_same_baselines Number_of_string tpl st).
  - apply (_lookupTemplatePriceFromDatabase_cache_grows Number_of_string tpl st).
Qed.

(** One turn of the second loop of the compact builder. *)
Lemma baseline_turn_ok tpl st :
  baselines_ok Number_of_string st ->
  baselines_ok Number_of_string
    (snd (bind (_lookupPrice Number_of_string tpl)
            (fun price =>
               if truthy price && js_gt0 Number_of_string price
               then modify (fun st => with_baselinePrices
                                        (<[tpl := price]> (baselinePrices st)) st)
               else ret tt) st)).
Proof.
  intros HI. unfold bind.
  pose proof (_lookupPrice_keeps_baselines_ok tpl st HI) as H1.
  destruct (_lookupPrice Number_of_string tpl st) as [[r|e] st1] eqn:E; cbn [snd] in *;
    [|exact H1].
  apply _lookupPrice_caches in E.
  destruct (truthy r && js_gt0 Number_of_string r) eqn:Et; [|exact H1].
  now apply baselines_ok_insert.
Qed.

Lemma baseline_turn_keeps tpl :
  preserves (keeps (baselines_ok Number_of_string))
    (bind (_lookupPrice Number_of_string tpl)
       (fun price =>
          if truthy price && js_gt0 Number_of_string price
          then modify (fun st => with_baselinePrices
                                   (<[tpl := price]> (baselinePrices st)) st)
          else ret tt)).
Proof. intros st HI. now apply baseline_turn_ok. Qed.

Lemma _buildBaselines_keeps_baselines_ok ids :
  preserves (keeps (baselines_ok Number_of_string))
            (_buildBaselines Number_of_string cfg ids).
Proof.
  pose proof (log_keeps _ (baselines_ok_maps Number_of_string)) as Hlog.
  pose proof baseline_turn_keeps as Hturn.
  intros st HI. unfold _buildBaselines. rewrite mbind_bind, bind_get_run.
  destruct (stickToBaseline cfg && (0 <? size (baselinePrices st))%nat); [exact HI|].
  rewrite mbind_bind, bind_modify_run.
  match goal with
  | |- baselines_ok _ (snd (?m ?s)) =>
      assert (Hrest : preserves (keeps (baselines_ok Number_of_string)) m)
        by frame_keeps
  end.
  apply Hrest. apply baselines_ok_cleared.
Qed.

(** One turn of the second loop of the verbose builder. *)
Lemma baseline_turn_verbose_ok tpl st :
  baselines_ok Number_of_string st ->
  baselines_ok Number_of_string
    (snd (try_catch
            (bind (_lookupTemplatePriceFromDatabase Number_of_string tpl)
               (fun templatePrice =>
                  if truthy templatePrice && js_gt0 Number_of_string templatePrice
                  then modify (fun st => with_baselinePrices
                                           (<[tpl := templatePrice]> (baselinePrices st)) st)
                  else ret tt))
            (fun message =>
               if debug cfg
               then log error (tag ("Failed to establish baseline price for " ++ tpl
                                    ++ ": " ++ message))
               else ret tt) st)).
Proof.
  intros HI. unfold try_catch, bind.
  pose proof (_lookupTemplatePriceFromDatabase_keeps_baselines_ok tpl st HI) as H1.
  destruct (_lookupTemplatePriceFromDatabase_caches Number_of_string tpl st)
    as (r & st1 & E & Hc).
  rewrite E in *. cbn [snd] in H1.
  destruct (truthy r && js_gt0 Number_of_string r) eqn:Et; [|exact H1].
  now apply baselines_ok_insert.
Qed.

Lemma baseline_turn_verbose_keeps tpl :
  preserves (keeps (baselines_ok Number_of_string))
    (try_catch
       (bind (_lookupTemplatePriceFromDatabase Number_of_string tpl)
          (fun templatePrice =>
             if truthy templatePrice && js_gt0 Number_of_string templatePrice
             then modify (fun st => with_baselinePrices
                                      (<[tpl := templatePrice]> (baselinePrices st)) st)
             else ret tt))
       (fun message =>
          if debug cfg
          then log error (tag ("Failed to establish baseline price for " ++ tpl
                               ++ ": " ++ message))
          else ret tt)).
Proof. intros st HI. now apply baseline_turn_verbose_ok. Qed.

Lemma _buildBaselinePricesFromTraders_keeps_baselines_ok ids force :
  preserves (keeps (baselines_ok Number_of_string))
            (_buildBaselinePricesFromTraders Number_of_string cfg ids force).
Proof.
  pose proof (log_keeps _ (baselines_ok_maps Number_of_string)) as Hlog.
  pose proof baseline_turn_verbose_keeps as Hturn.
  intros st HI. unfold _buildBaselinePricesFromTraders.
  rewrite mbind_bind, bind_get_run.
  destruct (negb force && stickToBaseline cfg && (0 <? size (baselinePrices st))%nat).
  { destruct (debug cfg); exact HI. }
  rewrite mbind_bind, bind_modify_run. cbv zeta. unfold mbind, M_bind.
  match goal with
  | |- baselines_ok _ (snd (?m ?s)) =>
      assert (Hrest : preserves (keeps (baselines_ok Number_of_string)) m)
        by frame_keeps
  end.
  apply Hrest. apply baselines_ok_cleared.
Qed.

Hint Resolve _lookupPrice_keeps_cache_ok _lookupTemplatePriceFromDatabase_keeps_cache_ok
  : frame.

Lemma _buildBaselines_keeps_cache_ok ids :
  preserves (keeps (cache_ok (positive_or_null Number_of_string)))
            (_buildBaselines Number_of_string cfg ids).
Proof.
  pose proof (log_keeps _ (cache_ok_maps (positive_or_null Number_of_string))) as Hlog.
  unfold _buildBaselines. frame_keeps.
Qed.

Lemma _buildBaselinePricesFromTraders_keeps_cache_ok ids force :
  preserves (keeps (cache_ok null_or_number))
            (_buildBaselinePricesFromTraders Number_of_string cfg ids force).
Proof.
  pose proof (log_keeps _ (cache_ok_maps null_or_number)) as Hlog.
  unfold _buildBaselinePricesFromTraders. frame_keeps.
Qed.

End BaselineInvariant.

Lemma initial_cache_ok P cfg d : cache_ok P (initial_state cfg d).
Proof. intros k v. cbn [priceCache initial_state]. now rewrite lookup_empty. Qed.

Lemma initial_baselines_ok N cfg d : baselines_ok N (initial_state cfg d).
Proof. intros k v. cbn [baselinePrices initial_state]. now rewrite lookup_empty. Qed.

(** X9. What the resolvers return in any state the engine reaches from its
    initial state (empty caches), whatever the stores: the compact resolver,
    when it returns, gives null or a truthy value that coerces to a number
    greater than zero; the verbose resolver returns, and gives null or a
    number that is not NaN - never a string or undefined. *)
Theorem X9_resolver_results N cfg (d : tables) (acts : list activity) (tpl : string) :
  (forall r st',
     _lookupPrice N tpl (after_compact N cfg acts (initial_state cfg d)) = (Ok r, st') ->
     positive_or_null N r) /\
  (exists r st',
     _lookupTemplatePriceFromDatabase N tpl (after_verbose N cfg acts (initial_state cfg d))
     = (Ok r, st') /\
     null_or_number r).
Proof.
  split.
  - intros r st' H.
    refine (proj1 (_lookupPrice_result_ok N tpl _ r st' _ H)).
    apply (after_compact_keeps N cfg _ (cache_ok_maps (positive_or_null N))
             (_lookupPrice_keeps_cache_ok N) (_buildBaselines_keeps_cache_ok N cfg)).
    apply initial_cache_ok.
  - destruct (_lookupTemplatePriceFromDatabase_caches N tpl
                (after_verbose N cfg acts (initial_state cfg d))) as (r & st' & H & _).
    exists r, st'. split; [exact H|].
    refine (proj1 (_lookupTemplatePriceFromDatabase_result_ok N tpl _ r st' _ H)).
    apply (after_verbose_keeps N cfg _ (cache_ok_maps null_or_number)
             (_lookupTemplatePriceFromDatabase_keeps_cache_ok N)
             (_buildBaselinePricesFromTraders_keeps_cache_ok N cfg)).
    apply initial_cache_ok.
Qed.

(** X10. In every state the engine reaches from its initial state, whatever
    the stores, each entry of the baseline map is the cached reference price
    of its template and is strictly positive: a truthy value that coerces to
    a number greater than zero (both renderings). *)
Theorem X10_baselines_positive_and_cached N cfg (d : tables) (acts : list activity) :
  baselines_ok N (after_compact N cfg acts (initial_state cfg d)) /\
  baselines_ok N (after_verbose N cfg acts (initial_state cfg d)).
Proof.
  split.
  - apply (after_compact_keeps N cfg _ (baselines_ok_maps N)
             (_lookupPrice_keeps_baselines_ok N) (_buildBaselines_keeps_baselines_ok N cfg)).
    apply initial_baselines_ok.
  - apply (after_verbose_keeps N cfg _ (baselines_ok_maps N)
             (_lookupTemplatePriceFromDatabase_keeps_baselines_ok N)
             (_buildBaselinePricesFromTraders_keeps_baselines_ok N cfg)).
    apply initial_baselines_ok.
Qed.


(** ** The cycle as a whole *)

Section Cycles.

Variable Number_of_string : string -> num.
Variable cfg : config.

(** The loop of the compact discovery returns the matching traders when
    every nickname is a string and throws as soon as one is not. *)
Lemma discover_strings entries : forall found,
  (forall id t, In (id, t) entries -> nickname_is_string (nickname t) = true) ->
  discover entries found
  = Ok (found ++ map fst (List.filter (fun kv => nickname_matches (nickname (snd kv)))
                            entries)).
Proof.
  induction entries as [|[id t] rest IH]; intros found H; cbn [discover].
  - cbn. rewrite app_nil_r. reflexivity.
  - rewrite (H id t (or_introl eq_refl)).
    rewrite IH by (intros id' t' Hin; apply (H id' t'); right; exact Hin).
    cbn [List.filter snd]. destruct (nickname_matches (nickname t)); cbn [map fst].
    + rewrite <- app_assoc. reflexivity.
    + reflexivity.
Qed.

Lemma discover_not_a_string entries id t : forall found,
  In (id, t) entries -> nickname_is_string (nickname t) = false ->
  discover entries found = Throw TypeError_toLowerCase.
Proof.
  induction entries as [|[id' t'] rest IH]; intros found Hin Hn; [destruct Hin|].
  cbn [discover]. destruct (nickname_is_string (nickname t')) eqn:E; [|reflexivity].
  destruct Hin as [Heq|Hin]; [inversion Heq; subst; congruence|].
  apply IH; assumption.
Qed.

Lemma discover_throws entries : forall found e,
  discover entries found = Throw e ->
  e = TypeError_toLowerCase /\
  exists id t, In (id, t) entries /\ nickname_is_string (nickname t) = false.
Proof.
  induction entries as [|[id t] rest IH]; intros found e; cbn [discover]; [discriminate|].
  destruct (nickname_is_string (nickname t)) eqn:E.
  - intros H. apply IH in H as (He & id' & t' & Hin & Hn).
    split; [exact He|]. exists id', t'. split; [right; exact Hin|exact Hn].
  - intros H. inversion H. split; [reflexivity|].
    exists id, t. split; [left; reflexivity|exact E].
Qed.

Lemma _discoverTraders_returns st :
  nicknames_are_strings (db st) ->
  exists st', _discoverTraders cfg st = (Ok (matching_traders (db st)), st') /\
              (debug cfg = false -> st' = st) /\ db st' = db st /\ rng st' = rng st.
Proof.
  intros H. unfold _discoverTraders. rewrite mbind_bind, bind_get_run.
  rewrite (discover_strings _ [] H). cbn [app].
  rewrite mbind_bind. unfold bind at 1, lift.
  destruct (debug cfg); rewrite !mbind_bind; unfold bind, log, modify, ret;
    eexists; (split; [reflexivity|]); (split; [|split; reflexivity]).
  - discriminate.
  - reflexivity.
Qed.

Lemma _discoverTraders_throws st e st' :
  _discoverTraders cfg st = (Throw e, st') ->
  e = TypeError_toLowerCase /\ st' = st /\ ~ nicknames_are_strings (db st).
Proof.
  unfold _discoverTraders. rewrite mbind_bind, bind_get_run.
  rewrite mbind_bind. unfold bind at 1, lift.
  destruct (discover (traders (db st)) []) as [found|e0] eqn:E.
  - destruct (debug cfg); rewrite !mbind_bind; unfold bind, log, modify, ret; discriminate.
  - intros H. inversion H. subst.
    apply discover_throws in E as (He & id & t & Hin & Hn).
    split; [exact He|]. split; [reflexivity|].
    intros Hall. rewrite (Hall id t Hin) in Hn. discriminate.
Qed.

Lemma _discoverTraders_not_a_string st id t :
  In (id, t) (traders (db st)) -> nickname_is_string (nickname t) = false ->
  _discoverTraders cfg st = (Throw TypeError_toLowerCase, st).
Proof.
  intros Hin Hn. unfold _discoverTraders. rewrite mbind_bind, bind_get_run.
  rewrite (discover_not_a_string _ id t [] Hin Hn). reflexivity.
Qed.

Lemma _autoDiscoverRelevantTraders_never_throws :
  never_throws (_autoDiscoverRelevantTraders cfg).
Proof. unfold _autoDiscoverRelevantTraders. total. Qed.

Lemma _executeOneRandomizationCycle_never_throws :
  never_throws (_executeOneRandomizationCycle Number_of_string cfg).
Proof.
  pose proof _autoDiscoverRelevantTraders_never_throws.
  pose proof (_buildBaselinePricesFromTraders_never_throws Number_of_string cfg).
  pose proof (_executeOneRandomizationCycle_trader_never_throws Number_of_string cfg).
  unfold _executeOneRandomizationCycle, _executeOneRandomizationCycle_traders. total.
Qed.

Lemma _runCycle_traderIds_throws st e st' :
  _runCycle_traderIds cfg st = (Throw e, st') ->
  autoDiscoverTraderIds cfg = true /\ _discoverTraders cfg st = (Throw e, st').
Proof.
  unfold _runCycle_traderIds. destruct (autoDiscoverTraderIds cfg); [|discriminate].
  rewrite mbind_bind. unfold bind.
  destruct (_discoverTraders cfg st) as [[found|e0] st0]; [discriminate|].
  intros H. inversion H. auto.
Qed.

(** The cycles, cut into their three steps. *)
Lemma _runCycle_steps :
  _runCycle Number_of_string cfg
  = if negb (enabled cfg) then log info (tag "Disabled, skipping cycle")
    else bind (_runCycle_traderIds cfg)
           (fun traderIds =>
              bind (_buildBaselines Number_of_string cfg traderIds)
                (fun _ => _runCycle_traders Number_of_string cfg traderIds)).
Proof. reflexivity. Qed.

Lemma _executeOneRandomizationCycle_steps :
  _executeOneRandomizationCycle Number_of_string cfg
  = if negb (enabled cfg) then log info (tag "disabled -> skipping cycle")
    else bind (_executeOneRandomizationCycle_traderIds cfg)
           (fun activeTraderIds =>
              bind (_buildBaselinePricesFromTraders Number_of_string cfg activeTraderIds
                      false)
                (fun _ => _executeOneRandomizationCycle_traders Number_of_string cfg
                            activeTraderIds)).
Proof. reflexivity. Qed.

(** A compact cycle that throws was aborted by discovery or by the
    baseline builder. *)
Lemma _runCycle_throws st e st' :
  _runCycle Number_of_string cfg st = (Throw e, st') ->
  (autoDiscoverTraderIds cfg = true /\ _discoverTraders cfg st = (Throw e, st')) \/
  (exists ids st0, _runCycle_traderIds cfg st = (Ok ids, st0) /\
                   _buildBaselines Number_of_string cfg ids st0 = (Throw e, st')).
Proof.
  rewrite _runCycle_steps. destruct (negb (enabled cfg)); [discriminate|].
  unfold bind at 1.
  destruct (_runCycle_traderIds cfg st) as [[ids|e0] st0] eqn:Ei.
  - unfold bind at 1.
    destruct (_buildBaselines Number_of_string cfg ids st0) as [[[]|e1] st1] eqn:Eb.
    + unfold _runCycle_traders.
      rewrite (for_each_all_turns _ _ (_runCycle_trader_never_throws Number_of_string cfg)).
      discriminate.
    + intros H. inversion H. subst. right. eauto.
  - intros H. inversion H. subst. left. apply _runCycle_traderIds_throws. exact Ei.
Qed.

Lemma collect_templates_not_iterable d ids : forall acc tid nick bs,
  In tid ids ->
  assoc tid (traders d)
  = Some {| nickname := nick;
            assort := Some {| items := ItemsOther; barter_scheme := bs |} |} ->
  collect_templates d ids acc = Throw TypeError_not_iterable.
Proof.
  induction ids as [|x ids IH]; intros acc tid nick bs Hin Ht; [contradiction|].
  cbn [collect_templates].
  destruct Hin as [->|Hin].
  - rewrite Ht. reflexivity.
  - destruct (assoc x (traders d)) as [[n [[its bs']|]]|]; try (eapply IH; eassumption).
    destruct its; [eapply IH; eassumption | eapply IH; eassumption | reflexivity].
Qed.

Lemma _runCycle_not_iterable st tid nick bs :
  enabled cfg = true -> autoDiscoverTraderIds cfg = false ->
  stickToBaseline cfg && (0 <? size (baselinePrices st))%nat = false ->
  In tid (traderIds cfg) ->
  assoc tid (traders (db st))
  = Some {| nickname := nick;
            assort := Some {| items := ItemsOther; barter_scheme := bs |} |} ->
  _runCycle Number_of_string cfg st
  = (Throw TypeError_not_iterable, with_baselinePrices ∅ st).
Proof.
  intros He Ha Hs Hin Ht. unfold _runCycle. rewrite He, Ha. cbn [negb].
  rewrite mbind_bind. unfold bind at 1, ret.
  rewrite mbind_bind. unfold bind at 1.
  unfold _buildBaselines. rewrite mbind_bind, bind_get_run, Hs.
  rewrite mbind_bind, bind_modify_run, mbind_bind. unfold bind at 1, lift.
  cbn [db with_baselinePrices].
  rewrite (collect_templates_not_iterable _ _ _ tid nick bs Hin Ht). reflexivity.
Qed.

End Cycles.

(** X11. The verbose cycle returns on every state and store: every error
    of the scans is caught inside it and discovery converts a nickname to a
    string before it lowercases it.  The compact cycle can be aborted in
    two ways only, both before any trader is processed: by discovery, when
    discovery is on and the nickname of some trader of the store holds a
    value that is no string, and out of its baseline builder; its loop over
    the traders always returns. *)
Theorem X11_cycle_errors N cfg (st : state) :
  (exists st', _executeOneRandomizationCycle N cfg st = (Ok tt, st')) /\
  (forall e st',
     _runCycle N cfg st = (Throw e, st') ->
     (autoDiscoverTraderIds cfg = true /\ e = TypeError_toLowerCase /\ st' = st /\
      ~ nicknames_are_strings (db st)) \/
     (exists ids st0, _runCycle_traderIds cfg st = (Ok ids, st0) /\
                      _buildBaselines N cfg ids st0 = (Throw e, st'))) /\
  (forall id t,
     enabled cfg = true -> autoDiscoverTraderIds cfg = true ->
     In (id, t) (traders (db st)) -> nickname_is_string (nickname t) = false ->
     _runCycle N cfg st = (Throw TypeError_toLowerCase, st)).
Proof.
  split; [|split].
  - destruct (_executeOneRandomizationCycle_never_throws N cfg st) as ([] & st' & H).
    eauto.
  - intros e st' H. apply _runCycle_throws in H as [[Ha Hd]|H]; [left|right; exact H].
    apply _discoverTraders_throws in Hd as (He & Hs & Hn). auto.
  - intros id t He Ha Hin Hn. rewrite _runCycle_steps, He. cbn [negb].
    unfold bind at 1, _runCycle_traderIds. rewrite Ha, mbind_bind. unfold bind at 1.
    rewrite (_discoverTraders_not_a_string cfg st id t Hin Hn). reflexivity.
Qed.

(** X12. A configured trader whose [assort.items] is a truthy value that
    cannot be iterated aborts the compact cycle in the baseline builder,
    whenever the builder rebuilds: the cycle throws before any trader is
    processed and leaves the baseline map emptied.  The verbose cycle
    returns on the same state. *)
Theorem X12_not_iterable_items_abort_compact_cycle N cfg (st : state) (tid : string)
  (nick : option nickname_value) (bs : list (string * scheme)) :
  enabled cfg = true -> autoDiscoverTraderIds cfg = false ->
  stickToBaseline cfg && (0 <? size (baselinePrices st))%nat = false ->
  In tid (traderIds cfg) ->
  assoc tid (traders (db st))
  = Some {| nickname := nick;
            assort := Some {| items := ItemsOther; barter_scheme := bs |} |} ->
  _runCycle N cfg st = (Throw TypeError_not_iterable, with_baselinePrices ∅ st) /\
  exists st', _executeOneRandomizationCycle N cfg st = (Ok tt, st').
Proof.
  intros He Ha Hs Hin Ht. split.
  - eapply _runCycle_not_iterable; eassumption.
  - destruct (_executeOneRandomizationCycle_never_throws N cfg st) as ([] & st' & H).
    eauto.
Qed.


(** ** Trader discovery *)

Lemma prefix_spec p : forall s, String.prefix p s = true <-> exists post, s = (p ++ post)%string.
Proof.
  induction p as [|c p IH]; intros s.
  - split; [intros _; now exists s | intros _; now destruct s].
  - destruct s as [|c' s]; cbn [String.prefix].
    + split; [discriminate | intros (post & H); discriminate].
    + destruct (Ascii.ascii_dec c c') as [->|Hne].
      * rewrite IH. split; intros (post & H); exists post; cbn.
        -- now rewrite H.
        -- now inversion H.
      * split; [discriminate|]. intros (post & H). simpl in H. inversion H. congruence.
Qed.

Lemma str_includes_spec needle : forall s,
  str_includes needle s = true <-> exists pre post, s = (pre ++ needle ++ post)%string.
Proof.
  induction s as [|c s IH]; cbn [str_includes].
  - rewrite orb_false_r, prefix_spec. split.
    + intros (post & H). now exists ""%string, post.
    + intros (pre & post & H). destruct pre as [|c pre]; [now exists post | discriminate].
  - rewrite orb_true_iff, prefix_spec, IH. split.
    + intros [(post & H)|(pre & post & H)].
      * now exists ""%string, post.
      * exists (String c pre), post. cbn. now rewrite H.
    + intros (pre & post & H). destruct pre as [|c' pre].
      * left. now exists post.
      * right. inversion H. now exists pre, post.
Qed.

Lemma str_includes_aiotrader s :
  str_includes "aiotrader" s = true -> str_includes "aio" s = true.
Proof.
  rewrite !str_includes_spec. intros (pre & post & ->).
  exists pre, ("trader" ++ post)%string. reflexivity.
Qed.

Lemma nickname_matches_spec n :
  nickname_matches n = true <->
  exists pre post,
    toLowerCase (nickname_or "" n) = (pre ++ "aio" ++ post)%string \/
    toLowerCase (nickname_or "" n) = (pre ++ "bluehead" ++ post)%string.
Proof.
  unfold nickname_matches. rewrite !orb_true_iff. split.
  - intros [[H|H]|H].
    + apply str_includes_spec in H as (pre & post & H). eauto.
    + apply str_includes_spec in H as (pre & post & H). eauto.
    + apply str_includes_aiotrader, str_includes_spec in H as (pre & post & H). eauto.
  - intros (pre & post & [H|H]).
    + left. left. apply str_includes_spec. eauto.
    + left. right. apply str_includes_spec. eauto.
Qed.

Lemma matching_traders_spec d tid :
  In tid (matching_traders d) <->
  exists t pre post,
    In (tid, t) (traders d) /\
    (toLowerCase (nickname_or "" (nickname t)) = (pre ++ "aio" ++ post)%string \/
     toLowerCase (nickname_or "" (nickname t)) = (pre ++ "bluehead" ++ post)%string).
Proof.
  unfold matching_traders. rewrite in_map_iff. split.
  - intros ([k t] & <- & H). apply filter_In in H as [H1 H2].
    apply nickname_matches_spec in H2 as (pre & post & H2). exists t, pre, post. auto.
  - intros (t & pre & post & H1 & H2). exists (tid, t). split; [reflexivity|].
    apply filter_In. split; [exact H1|]. apply nickname_matches_spec. eauto.
Qed.

Lemma _autoDiscoverRelevantTraders_returns cfg st :
  exists st', _autoDiscoverRelevantTraders cfg st = (Ok (matching_traders (db st)), st') /\
              (debug cfg = false -> st' = st) /\ db st' = db st /\ rng st' = rng st.
Proof.
  unfold _autoDiscoverRelevantTraders. rewrite mbind_bind, bind_get_run.
  destruct (debug cfg); rewrite !mbind_bind; unfold bind, log, modify, ret;
    eexists; (split; [reflexivity|]); (split; [|split; reflexivity]).
  - discriminate.
  - reflexivity.
Qed.

(** X13. Trader discovery.  The verbose rendering always returns: in store
    order, the identifiers of the traders whose nickname, converted to a
    string and lowercased, contains "aio" or "bluehead" (the third test,
    for "aiotrader", never adds a trader); a trader without a nickname is
    never returned.  The compact rendering returns the same list when every
    nickname of the store is a string, and throws a TypeError, whatever the
    other traders, as soon as the nickname of one trader holds a value that
    is no string.  A discovery that returns leaves the engine state as it
    was apart from one debug line when debugging is on. *)
Theorem X13_discovery cfg (st : state) :
  (exists st2,
     _autoDiscoverRelevantTraders cfg st = (Ok (matching_traders (db st)), st2) /\
     (debug cfg = false -> st2 = st) /\ db st2 = db st /\ rng st2 = rng st) /\
  (forall tid,
     In tid (matching_traders (db st)) <->
     exists t pre post,
       In (tid, t) (traders (db st)) /\
       (toLowerCase (nickname_or "" (nickname t)) = (pre ++ "aio" ++ post)%string \/
        toLowerCase (nickname_or "" (nickname t)) = (pre ++ "bluehead" ++ post)%string)) /\
  (nicknames_are_strings (db st) ->
   exists st1,
     _discoverTraders cfg st = (Ok (matching_traders (db st)), st1) /\
     (debug cfg = false -> st1 = st) /\ db st1 = db st /\ rng st1 = rng st) /\
  (forall id t,
     In (id, t) (traders (db st)) -> nickname_is_string (nickname t) = false ->
     _discoverTraders cfg st = (Throw TypeError_toLowerCase, st)).
Proof.
  split; [apply _autoDiscoverRelevantTraders_returns|].
  split; [intros tid; apply matching_traders_spec|].
  split; [apply _discoverTraders_returns|].
  intros id t. apply _discoverTraders_not_a_string.
Qed.


(** ** The loader: numeric fields *)

Ltac q_cases :=
  repeat (cbn [fst snd negb andb] in *;
          match goal with
          | |- context [Qeq_bool ?x ?y] =>
              let H := fresh "Heq" in
              destruct (Qeq_bool x y) eqn:H;
              [apply Qeq_bool_iff in H | apply Qeq_bool_neq in H]
          | |- context [Qle_bool ?x ?y] =>
              let H := fresh "Hle" in
              destruct (Qle_bool x y) eqn:H;
              [apply Qle_bool_iff in H | apply Qle_bool_false in H]
          end);
  cbn [fst snd negb andb] in *.

Lemma BUILTIN_multipliers_values :
  (BUILTIN_minMultiplier == 85 # 100)%Q /\ (BUILTIN_maxMultiplier == 135 # 100)%Q.
Proof. split; reflexivity. Qed.

(** Case analysis on the doubles a loader receives and on the tests it
    makes on them. *)
Ltac double_cases :=
  repeat match goal with
         | d : double |- _ => destruct d as [|[|]|?]
         end;
  cbv [double_or double_gt double_lt double_max double_floor double_abs finite_or_NaN
       double_of_num or_default];
  q_cases;
  cbv [double_le double_eq double_lt].

Lemma normalize_multipliers_ordered a b :
  (fst (normalize_multipliers a b) <= snd (normalize_multipliers a b))%Q.
Proof.
  destruct BUILTIN_multipliers_values as [Hmin Hmax].
  unfold normalize_multipliers, or_default.
  destruct a as [|p], b as [|q]; q_cases; lra.
Qed.

Lemma normalize_multipliers_compact_ordered a b :
  double_le (fst (normalize_multipliers_compact a b))
            (snd (normalize_multipliers_compact a b)).
Proof.
  destruct BUILTIN_multipliers_values as [Hmin Hmax].
  unfold normalize_multipliers_compact. double_cases; try exact I; lra.
Qed.

Lemma normalize_multipliers_compact_nonzero a b :
  ~ double_eq (fst (normalize_multipliers_compact a b)) (DFin 0) /\
  ~ double_eq (snd (normalize_multipliers_compact a b)) (DFin 0).
Proof.
  destruct BUILTIN_multipliers_values as [Hmin Hmax].
  unfold normalize_multipliers_compact. double_cases; split; try tauto; lra.
Qed.

Lemma normalize_multipliers_same p q :
  ~ (p == 0)%Q -> ~ (q == 0)%Q ->
  normalize_multipliers_compact (DFin p) (DFin q)
  = (DFin (fst (normalize_multipliers_double (DFin p) (DFin q))),
     DFin (snd (normalize_multipliers_double (DFin p) (DFin q)))).
Proof.
  intros Hp Hq.
  unfold normalize_multipliers_compact, normalize_multipliers_double, normalize_multipliers,
    double_or, finite_or_NaN, or_default, double_gt, double_lt.
  destruct (Qeq_bool p 0) eqn:Ep; [apply Qeq_bool_iff in Ep; contradiction|].
  destruct (Qeq_bool q 0) eqn:Eq; [apply Qeq_bool_iff in Eq; contradiction|].
  destruct (Qle_bool p q); reflexivity.
Qed.

Lemma normalize_multipliers_compact_infinite a b s :
  a = DInf s \/ b = DInf s ->
  fst (normalize_multipliers_compact a b) = DInf s \/
  snd (normalize_multipliers_compact a b) = DInf s.
Proof.
  unfold normalize_multipliers_compact.
  intros [-> | ->]; destruct s; double_cases; auto.
Qed.

Lemma normalize_absolutes_double_bounds a b :
  double_le (DFin 0) (fst (normalize_absolutes_double a b)) /\
  double_le (DFin 0) (snd (normalize_absolutes_double a b)) /\
  (double_gt (snd (normalize_absolutes_double a b)) (DFin 0) = true ->
   double_le (fst (normalize_absolutes_double a b)) (snd (normalize_absolutes_double a b))).
Proof.
  unfold normalize_absolutes_double.
  double_cases; (split; [|split; [|intros Hpos]]); try exact I; try discriminate; lra.
Qed.

Lemma normalize_absolutes_same a b :
  double_eq (fst (normalize_absolutes_compact a b)) (fst (normalize_absolutes_double a b)) /\
  double_eq (snd (normalize_absolutes_compact a b)) (snd (normalize_absolutes_double a b)).
Proof.
  unfold normalize_absolutes_compact, normalize_absolutes_double.
  double_cases; split; try reflexivity; lra.
Qed.

Lemma normalize_absolutes_finite x y :
  double_eq (fst (normalize_absolutes_double (double_of_num x) (double_of_num y)))
            (DFin (fst (normalize_absolutes x y))) /\
  double_eq (snd (normalize_absolutes_double (double_of_num x) (double_of_num y)))
            (DFin (snd (normalize_absolutes x y))).
Proof.
  unfold normalize_absolutes_double, normalize_absolutes.
  destruct x as [|p], y as [|q]; double_cases; split; lra.
Qed.

(** X14. Whatever [Number] makes of the merged fields - a finite number,
    an infinity or [NaN] - the verbose loader delivers finite multipliers
    with [minMultiplier <= maxMultiplier], and both loaders deliver
    absolute bounds that are not negative and are ordered whenever the
    upper one is set.  The compact loader delivers ordered multipliers
    too, never [NaN] and never zero (zero is replaced by the default, as
    [NaN] is, where the verbose loader passes zero on), but it keeps an
    infinity, which the verbose loader replaces by the default.  On finite
    multipliers other than zero the two loaders agree, and on the absolute
    bounds they always do. *)
Theorem X14_loader_numeric_fields (a b : double) :
  (fst (normalize_multipliers_double a b) <= snd (normalize_multipliers_double a b))%Q /\
  (double_le (fst (normalize_multipliers_compact a b))
             (snd (normalize_multipliers_compact a b)) /\
   ~ double_eq (fst (normalize_multipliers_compact a b)) (DFin 0) /\
   ~ double_eq (snd (normalize_multipliers_compact a b)) (DFin 0)) /\
  (forall q, (0 <= q)%Q -> normalize_multipliers_double (DFin 0) (DFin q) = (0%Q, q)) /\
  (forall p q, a = DFin p -> b = DFin q -> ~ (p == 0)%Q -> ~ (q == 0)%Q ->
     normalize_multipliers_compact a b
     = (DFin (fst (normalize_multipliers_double a b)),
        DFin (snd (normalize_multipliers_double a b)))) /\
  (forall s, a = DInf s \/ b = DInf s ->
     fst (normalize_multipliers_compact a b) = DInf s \/
     snd (normalize_multipliers_compact a b) = DInf s) /\
  (double_le (DFin 0) (fst (normalize_absolutes_double a b)) /\
   double_le (DFin 0) (snd (normalize_absolutes_double a b)) /\
   (double_gt (snd (normalize_absolutes_double a b)) (DFin 0) = true ->
    double_le (fst (normalize_absolutes_double a b))
              (snd (normalize_absolutes_double a b)))) /\
  (double_eq (fst (normalize_absolutes_compact a b)) (fst (normalize_absolutes_double a b)) /\
   double_eq (snd (normalize_absolutes_compact a b))
             (snd (normalize_absolutes_double a b))) /\
  (forall x y,
     double_eq (fst (normalize_absolutes_double (double_of_num x) (double_of_num y)))
               (DFin (fst (normalize_absolutes x y))) /\
     double_eq (snd (normalize_absolutes_double (double_of_num x) (double_of_num y)))
               (DFin (snd (normalize_absolutes x y)))).
Proof.
  split; [apply normalize_multipliers_ordered|].
  split; [split; [apply normalize_multipliers_compact_ordered
                 |apply normalize_multipliers_compact_nonzero]|].
  split.
  { intros q Hq. unfold normalize_multipliers_double, normalize_multipliers, finite_or_NaN,
      or_default. apply Qle_bool_iff in Hq. rewrite Hq. reflexivity. }
  split; [intros p q -> -> Hp Hq; apply normalize_multipliers_same; assumption|].
  split; [intros s; apply normalize_multipliers_compact_infinite|].
  split; [apply normalize_absolutes_double_bounds|].
  split; [apply normalize_absolutes_same|].
  apply normalize_absolutes_finite.
Qed.

(** *** The interval *)

Lemma Qfloor_zero x : Qfloor x = 0 <-> (0 <= x < 1)%Q.
Proof.
  destruct (Qfloor_bounds x) as [Hlo Hhi]. split.
  - intros E. rewrite E in Hlo, Hhi. change (inject_Z 0) with 0%Q in *. lra.
  - intros [H0 H1].
    assert (Hge : 0 <= Qfloor x) by (apply Qfloor_nonneg; exact H0).
    assert (Hlt : Qfloor x < 1).
    { rewrite Zlt_Qlt. change (inject_Z 1) with 1%Q. lra. }
    lia.
Qed.

Lemma normalize_intervalSeconds_compact_Num q :
  ~ (q == 0)%Q ->
  normalize_intervalSeconds_compact (DFin q) = DFin (inject_Z (Z.abs (Qfloor q))).
Proof.
  intros H. unfold normalize_intervalSeconds_compact, double_or.
  destruct (Qeq_bool q 0) eqn:E; [apply Qeq_bool_iff in E; contradiction|].
  reflexivity.
Qed.

Lemma normalize_intervalSeconds_compact_default raw :
  raw = DNaN \/ (exists q, raw = DFin q /\ (q == 0)%Q) ->
  normalize_intervalSeconds_compact raw = DFin (inject_Z 3600).
Proof.
  intros [->|(q & -> & H)]; unfold normalize_intervalSeconds_compact, double_or.
  - reflexivity.
  - apply Qeq_bool_iff in H. rewrite H. reflexivity.
Qed.

Lemma normalize_intervalSeconds_compact_infinite s :
  normalize_intervalSeconds_compact (DInf s) = DInf false.
Proof. reflexivity. Qed.

Lemma DFin_inject_Z_inj z z' : DFin (inject_Z z) = DFin (inject_Z z') -> z = z'.
Proof. intros H. inversion H. reflexivity. Qed.

(** X15. The interval, for every value [Number] makes of the merged field.
    The verbose loader delivers an integer that is not negative: the floor
    of the absolute value of a finite number, which is 0 exactly for the
    numbers of absolute value below 1 and switches the periodic runs off,
    and 3600 for an infinity and for [NaN].  The compact loader takes the
    absolute value of the floor and replaces zero and [NaN] by 3600: it
    delivers a non-negative integer for a finite number and for [NaN], 0
    exactly for the numbers strictly between 0 and 1, and [Infinity] for
    an infinity.  On positive finite numbers the two agree; on a negative
    finite number the verbose loader rounds the absolute value down and the
    compact loader rounds it up. *)
Theorem X15_loader_interval (raw : double) :
  (0 <= normalize_intervalSeconds (finite_or_NaN raw) /\
   (normalize_intervalSeconds (finite_or_NaN raw) = 0 <->
    exists q, raw = DFin q /\ (Qabs q < 1)%Q)) /\
  ((exists z, 0 <= z /\ normalize_intervalSeconds_compact raw = DFin (inject_Z z)) \/
   normalize_intervalSeconds_compact raw = DInf false) /\
  (normalize_intervalSeconds_compact raw = DFin (inject_Z 0) <->
   exists q, raw = DFin q /\ (0 < q < 1)%Q) /\
  (forall q, raw = DFin q -> (0 < q)%Q ->
     normalize_intervalSeconds_compact raw
     = DFin (inject_Z (normalize_intervalSeconds (finite_or_NaN raw)))) /\
  (forall q, raw = DFin q -> (q < 0)%Q ->
     normalize_intervalSeconds (finite_or_NaN raw) = Qfloor (- q) /\
     normalize_intervalSeconds_compact raw = DFin (inject_Z (Qceiling (- q)))) /\
  (forall s, raw = DInf s ->
     normalize_intervalSeconds (finite_or_NaN raw) = 3600 /\
     normalize_intervalSeconds_compact raw = DInf false).
Proof.
  split; [split|split; [|split; [|split; [|split]]]].
  - destruct raw as [|s|q]; cbn [finite_or_NaN normalize_intervalSeconds];
      try (unfold BUILTIN_intervalSeconds; lia).
    apply Qfloor_nonneg, Qabs_nonneg.
  - destruct raw as [|s|q]; cbn [finite_or_NaN normalize_intervalSeconds].
    + split; [discriminate|]. intros (q & H & _). discriminate.
    + split; [discriminate|]. intros (q & H & _). discriminate.
    + rewrite Qfloor_zero. pose proof (Qabs_nonneg q). split.
      * intros [_ H1]. exists q. split; [reflexivity|exact H1].
      * intros (q' & E & H1). inversion E. subst. split; assumption.
  - destruct raw as [|s|q].
    + left. exists 3600. split; [lia|]. apply normalize_intervalSeconds_compact_default. auto.
    + right. reflexivity.
    + left. destruct (Qeq_bool q 0) eqn:E.
      * apply Qeq_bool_iff in E. exists 3600. split; [lia|].
        apply normalize_intervalSeconds_compact_default. right. eauto.
      * apply Qeq_bool_neq in E. exists (Z.abs (Qfloor q)). split; [apply Z.abs_nonneg|].
        apply normalize_intervalSeconds_compact_Num, E.
  - destruct raw as [|s|q].
    + rewrite normalize_intervalSeconds_compact_default by (left; reflexivity).
      split; [discriminate|]. intros (q & H & _). discriminate.
    + split; [discriminate|]. intros (q & H & _). discriminate.
    + destruct (Qeq_bool q 0) eqn:E.
      * apply Qeq_bool_iff in E.
        rewrite normalize_intervalSeconds_compact_default by (right; eauto).
        split; [discriminate|]. intros (q' & Eq & H1). inversion Eq. subst. lra.
      * apply Qeq_bool_neq in E. rewrite normalize_intervalSeconds_compact_Num by exact E.
        split.
        -- intros H. apply DFin_inject_Z_inj in H.
           apply Z.abs_0_iff, Qfloor_zero in H. exists q. split; [reflexivity|]. lra.
        -- intros (q' & Eq & H1). inversion Eq. subst. f_equal. f_equal.
           apply Z.abs_0_iff, Qfloor_zero. lra.
  - intros q -> Hq. rewrite normalize_intervalSeconds_compact_Num by lra.
    cbn [finite_or_NaN normalize_intervalSeconds]. f_equal. f_equal.
    rewrite (Qabs_pos q) by lra.
    apply Z.abs_eq, Qfloor_nonneg. lra.
  - intros q -> Hq. split.
    + cbn [finite_or_NaN normalize_intervalSeconds]. rewrite (Qabs_neg q) by lra. reflexivity.
    + rewrite normalize_intervalSeconds_compact_Num by lra. f_equal. f_equal.
      unfold Qceiling. rewrite (Qopp_involutive q).
      apply Z.abs_neq.
      assert (H : Qfloor q < 0); [|lia].
      rewrite Zlt_Qlt. change (inject_Z 0) with 0%Q.
      pose proof (Qfloor_le q). lra.
  - intros s ->. split; reflexivity.
Qed.

(** The rounding modes the loaders deliver are among the three names. *)
Lemma normalize_rounding_valid raw :
  In (normalize_rounding raw) ["nearest"; "floor"; "ceil"]%string.
Proof.
  unfold normalize_rounding. destruct raw as [s|]; [|left; reflexivity].
  destruct (includes _ s) eqn:E; [|left; reflexivity].
  unfold includes in E. apply existsb_exists in E. destruct E as (x & Hin & Hx).
  apply String.eqb_eq in Hx. subst. exact Hin.
Qed.


(** ** The loader: the trader identifiers *)

Lemma set_add_cases x s :
  (In x s /\ set_add x s = s) \/ (~ In x s /\ set_add x s = s ++ [x]).
Proof.
  unfold set_add. destruct (existsb (String.eqb x) s) eqn:E.
  - left. split; [|reflexivity].
    apply existsb_exists in E. destruct E as (y & Hin & Hy).
    apply String.eqb_eq in Hy. subst. exact Hin.
  - right. split; [|reflexivity].
    intros Hin. assert (existsb (String.eqb x) s = true); [|congruence].
    apply existsb_exists. exists x. split; [exact Hin|apply String.eqb_refl].
Qed.

(** The set built from [l] on top of [acc]: [acc] followed by a duplicate
    free sublist of [l] that holds what [l] adds to [acc]. *)
Lemma Set_of_from l : forall acc,
  NoDup acc ->
  exists l',
    fold_left (fun s x => set_add x s) l acc = acc ++ l' /\
    sublist l' l /\ NoDup (acc ++ l') /\
    (forall x, In x (acc ++ l') <-> In x acc \/ In x l).
Proof.
  induction l as [|a l IH]; intros acc Hnd.
  - exists []. rewrite app_nil_r.
    split; [reflexivity|]. split; [constructor|]. split; [exact Hnd|].
    intros x. cbn [In]. tauto.
  - cbn [fold_left]. destruct (set_add_cases a acc) as [[Hin ->]|[Hnin ->]].
    + destruct (IH acc Hnd) as (l' & E & Hsub & Hnd' & Hel).
      exists l'. split; [exact E|]. split; [apply sublist_cons; exact Hsub|].
      split; [exact Hnd'|].
      intros x. rewrite Hel. cbn [In]. split; [tauto|].
      intros [H|[<-|H]]; auto.
    + assert (Hnd1 : NoDup (acc ++ [a])).
      { apply NoDup_app. split; [exact Hnd|]. split; [|apply NoDup_singleton].
        intros x Hx Hx'. apply list_elem_of_In in Hx, Hx'.
        destruct Hx' as [<-|[]]. contradiction. }
      destruct (IH (acc ++ [a]) Hnd1) as (l' & E & Hsub & Hnd' & Hel).
      exists (a :: l'). rewrite E, <- app_assoc. cbn [app].
      rewrite <- app_assoc in Hnd'. cbn [app] in Hnd'.
      split; [reflexivity|]. split; [apply sublist_skip; exact Hsub|].
      split; [exact Hnd'|].
      intros x. specialize (Hel x). rewrite <- app_assoc in Hel. cbn [app] in Hel.
      rewrite Hel, in_app_iff. cbn [In]. tauto.
Qed.

Lemma Set_of_NoDup_from l : forall acc,
  NoDup (acc ++ l) -> fold_left (fun s x => set_add x s) l acc = acc ++ l.
Proof.
  induction l as [|a l IH]; intros acc Hnd; cbn [fold_left].
  - rewrite app_nil_r. reflexivity.
  - destruct (set_add_cases a acc) as [[Hin _]|[_ ->]].
    + exfalso. apply NoDup_app in Hnd. destruct Hnd as (_ & Hdis & _).
      apply (Hdis a); apply list_elem_of_In; [exact Hin|left; reflexivity].
    + rewrite IH; rewrite <- app_assoc; [reflexivity|exact Hnd].
Qed.

Lemma filter_all {X : Type} (p : X -> bool) l :
  (forall x, In x l -> p x = true) -> List.filter p l = l.
Proof.
  induction l as [|a l IH]; intros H; [reflexivity|]. cbn [List.filter].
  rewrite (H a (or_introl eq_refl)). f_equal. apply IH.
  intros x Hx. apply H. right. exact Hx.
Qed.

Lemma sublist_filter {X : Type} (p : X -> bool) l : sublist (List.filter p l) l.
Proof.
  induction l as [|a l IH]; [constructor|]. cbn [List.filter].
  destruct (p a); [apply sublist_skip|apply sublist_cons]; exact IH.
Qed.

(** X16. The trader identifiers both loaders deliver: no identifier occurs
    twice, none is empty, the identifiers are exactly the non-empty strings
    the array elements convert to, they come in the order of the array, and
    normalising the outcome again changes nothing.  A value that is no
    array gives the empty list. *)
Theorem X16_trader_ids_normalised (A : Type) (String_of : A -> string)
  (raw : option (list A)) :
  let ids := normalize_traderIds A String_of raw in
  NoDup ids /\
  (forall s, In s ids <->
             s <> ""%string /\ exists l, raw = Some l /\ In s (map String_of l)) /\
  sublist ids (map String_of (default [] raw)) /\
  normalize_traderIds string (fun s => s) (Some ids) = ids /\
  (raw = None -> ids = []).
Proof.
  cbn zeta. unfold normalize_traderIds, Set_of.
  set (arr := match raw with Some l => l | None => [] end).
  set (strs := List.filter (fun id => negb (String.eqb id "")) (map String_of arr)).
  destruct (Set_of_from strs [] (NoDup_nil_2 : NoDup (@nil string)))
    as (l' & E & Hsub & Hnd & Hel).
  cbn [app] in *. rewrite E.
  assert (Hmem : forall s, In s l' <->
                 s <> ""%string /\ exists l, raw = Some l /\ In s (map String_of l)).
  { intros s. rewrite Hel. unfold strs. rewrite filter_In. split.
    - intros [[]|[Hin Hne]]. split.
      + intros ->. discriminate.
      + destruct raw as [l|]; [|destruct Hin]. exists l. split; [reflexivity|exact Hin].
    - intros (Hne & l & -> & Hin). right. split; [exact Hin|].
      destruct (String.eqb s "") eqn:Es; [|reflexivity].
      apply String.eqb_eq in Es. contradiction. }
  split; [exact Hnd|]. split; [exact Hmem|]. split; [|split].
  - etransitivity; [exact Hsub|]. unfold strs.
    replace (default [] raw) with arr by (destruct raw; reflexivity).
    apply sublist_filter.
  - rewrite map_id, filter_all.
    + apply (Set_of_NoDup_from l' []). exact Hnd.
    + intros x Hx. apply Hmem in Hx. destruct Hx as [Hne _].
      destruct (String.eqb x "") eqn:Es; [|reflexivity].
      apply String.eqb_eq in Es. contradiction.
  - intros ->. unfold strs, arr in E. cbn in E. symmetry. exact E.
Qed.


(** ** The loader: the search for the configuration files *)

Section FileSearchFacts.

Variable path_join : string -> string -> string.
Variable path_dirname : string -> string.
Variable fs_existsSync : string -> bool.
Variable process_cwd : string.

Lemma try_filenames_spec currentDir filenames : forall tried,
  exists new,
    snd (try_filenames path_join fs_existsSync currentDir filenames tried) = tried ++ new /\
    (length new <= length filenames)%nat /\
    Forall (fun q => exists n, In n filenames /\ q = path_join currentDir n) new /\
    search_outcome fs_existsSync
      (fst (try_filenames path_join fs_existsSync currentDir filenames tried)) new.
Proof.
  induction filenames as [|n rest IH]; intros tried; cbn [try_filenames].
  - exists []. rewrite app_nil_r. cbn. repeat constructor.
  - destruct (fs_existsSync (path_join currentDir n)) eqn:E.
    + exists [path_join currentDir n]. cbn [fst snd length].
      split; [reflexivity|]. split; [lia|]. split.
      * constructor; [|constructor]. exists n. split; [left|]; reflexivity.
      * split; [exact E|]. exists []. split; [reflexivity|constructor].
    + destruct (IH (tried ++ [path_join currentDir n])) as (new & Hs & Hlen & Hall & Hout).
      exists (path_join currentDir n :: new).
      rewrite Hs, <- app_assoc. cbn [app length].
      split; [reflexivity|]. split; [lia|]. split.
      * constructor.
        -- exists n. split; [left|]; reflexivity.
        -- eapply Forall_impl; [exact Hall|].
           intros q (m & Hm & ->). exists m. split; [right; exact Hm|reflexivity].
      * unfold search_outcome in *.
        destruct (fst (try_filenames path_join fs_existsSync currentDir rest
                         (tried ++ [path_join currentDir n]))) as [p|].
        -- destruct Hout as (Hp & before & -> & Hb). split; [exact Hp|].
           exists (path_join currentDir n :: before).
           split; [reflexivity|]. constructor; assumption.
        -- constructor; assumption.
Qed.

Lemma ancestor_parent k dir :
  ancestor path_dirname k (path_dirname dir) = ancestor path_dirname (S k) dir.
Proof. unfold ancestor. rewrite Nat.iter_succ_r. reflexivity. Qed.

Lemma search_upward_spec filenames levels : forall currentDir tried,
  exists new,
    snd (search_upward path_join path_dirname fs_existsSync levels currentDir filenames
           tried) = tried ++ new /\
    (length new <= levels * length filenames)%nat /\
    Forall (fun q => exists k n, (k < levels)%nat /\ In n filenames /\
                                 q = path_join (ancestor path_dirname k currentDir) n) new /\
    search_outcome fs_existsSync
      (fst (search_upward path_join path_dirname fs_existsSync levels currentDir filenames
              tried)) new.
Proof.
  induction levels as [|levels IH]; intros currentDir tried; cbn [search_upward].
  - exists []. rewrite app_nil_r. cbn. repeat constructor.
  - destruct (try_filenames_spec currentDir filenames tried)
      as (new & Hs & Hlen & Hall & Hout).
    destruct (try_filenames path_join fs_existsSync currentDir filenames tried)
      as [[p|] tried1] eqn:Et; cbn [fst snd] in Hs, Hout; subst tried1.
    + exists new. cbn [fst snd]. split; [reflexivity|]. split; [lia|]. split; [|exact Hout].
      eapply Forall_impl; [exact Hall|].
      intros q (n & Hn & ->). exists O, n. split; [lia|]. split; [exact Hn|reflexivity].
    + assert (Hall0 : Forall (fun q => exists k n, (k < S levels)%nat /\ In n filenames /\
                                q = path_join (ancestor path_dirname k currentDir) n) new).
      { eapply Forall_impl; [exact Hall|].
        intros q (n & Hn & ->). exists O, n. split; [lia|]. split; [exact Hn|reflexivity]. }
      destruct (String.eqb (path_dirname currentDir) ""
                || String.eqb (path_dirname currentDir) currentDir).
      * exists new. cbn [fst snd]. split; [reflexivity|]. split; [lia|].
        split; [exact Hall0|exact Hout].
      * destruct (IH (path_dirname currentDir) (tried ++ new))
          as (new' & Hs' & Hlen' & Hall' & Hout').
        exists (new ++ new'). rewrite Hs', <- app_assoc.
        split; [reflexivity|]. split; [rewrite length_app; lia|]. split.
        -- apply Forall_app. split; [exact Hall0|].
           eapply Forall_impl; [exact Hall'|].
           intros q (k & n & Hk & Hn & ->). exists (S k), n.
           split; [lia|]. split; [exact Hn|]. rewrite ancestor_parent. reflexivity.
        -- unfold search_outcome in *. cbn [search_outcome] in Hout.
           destruct (fst (search_upward path_join path_dirname fs_existsSync levels
                            (path_dirname currentDir) filenames (tried ++ new))) as [p|].
           ++ destruct Hout' as (Hp & before & -> & Hb). split; [exact Hp|].
              exists (new ++ before). rewrite app_assoc. split; [reflexivity|].
              apply Forall_app. split; assumption.
           ++ apply Forall_app. split; assumption.
Qed.

End FileSearchFacts.

(** X17. The search for a configuration file, in both loaders: the path
    found exists, it is the last path tried and no path tried before it
    exists; when nothing is found no path tried exists.  Every path tried
    joins one of the file names to the starting directory or to one of its
    first [maxDepth] ancestors, so at most [(maxDepth + 1) * filenames.length]
    paths are tried and a search of depth 0 does not leave the starting
    directory.  An empty starting directory stands for the working
    directory. *)
Theorem X17_config_file_search (path_join : string -> string -> string)
  (path_dirname : string -> string) (fs_existsSync : string -> bool) (cwd : string)
  (startDir : string) (filenames : list string) (maxDepth : nat) :
  let start := if String.eqb startDir "" then cwd else startDir in
  let r := findConfigFile path_join path_dirname fs_existsSync cwd startDir filenames
             maxDepth in
  searchDirectoryTreeUpward path_join path_dirname fs_existsSync cwd startDir filenames
    maxDepth = r /\
  (length (snd r) <= S maxDepth * length filenames)%nat /\
  Forall (fun q => exists k n, (k <= maxDepth)%nat /\ In n filenames /\
                               q = path_join (ancestor path_dirname k start) n) (snd r) /\
  match fst r with
  | Some p =>
      fs_existsSync p = true /\
      exists before, snd r = before ++ [p] /\ Forall (fun q => fs_existsSync q = false) before
  | None => Forall (fun q => fs_existsSync q = false) (snd r)
  end.
Proof.
  cbn zeta. split; [reflexivity|]. unfold findConfigFile.
  destruct (search_upward_spec path_join path_dirname fs_existsSync filenames (S maxDepth)
              (if String.eqb startDir "" then cwd else startDir) [])
    as (new & Hs & Hlen & Hall & Hout).
  cbn [app] in Hs. rewrite Hs. split; [exact Hlen|]. split.
  - eapply Forall_impl; [exact Hall|].
    intros q (k & n & Hk & Hn & ->). exists k, n. split; [lia|]. split; [exact Hn|reflexivity].
  - exact Hout.
Qed.


(** ** The loader: the seed *)

(** A string the seed pattern accepts starts with a backslash, so
    [parseInt] finds no digit in it. *)
Lemma seed_pattern_not_a_number s : seed_pattern_test s = true -> parseInt10 s = NaN.
Proof.
  destruct s as [|c [|c' rest]]; try discriminate.
  unfold seed_pattern_test.
  destruct c' as [[] [] [] [] [] [] [] []]; try discriminate.
  destruct (Ascii.eqb c "\") eqn:Ec; [|discriminate].
  apply Ascii.eqb_eq in Ec. subst c. intros _. reflexivity.
Qed.

(** A string of decimal digits is not accepted by the seed pattern. *)
Lemma digits_fail_seed_pattern s z :
  decimal_digits s 0 = Some z -> seed_pattern_test s = false.
Proof.
  destruct s as [|c [|c' rest]]; try reflexivity.
  unfold seed_pattern_test. cbn [decimal_digits].
  destruct (Ascii.eqb c "\") eqn:Ec.
  - apply Ascii.eqb_eq in Ec. subst c. discriminate.
  - intros _. destruct c' as [[] [] [] [] [] [] [] []]; reflexivity.
Qed.

Lemma floor_abs_integer q :
  exists z, 0 <= z /\ Math_floor (Num (Qabs q)) = Num (inject_Z z).
Proof.
  exists (Qfloor (Qabs q)). split; [|reflexivity]. apply Qfloor_nonneg, Qabs_nonneg.
Qed.

(** X18. The seed.  Both loaders derive the seed when none is configured
    and turn a configured number into the floor of its absolute value.  On
    a configured string they differ: the compact loader converts it with
    [Number] and uses the floor of the absolute value whenever that is a
    number; the verbose loader never reads a number out of a string - its
    pattern asks for a backslash followed by letters [d], so a string of
    digits is rejected and the seed derived, and a string the pattern
    accepts gives [NaN], which seeds the generator with 0. *)
Theorem X18_seed_normalisation (N : string -> num) (derived : Z) :
  (normalize_seed derived VNull = (Num (inject_Z derived), true) /\
   normalize_seed_compact N derived VNull = (Num (inject_Z derived), true)) /\
  (forall q,
     normalize_seed_compact N derived (VNumber (Num q)) = normalize_seed derived (VNumber (Num q)) /\
     snd (normalize_seed derived (VNumber (Num q))) = false /\
     exists z, 0 <= z /\ fst (normalize_seed derived (VNumber (Num q))) = Num (inject_Z z)) /\
  (forall s q, N s = Num q ->
     normalize_seed_compact N derived (VString s)
     = (Num (inject_Z (Qfloor (Qabs q))), false)) /\
  (forall s,
     normalize_seed derived (VString s) = (Num (inject_Z derived), true) \/
     (normalize_seed derived (VString s) = (NaN, false) /\
      seed_argument (fst (normalize_seed derived (VString s))) = 0)) /\
  (forall s z, decimal_digits s 0 = Some z ->
     normalize_seed derived (VString s) = (Num (inject_Z derived), true)).
Proof.
  split; [split; reflexivity|]. split; [|split; [|split]].
  - intros q. split; [reflexivity|]. split; [reflexivity|].
    cbn [normalize_seed fst]. apply floor_abs_integer.
  - intros s q H. unfold normalize_seed_compact. cbn [ToNumber]. rewrite H. reflexivity.
  - intros s. cbn [normalize_seed]. destruct (seed_pattern_test s) eqn:E.
    + right. rewrite (seed_pattern_not_a_number s E). split; reflexivity.
    + left. reflexivity.
  - intros s z H. cbn [normalize_seed]. rewrite (digits_fail_seed_pattern s z H).
    reflexivity.
Qed.

(** ** [clampNumberWithinBounds] *)

(** X19. [clampNumberWithinBounds]: without bounds the value is returned
    as it is; an upper bound that is a positive number is never exceeded;
    the lower bound is respected when it does not exceed the upper one (the
    upper bound wins otherwise); a value between the bounds is returned
    unchanged; an upper bound that is not positive is ignored; [NaN] stays
    [NaN]. *)
Theorem X19_clamp_within_bounds (x lo hi : Q) :
  clampNumberWithinBounds (Num x) None None = Num x /\
  ((0 < hi)%Q ->
   exists r, clampNumberWithinBounds (Num x) (Some (Num lo)) (Some (Num hi)) = Num r /\
             (r <= hi)%Q /\ ((lo <= hi)%Q -> (lo <= r)%Q) /\
             ((hi < lo)%Q -> (r == hi)%Q) /\
             ((lo <= x <= hi)%Q -> (r == x)%Q)) /\
  ((hi <= 0)%Q ->
   clampNumberWithinBounds (Num x) (Some (Num lo)) (Some (Num hi))
   = clampNumberWithinBounds (Num x) (Some (Num lo)) None) /\
  (forall l h, clampNumberWithinBounds NaN l h = NaN).
Proof.
  split; [reflexivity|]. split; [|split].
  - intros Hhi. unfold clampNumberWithinBounds, num_gt, Math_max, Math_min.
    destruct (Qle_bool hi 0) eqn:E0; [apply Qle_bool_iff in E0; lra|]. cbn [negb].
    destruct (Qle_bool x lo) eqn:E1;
      [apply Qle_bool_iff in E1|apply Qle_bool_false in E1];
      (eexists; split; [reflexivity|]); q_cases;
      (split; [|split; [|split]]); intros; lra.
  - intros Hhi. unfold clampNumberWithinBounds, num_gt.
    apply Qle_bool_iff in Hhi. rewrite Hhi. reflexivity.
  - intros l h. unfold clampNumberWithinBounds.
    destruct l as [l|], h as [h|]; cbn [Math_max]; try reflexivity;
      destruct (num_gt h (Num 0)); reflexivity.
Qed.


(** ** Scheduling *)

Lemma clear_existing_timer_ok tm :
  timers_ok tm ->
  intervalTimer (clear_existing_timer tm) = None /\
  armed (clear_existing_timer tm) = [] /\
  next_handle (clear_existing_timer tm) = next_handle tm.
Proof.
  unfold timers_ok, clear_existing_timer. destruct tm as [[h|] arm nx]; cbn.
  - destruct arm as [|[h' d] [|]]; cbn; try discriminate.
    intros H. inversion H. subst. rewrite Nat.eqb_refl. cbn. auto.
  - destruct arm; [auto|discriminate].
Qed.

Lemma timers_ok_scheduled cfg tm :
  intervalTimer tm = None -> armed tm = [] ->
  forall tm',
    tm' = (if 0 <? intervalSeconds cfg
           then with_intervalTimer (Some (next_handle tm))
                  (snd (setInterval (intervalSeconds cfg * 1000) tm))
           else tm) ->
    timers_ok tm' /\ armed tm' = scheduled cfg (next_handle tm).
Proof.
  intros Hs Ha tm' ->. unfold scheduled, timers_ok.
  destruct (0 <? intervalSeconds cfg); cbn; rewrite ?Ha, ?Hs; auto.
Qed.

Section SchedulingFacts.

Variable Number_of_string : string -> num.
Variable cfg : config.

Lemma _schedule_callback_never_throws :
  never_throws (_schedule_callback Number_of_string cfg).
Proof. unfold _schedule_callback. total. Qed.

Lemma _schedulePeriodicRandomization_callback_never_throws :
  never_throws (_schedulePeriodicRandomization_callback Number_of_string cfg).
Proof. unfold _schedulePeriodicRandomization_callback. total. Qed.

Lemma _schedule_spec tm st r st' tm' :
  timers_ok tm ->
  _schedule Number_of_string cfg tm st = (r, st', tm') ->
  timers_ok tm' /\
  match r with
  | Ok _ => armed tm' = scheduled cfg (next_handle tm)
  | Throw e =>
      armed tm' = [] /\ intervalTimer tm' = None /\
      _runCycle Number_of_string cfg st = (Throw e, st')
  end.
Proof.
  intros Hok. destruct (clear_existing_timer_ok tm Hok) as (Hs & Ha & Hn).
  unfold _schedule.
  destruct (_runCycle Number_of_string cfg st) as [[[]|e] st1].
  - destruct (timers_ok_scheduled cfg (clear_existing_timer tm) Hs Ha _ eq_refl)
      as [H1 H2].
    rewrite Hn in H2.
    destruct (0 <? intervalSeconds cfg); cbn [setInterval snd] in *;
      intros E; inversion E; subst; split; assumption.
  - intros E. inversion E. subst. split; [|auto].
    unfold timers_ok. rewrite Hs, Ha. reflexivity.
Qed.

Lemma _schedulePeriodicRandomization_spec tm st :
  timers_ok tm ->
  exists st' tm',
    _schedulePeriodicRandomization Number_of_string cfg tm st = (Ok tt, st', tm') /\
    timers_ok tm' /\ armed tm' = scheduled cfg (next_handle tm).
Proof.
  intros Hok. destruct (clear_existing_timer_ok tm Hok) as (Hs & Ha & Hn).
  unfold _schedulePeriodicRandomization.
  destruct (_executeOneRandomizationCycle_never_throws Number_of_string cfg st)
    as ([] & st1 & ->).
  destruct (timers_ok_scheduled cfg (clear_existing_timer tm) Hs Ha _ eq_refl)
    as [H1 H2].
  rewrite Hn in H2.
  replace (negb (intervalSeconds cfg =? 0) && (0 <? intervalSeconds cfg))
    with (0 <? intervalSeconds cfg)
    by (destruct (Z.eqb_spec (intervalSeconds cfg) 0), (Z.ltb_spec 0 (intervalSeconds cfg));
        cbn; try reflexivity; lia).
  destruct (0 <? intervalSeconds cfg); cbn [setInterval snd] in *; eauto.
Qed.

Lemma scheduled_one_interval tm h :
  timers_ok tm -> armed tm = scheduled cfg h -> one_interval cfg tm.
Proof.
  intros Hok Ha. unfold one_interval. rewrite Ha. split; [exact Hok|].
  unfold scheduled. destruct (Z.ltb_spec 0 (intervalSeconds cfg)); cbn.
  - split; [lia|]. intros h' delay [E|[]]. inversion E. auto.
  - split; [lia|]. intros h' delay [].
Qed.

Lemma cleared_one_interval tm :
  timers_ok tm -> armed tm = [] -> one_interval cfg tm.
Proof.
  intros Hok Ha. unfold one_interval. rewrite Ha. cbn.
  split; [exact Hok|]. split; [lia|]. intros h delay [].
Qed.

Lemma postDBLoad_start_one_interval tm st :
  timers_ok tm -> one_interval cfg (snd (postDBLoad_start Number_of_string cfg tm st)).
Proof.
  intros Hok. unfold postDBLoad_start.
  destruct (_schedule Number_of_string cfg tm st) as [[r st'] tm'] eqn:E.
  destruct (_schedule_spec tm st r st' tm' Hok E) as [Hok' Hr].
  destruct r as [[]|e]; cbn [snd].
  - eapply scheduled_one_interval; eassumption.
  - apply cleared_one_interval; [exact Hok'|apply Hr].
Qed.

Lemma postDBLoad_start_verbose_one_interval tm st :
  timers_ok tm ->
  one_interval cfg (snd (postDBLoad_start_verbose Number_of_string cfg tm st)).
Proof.
  intros Hok. unfold postDBLoad_start_verbose.
  destruct (_schedulePeriodicRandomization_spec tm st Hok) as (st' & tm' & -> & Hok' & Ha).
  cbn [snd]. eapply scheduled_one_interval; eassumption.
Qed.

Lemma run_events_one_interval evs : forall w,
  one_interval cfg (snd w) ->
  one_interval cfg (snd (run_events Number_of_string cfg evs w)).
Proof.
  unfold run_events.
  induction evs as [|ev evs IH]; intros w Hw; [exact Hw|]. cbn [fold_left].
  apply IH. destruct ev as [st|]; cbn [run_event].
  - apply postDBLoad_start_one_interval, Hw.
  - destruct (armed (snd w)); exact Hw.
Qed.

Lemma run_events_verbose_one_interval evs : forall w,
  one_interval cfg (snd w) ->
  one_interval cfg (snd (run_events_verbose Number_of_string cfg evs w)).
Proof.
  unfold run_events_verbose.
  induction evs as [|ev evs IH]; intros w Hw; [exact Hw|]. cbn [fold_left].
  apply IH. destruct ev as [st|]; cbn [run_event_verbose].
  - apply postDBLoad_start_verbose_one_interval, Hw.
  - destruct (armed (snd w)); exact Hw.
Qed.

End SchedulingFacts.

(** X20. One call of the scheduler, on an engine whose timer slot agrees
    with the event loop.  The interval that was armed is cleared first.
    Compact rendering: when the first cycle returns, one interval of
    [intervalSeconds * 1000] ms is armed if [intervalSeconds > 0] and none
    otherwise; when the cycle throws, the scheduler throws the same error
    and leaves no interval armed.  Verbose rendering: the scheduler always
    returns, with the same intervals.  The callback given to [setInterval]
    never throws, in either rendering. *)
Theorem X20_schedule_arms_one_interval N cfg (tm : timers) (st : state) :
  timers_ok tm ->
  (forall r st' tm',
     _schedule N cfg tm st = (r, st', tm') ->
     timers_ok tm' /\
     match r with
     | Ok _ => armed tm' = scheduled cfg (next_handle tm)
     | Throw e =>
         armed tm' = [] /\ intervalTimer tm' = None /\
         _runCycle N cfg st = (Throw e, st')
     end) /\
  (exists st' tm',
     _schedulePeriodicRandomization N cfg tm st = (Ok tt, st', tm') /\
     timers_ok tm' /\ armed tm' = scheduled cfg (next_handle tm)) /\
  never_throws (_schedule_callback N cfg) /\
  never_throws (_schedulePeriodicRandomization_callback N cfg).
Proof.
  intros Hok. split; [|split; [|split]].
  - intros r st' tm' E. eapply _schedule_spec; eassumption.
  - apply _schedulePeriodicRandomization_spec. exact Hok.
  - apply _schedule_callback_never_throws.
  - apply _schedulePeriodicRandomization_callback_never_throws.
Qed.

(** X21. Whatever sequence of starts and interval firings the engine goes
    through after its construction, in either rendering: the timer slot
    holds the handle of the one armed interval or both are empty, never
    more than one interval is armed, an armed interval has the period
    [intervalSeconds * 1000] ms, and with [intervalSeconds <= 0] no
    interval is ever armed. *)
Theorem X21_never_two_intervals N cfg (evs : list event) (st : state) :
  one_interval cfg (snd (run_events N cfg evs (st, no_timers))) /\
  one_interval cfg (snd (run_events_verbose N cfg evs (st, no_timers))) /\
  (intervalSeconds cfg <= 0 ->
   armed (snd (run_events N cfg evs (st, no_timers))) = [] /\
   armed (snd (run_events_verbose N cfg evs (st, no_timers))) = []).
Proof.
  assert (H0 : one_interval cfg (snd (st, no_timers))).
  { apply cleared_one_interval; reflexivity. }
  pose proof (run_events_one_interval N cfg evs _ H0) as H1.
  pose proof (run_events_verbose_one_interval N cfg evs _ H0) as H2.
  split; [exact H1|]. split; [exact H2|].
  intros Hle. destruct H1 as (_ & _ & H1), H2 as (_ & _ & H2). split.
  - destruct (armed (snd (run_events N cfg evs (st, no_timers)))) as [|[h d] l];
      [reflexivity|].
    destruct (H1 h d (or_introl eq_refl)). lia.
  - destruct (armed (snd (run_events_verbose N cfg evs (st, no_timers)))) as [|[h d] l];
      [reflexivity|].
    destruct (H2 h d (or_introl eq_refl)). lia.
Qed.

(** X22. A first cycle that fails switches the compact engine off for
    good: with a configured trader whose [assort.items] cannot be
    iterated, the start of [postDBLoad] logs "Initialization failed", no
    interval is armed and the timer slot stays empty, so no later cycle
    runs.  The verbose engine on the same state arms its interval when
    [intervalSeconds > 0]. *)
Theorem X22_failed_first_cycle_stops_schedule N cfg (tm : timers) (st : state)
  (tid : string) (nick : option nickname_value) (bs : list (string * scheme)) :
  timers_ok tm ->
  enabled cfg = true -> autoDiscoverTraderIds cfg = false ->
  stickToBaseline cfg && (0 <? size (baselinePrices st))%nat = false ->
  In tid (traderIds cfg) ->
  assoc tid (traders (db st))
  = Some {| nickname := nick;
            assort := Some {| items := ItemsOther; barter_scheme := bs |} |} ->
  (armed (snd (postDBLoad_start N cfg tm st)) = [] /\
   intervalTimer (snd (postDBLoad_start N cfg tm st)) = None /\
   logger (fst (postDBLoad_start N cfg tm st))
   = logger st ++ [(error, tag ("Initialization failed: " ++ TypeError_not_iterable))] /\
   forall evs, Forall (fun ev => ev = Fire) evs ->
               run_events N cfg evs (postDBLoad_start N cfg tm st)
               = postDBLoad_start N cfg tm st) /\
  armed (snd (postDBLoad_start_verbose N cfg tm st)) = scheduled cfg (next_handle tm).
Proof.
  intros Hok He Ha Hs Hin Ht.
  pose proof (_runCycle_not_iterable N cfg st tid nick bs He Ha Hs Hin Ht) as Hc.
  destruct (clear_existing_timer_ok tm Hok) as (Hslot & Harm & _).
  assert (E : postDBLoad_start N cfg tm st
              = (snd (log error (tag ("Initialization failed: " ++ TypeError_not_iterable))
                        (with_baselinePrices ∅ st)),
                 clear_existing_timer tm)).
  { unfold postDBLoad_start, _schedule. rewrite Hc. reflexivity. }
  split.
  - rewrite E. cbn [fst snd]. split; [exact Harm|]. split; [exact Hslot|]. split.
    + reflexivity.
    + intros evs Hev. unfold run_events.
      induction Hev as [|ev evs -> _ IH]; [reflexivity|]. cbn [fold_left run_event snd].
      rewrite Harm. exact IH.
  - unfold postDBLoad_start_verbose.
    destruct (_schedulePeriodicRandomization_spec N cfg tm st Hok)
      as (st' & tm' & -> & _ & Harm'). exact Harm'.
Qed.


(** ** What a cycle leaves alone in the store *)

Lemma offer_shape_refl o : offer_shape o o.
Proof. destruct o; cbn; auto. Qed.

Lemma offer_shape_trans a b c : offer_shape a b -> offer_shape b c -> offer_shape a c.
Proof. destruct a, b, c; cbn; try tauto; congruence. Qed.

Lemma Forall2_refl_of {X : Type} (R : X -> X -> Prop) :
  (forall x, R x x) -> forall l, Forall2 R l l.
Proof. intros H l. induction l; constructor; auto. Qed.

Lemma Forall2_trans_of {X : Type} (R : X -> X -> Prop) :
  (forall a b c, R a b -> R b c -> R a c) ->
  forall l1 l2 l3, Forall2 R l1 l2 -> Forall2 R l2 l3 -> Forall2 R l1 l3.
Proof.
  intros H l1 l2 l3 H12. revert l3.
  induction H12 as [|a b l1 l2 Hab _ IH]; intros l3 H23; inversion H23; subst;
    constructor; eauto.
Qed.

Lemma offers_shape_refl l : offers_shape l l.
Proof. apply Forall2_refl_of, offer_shape_refl. Qed.

Lemma offers_shape_trans a b c : offers_shape a b -> offers_shape b c -> offers_shape a c.
Proof. apply Forall2_trans_of, offer_shape_trans. Qed.

Lemma scheme_shape_refl s : scheme_shape s s.
Proof.
  destruct s as [[|o rest]|l]; cbn; auto using offers_shape_refl.
Qed.

Lemma scheme_shape_trans a b c : scheme_shape a b -> scheme_shape b c -> scheme_shape a c.
Proof.
  destruct a as [[|o1 r1]|l1], b as [[|o2 r2]|l2], c as [[|o3 r3]|l3]; cbn; try tauto.
  - intros [H1 ->] [H2 ->]. split; [eapply offers_shape_trans; eassumption|reflexivity].
  - apply offers_shape_trans.
Qed.

Lemma bindings_shape_refl {X : Type} (R : X -> X -> Prop) :
  (forall x, R x x) -> forall l, bindings_shape R l l.
Proof. intros H. apply Forall2_refl_of. auto. Qed.

Lemma bindings_shape_trans {X : Type} (R : X -> X -> Prop) :
  (forall a b c, R a b -> R b c -> R a c) ->
  forall l1 l2 l3, bindings_shape R l1 l2 -> bindings_shape R l2 l3 -> bindings_shape R l1 l3.
Proof.
  intros H. apply Forall2_trans_of. intros a b c [E1 H1] [E2 H2].
  split; [congruence|eauto].
Qed.

Lemma assort_shape_refl a : assort_shape a a.
Proof.
  destruct a as [a|]; cbn; [|exact I].
  split; [reflexivity|apply bindings_shape_refl, scheme_shape_refl].
Qed.

Lemma assort_shape_trans a b c : assort_shape a b -> assort_shape b c -> assort_shape a c.
Proof.
  destruct a as [a|], b as [b|], c as [c|]; cbn; try tauto.
  intros [E1 H1] [E2 H2]. split; [congruence|].
  eapply bindings_shape_trans; [apply scheme_shape_trans| |]; eassumption.
Qed.

Lemma trader_shape_refl t : trader_shape t t.
Proof. split; [reflexivity|apply assort_shape_refl]. Qed.

Lemma trader_shape_trans a b c : trader_shape a b -> trader_shape b c -> trader_shape a c.
Proof.
  intros [E1 H1] [E2 H2]. split; [congruence|eapply assort_shape_trans; eassumption].
Qed.

Lemma same_shape_refl d : same_shape d d.
Proof.
  split; [reflexivity|]. split; [reflexivity|].
  apply bindings_shape_refl, trader_shape_refl.
Qed.

Lemma same_shape_trans a b c : same_shape a b -> same_shape b c -> same_shape a c.
Proof.
  intros (P1 & H1 & T1) (P2 & H2 & T2). split; [congruence|]. split; [congruence|].
  eapply bindings_shape_trans; [apply trader_shape_trans| |]; eassumption.
Qed.

Lemma same_db_refl st : same_db st st.
Proof. reflexivity. Qed.
Lemma same_db_trans a b c : same_db a b -> same_db b c -> same_db a c.
Proof. unfold same_db. congruence. Qed.
Lemma keeps_shape_refl st : keeps_shape st st.
Proof. apply same_shape_refl. Qed.
Lemma keeps_shape_trans a b c : keeps_shape a b -> keeps_shape b c -> keeps_shape a c.
Proof. apply same_shape_trans. Qed.

Lemma same_db_keeps_shape {A : Type} (m : M A) :
  preserves same_db m -> preserves keeps_shape m.
Proof. intros H st. unfold keeps_shape. rewrite (H st). apply same_shape_refl. Qed.

(** Writing a quantity keeps the shape of the offers. *)
Lemma write_count_shape i v offers : offers_shape offers (write_count i v offers).
Proof.
  unfold write_count. destruct (offers !! i) as [[t|]|] eqn:E; try apply offers_shape_refl.
  unfold offers_shape.
  rewrite <- (list_insert_id offers i (Some t) E) at 1.
  apply Forall2_insert; [apply offers_shape_refl|reflexivity].
Qed.

Lemma scheme_with_offers_shape s l :
  offers_shape (scheme_offers s) l -> scheme_shape s (scheme_with_offers s l).
Proof. destruct s as [[|o rest]|l0]; cbn; auto. Qed.

Lemma assoc_set_shape {X : Type} (R : X -> X -> Prop) k v v' :
  (forall x, R x x) -> R v v' ->
  forall l, assoc k l = Some v -> bindings_shape R l (assoc_set k v' l).
Proof.
  intros Hrefl Hv. induction l as [|[k0 v0] l IH]; cbn; [discriminate|].
  destruct (String.eqb k0 k).
  - intros E. inversion E. subst. constructor; [split; [reflexivity|exact Hv]|].
    apply bindings_shape_refl, Hrefl.
  - intros E. constructor; [split; [reflexivity|apply Hrefl]|]. apply IH, E.
Qed.

Lemma store_offers_shape t id l d sch :
  lookup_scheme t id d = Some sch -> offers_shape (scheme_offers sch) l ->
  same_shape d (store_offers t id l d).
Proof.
  unfold lookup_scheme, store_offers. intros Hl Hs.
  destruct (assoc t (traders d)) as [[n [a|]]|] eqn:Et; try discriminate.
  rewrite Hl. split; [reflexivity|]. split; [reflexivity|]. cbn [traders].
  eapply assoc_set_shape; [apply trader_shape_refl| |exact Et].
  split; [reflexivity|]. cbn [assort assort_shape items barter_scheme].
  split; [reflexivity|].
  eapply assoc_set_shape; [apply scheme_shape_refl| |exact Hl].
  apply scheme_with_offers_shape, Hs.
Qed.

(** Stores of the same shape hold schemes of the same shape under the same
    keys, the same items and the same nicknames. *)
Lemma bindings_shape_assoc {X : Type} (R : X -> X -> Prop) k l l' :
  bindings_shape R l l' ->
  match assoc k l, assoc k l' with
  | Some v, Some v' => R v v'
  | None, None => True
  | _, _ => False
  end.
Proof.
  induction 1 as [|[k1 v1] [k2 v2] l l' [E Hv] _ IH]; cbn; [exact I|].
  cbn in E. subst k2. destruct (String.eqb k1 k); [exact Hv|exact IH].
Qed.

Lemma same_shape_schemes d d' t id : same_shape d d' -> schemes_agree d d' t id.
Proof.
  intros (_ & _ & Ht). unfold schemes_agree, lookup_scheme.
  pose proof (bindings_shape_assoc trader_shape t _ _ Ht) as H.
  destruct (assoc t (traders d)) as [[n a]|], (assoc t (traders d')) as [[n' a']|];
    try contradiction; [|exact I].
  destruct H as [_ Ha]. cbn [assort] in Ha.
  destruct a as [a|], a' as [a'|]; cbn in Ha; try contradiction; [|exact I].
  destruct Ha as [_ Hb].
  apply (bindings_shape_assoc scheme_shape id _ _ Hb).
Qed.

Lemma same_shape_trader_items d d' t : same_shape d d' -> trader_items d' t = trader_items d t.
Proof.
  intros (_ & _ & Ht). unfold trader_items.
  pose proof (bindings_shape_assoc trader_shape t _ _ Ht) as H.
  destruct (assoc t (traders d)) as [[n a]|], (assoc t (traders d')) as [[n' a']|];
    try contradiction; [|reflexivity].
  destruct H as [_ Ha]. cbn [assort] in Ha.
  destruct a as [a|], a' as [a'|]; cbn in Ha; try contradiction; [|reflexivity].
  destruct Ha as [Hi _]. destruct a, a'. cbn in Hi. subst. reflexivity.
Qed.

Lemma same_shape_nicknames d d' :
  same_shape d d' ->
  map (fun kv => (fst kv, nickname (snd kv))) (traders d')
  = map (fun kv => (fst kv, nickname (snd kv))) (traders d).
Proof.
  intros (_ & _ & Ht). induction Ht as [|[k v] [k' v'] l l' [E [Hn _]] _ IH]; [reflexivity|].
  cbn in *. subst. rewrite Hn, IH. reflexivity.
Qed.

(** Discovery reads the keys and the nicknames of the traders only. *)
Lemma filter_map_nicknames (p : option nickname_value -> bool) (l l' : list (string * trader)) :
  map (fun kv => (fst kv, nickname (snd kv))) l'
  = map (fun kv => (fst kv, nickname (snd kv))) l ->
  map fst (List.filter (fun kv => p (nickname (snd kv))) l')
  = map fst (List.filter (fun kv => p (nickname (snd kv))) l).
Proof.
  revert l'. induction l as [|[k v] l IH]; intros [|[k' v'] l'] E; try discriminate;
    [reflexivity|].
  cbn in E. inversion E as [[Ek En El]]. cbn [List.filter snd]. rewrite En.
  destruct (p (nickname v)); cbn [map fst]; [f_equal|]; apply IH, El.
Qed.

Lemma discover_of_nicknames (l l' : list (string * trader)) :
  map (fun kv => (fst kv, nickname (snd kv))) l'
  = map (fun kv => (fst kv, nickname (snd kv))) l ->
  forall found, discover l' found = discover l found.
Proof.
  revert l'. induction l as [|[k v] l IH]; intros [|[k' v'] l'] E found;
    try discriminate; [reflexivity|].
  cbn in E. inversion E as [[Ek En El]]. cbn [discover]. rewrite En.
  destruct (nickname_is_string (nickname v)); [|reflexivity]. apply IH, El.
Qed.

Lemma discovered_of_nicknames cfg st st' :
  map (fun kv => (fst kv, nickname (snd kv))) (traders (db st'))
  = map (fun kv => (fst kv, nickname (snd kv))) (traders (db st)) ->
  fst (_discoverTraders cfg st') = fst (_discoverTraders cfg st).
Proof.
  intros E. unfold _discoverTraders. rewrite !mbind_bind, !bind_get_run.
  unfold mbind, M_bind, bind, lift. rewrite (discover_of_nicknames _ _ E).
  destruct (discover (traders (db st)) []) as [found|e]; [|reflexivity].
  destruct (debug cfg); reflexivity.
Qed.

Lemma discovered_verbose_of_nicknames cfg st st' :
  map (fun kv => (fst kv, nickname (snd kv))) (traders (db st'))
  = map (fun kv => (fst kv, nickname (snd kv))) (traders (db st)) ->
  fst (_autoDiscoverRelevantTraders cfg st') = fst (_autoDiscoverRelevantTraders cfg st).
Proof.
  intros E. unfold _autoDiscoverRelevantTraders. rewrite !mbind_bind, !bind_get_run.
  rewrite (filter_map_nicknames nickname_matches _ _ E).
  destruct (debug cfg); reflexivity.
Qed.

Ltac frame_db := frame_with same_db_refl same_db_trans; try (unfold same_db; reflexivity).
Ltac frame_shape :=
  frame_with keeps_shape_refl keeps_shape_trans; try apply keeps_shape_refl.

Section StoreFrames.

Variable Number_of_string : string -> num.
Variable cfg : config.

Lemma log_same_db l msg : preserves same_db (log l msg).
Proof. unfold log. frame_db. Qed.
Lemma rng_call_same_db : preserves same_db rng_call.
Proof. intros st. unfold rng_call. destruct (mulberry32_call (rng st)). reflexivity. Qed.
Hint Resolve log_same_db rng_call_same_db : frame.

Lemma _lookupPrice_same_db id : preserves same_db (_lookupPrice Number_of_string id).
Proof. unfold _lookupPrice. frame_db. Qed.
Lemma _lookupTemplatePriceFromDatabase_same_db id :
  preserves same_db (_lookupTemplatePriceFromDatabase Number_of_string id).
Proof. unfold _lookupTemplatePriceFromDatabase. frame_db. Qed.
Hint Resolve _lookupPrice_same_db _lookupTemplatePriceFromDatabase_same_db : frame.

Lemma _buildBaselines_same_db ids :
  preserves same_db (_buildBaselines Number_of_string cfg ids).
Proof. unfold _buildBaselines. frame_db. Qed.
Lemma _buildBaselinePricesFromTraders_same_db ids force :
  preserves same_db (_buildBaselinePricesFromTraders Number_of_string cfg ids force).
Proof. unfold _buildBaselinePricesFromTraders. cbv zeta. unfold mbind, M_bind. frame_db. Qed.

Lemma _convertCurrency_same_db rubles id :
  preserves same_db (_convertCurrency Number_of_string cfg rubles id).
Proof. unfold _convertCurrency. frame_db. Qed.
Lemma _convertRublesToTargetCurrency_same_db rubles id :
  preserves same_db (_convertRublesToTargetCurrency Number_of_string cfg rubles id).
Proof. unfold _convertRublesToTargetCurrency. frame_db. Qed.
Hint Resolve _convertCurrency_same_db _convertRublesToTargetCurrency_same_db : frame.

Lemma _updateOffer_same_db offers rubles :
  preserves same_db (_updateOffer Number_of_string cfg offers rubles).
Proof. unfold _updateOffer. frame_db. Qed.
Lemma _updateTradeOfferPrice_same_db offers rubles :
  preserves same_db (_updateTradeOfferPrice Number_of_string cfg offers rubles).
Proof. unfold _updateTradeOfferPrice, write_price. frame_db. Qed.

Lemma _randomizePrice_same_db baseline :
  preserves same_db (_randomizePrice Number_of_string cfg baseline).
Proof. unfold _randomizePrice. frame_db. Qed.
Lemma _calculateRandomizedPrice_same_db baseline :
  preserves same_db (_calculateRandomizedPrice Number_of_string cfg baseline).
Proof. unfold _calculateRandomizedPrice. frame_db. Qed.

(** The updaters return the offers in their shape. *)
Lemma _updateOffer_shape offers rubles :
  returns (fun res => offers_shape offers (snd res))
          (_updateOffer Number_of_string cfg offers rubles).
Proof.
  unfold _updateOffer.
  set (target := if onlyCashTrades cfg then _ else _). clearbody target.
  destruct target as [i|]; [|apply returns_ret, offers_shape_refl].
  destruct (offers !! i) as [[t|]|]; try apply returns_ret, offers_shape_refl.
  destruct (is_ruble cfg (offer_tpl t)).
  - apply returns_ret, write_count_shape.
  - rewrite mbind_bind. apply returns_bind. intros c.
    apply returns_ret, write_count_shape.
Qed.

Lemma write_price_shape i t offers rubles :
  returns (fun res => offers_shape offers (snd res))
          (write_price Number_of_string cfg i t offers rubles).
Proof.
  unfold write_price. destruct (is_ruble cfg (offer_tpl t)).
  - apply returns_ret, write_count_shape.
  - rewrite mbind_bind. apply returns_bind. intros c.
    apply returns_ret, write_count_shape.
Qed.

Lemma _updateTradeOfferPrice_shape offers rubles :
  returns (fun res => offers_shape offers (snd res))
          (_updateTradeOfferPrice Number_of_string cfg offers rubles).
Proof.
  unfold _updateTradeOfferPrice. destruct (onlyCashTrades cfg).
  - destruct (_findCurrencyOfferInTradeList cfg offers) as [i|];
      [|apply returns_ret, offers_shape_refl].
    destruct (offers !! i) as [[t|]|]; try apply returns_ret, offers_shape_refl.
    apply write_price_shape.
  - destruct offers as [|[t|] rest]; try apply returns_ret, offers_shape_refl.
    apply write_price_shape.
Qed.

(** The step shared by the two renderings: a price is drawn, the offers
    of the item are updated and stored. *)
Lemma update_and_store_shape (price : M num)
  (update : list (option offer) -> num -> M (bool * list (option offer))) t id :
  preserves same_db price ->
  (forall offers p, preserves same_db (update offers p)) ->
  (forall offers p, returns (fun res => offers_shape offers (snd res)) (update offers p)) ->
  preserves keeps_shape
    (newPrice ← price;
     st ← get;
     match lookup_scheme t id (db st) with
     | None => ret false
     | Some sch =>
         res ← update (scheme_offers sch) newPrice;
         modify (fun st => with_db (store_offers t id (snd res) (db st)) st);;
         ret (fst res)
     end).
Proof.
  intros Hp Hu Hr st. unfold keeps_shape.
  rewrite mbind_bind. unfold bind at 1.
  pose proof (Hp st) as Hdb1. unfold same_db in Hdb1.
  destruct (price st) as [[p|e] st1]; cbn [snd] in Hdb1;
    [|cbn [snd]; rewrite Hdb1; apply same_shape_refl].
  rewrite mbind_bind, bind_get_run.
  destruct (lookup_scheme t id (db st1)) as [sch|] eqn:El;
    [|cbn [ret snd]; rewrite Hdb1; apply same_shape_refl].
  rewrite mbind_bind. unfold bind at 1.
  pose proof (Hu (scheme_offers sch) p st1) as Hdb2. unfold same_db in Hdb2.
  pose proof (Hr (scheme_offers sch) p st1) as Hres.
  destruct (update (scheme_offers sch) p st1) as [[res|e] st2]; cbn [snd] in Hdb2;
    [|cbn [snd]; rewrite Hdb2, Hdb1; apply same_shape_refl].
  specialize (Hres res st2 eq_refl). cbn beta in Hres.
  rewrite mbind_bind, bind_modify_run. cbn [ret snd db with_db].
  rewrite Hdb2, <- Hdb1. apply store_offers_shape with (sch := sch); assumption.
Qed.

Lemma _processTrader_item_shape t it :
  preserves keeps_shape (_processTrader_item Number_of_string cfg t it).
Proof.
  unfold _processTrader_item. destruct it as [i|]; [|frame_shape].
  destruct (String.eqb (item_tpl i) "" || String.eqb (item_id i) ""); [frame_shape|].
  rewrite mbind_bind. apply (preserves_get_bind _). intros st0.
  destruct (negb _ || _); [frame_shape|].
  apply update_and_store_shape.
  - apply _randomizePrice_same_db.
  - apply _updateOffer_same_db.
  - apply _updateOffer_shape.
Qed.

Lemma _randomizeTraderPrices_item_shape t it :
  preserves keeps_shape (_randomizeTraderPrices_item Number_of_string cfg t it).
Proof.
  unfold _randomizeTraderPrices_item. destruct it as [i|]; [|frame_shape].
  destruct (String.eqb (item_tpl i) "" || String.eqb (item_id i) ""); [frame_shape|].
  rewrite mbind_bind. apply (preserves_get_bind _). intros st0.
  destruct (negb _ || _); [frame_shape|].
  apply update_and_store_shape.
  - apply _calculateRandomizedPrice_same_db.
  - apply _updateTradeOfferPrice_same_db.
  - apply _updateTradeOfferPrice_shape.
Qed.

Lemma log_shape l msg : preserves keeps_shape (log l msg).
Proof. apply same_db_keeps_shape, log_same_db. Qed.
Lemma _buildBaselines_shape ids :
  preserves keeps_shape (_buildBaselines Number_of_string cfg ids).
Proof. apply same_db_keeps_shape, _buildBaselines_same_db. Qed.
Lemma _buildBaselinePricesFromTraders_shape ids force :
  preserves keeps_shape (_buildBaselinePricesFromTraders Number_of_string cfg ids force).
Proof. apply same_db_keeps_shape, _buildBaselinePricesFromTraders_same_db. Qed.
Hint Resolve log_shape _buildBaselines_shape _buildBaselinePricesFromTraders_shape
  _processTrader_item_shape _randomizeTraderPrices_item_shape : frame.

Lemma _processTrader_items_shape t l : forall n,
  preserves keeps_shape (_processTrader_items Number_of_string cfg t l n).
Proof. induction l as [|it l IH]; intros n; cbn [_processTrader_items]; frame_shape. Qed.
Lemma _randomizeTraderPrices_items_shape t l : forall n,
  preserves keeps_shape (_randomizeTraderPrices_items Number_of_string cfg t l n).
Proof.
  induction l as [|it l IH]; intros n; cbn [_randomizeTraderPrices_items]; frame_shape.
Qed.
Hint Resolve _processTrader_items_shape _randomizeTraderPrices_items_shape : frame.

Lemma _processTrader_shape t :
  preserves keeps_shape (_processTrader Number_of_string cfg t).
Proof. unfold _processTrader. frame_shape. Qed.
Lemma _randomizeTraderPrices_shape t :
  preserves keeps_shape (_randomizeTraderPrices Number_of_string cfg t).
Proof. unfold _randomizeTraderPrices. frame_shape. Qed.
Hint Resolve _processTrader_shape _randomizeTraderPrices_shape : frame.

Lemma _runCycle_shape : preserves keeps_shape (_runCycle Number_of_string cfg).
Proof.
  unfold _runCycle, _runCycle_traders, _runCycle_trader, _discoverTraders. frame_shape.
Qed.

Lemma _executeOneRandomizationCycle_shape :
  preserves keeps_shape (_executeOneRandomizationCycle Number_of_string cfg).
Proof.
  unfold _executeOneRandomizationCycle, _executeOneRandomizationCycle_traders,
    _executeOneRandomizationCycle_trader, _autoDiscoverRelevantTraders.
  frame_shape.
Qed.

End StoreFrames.

Lemma same_shape_only_quantities d d' : same_shape d d' -> only_quantities_differ d d'.
Proof.
  intros H. split; [exact H|]. split; [split; apply H|].
  split; [apply same_shape_nicknames, H|].
  split; [intros t; apply same_shape_trader_items, H|].
  intros t id. apply same_shape_schemes, H.
Qed.

(** X23. A cycle changes nothing in the store but quantities of offers, in
    either rendering and whether it returns or throws: the price table and
    the handbook are the same, the traders are the same with the same
    nicknames and the same assortment items, and under every trader and
    item the barter scheme is of the same kind and holds offers for the
    same counterparts, in the same number and order.  Hence discovery
    finds the same traders after a cycle as before it. *)
Theorem X23_cycle_changes_quantities_only N cfg (st : state) :
  only_quantities_differ (db st) (db (snd (_runCycle N cfg st))) /\
  only_quantities_differ (db st) (db (snd (_executeOneRandomizationCycle N cfg st))) /\
  fst (_discoverTraders cfg (snd (_runCycle N cfg st))) = fst (_discoverTraders cfg st) /\
  fst (_autoDiscoverRelevantTraders cfg (snd (_executeOneRandomizationCycle N cfg st)))
  = fst (_autoDiscoverRelevantTraders cfg st).
Proof.
  pose proof (_runCycle_shape N cfg st) as H1.
  pose proof (_executeOneRandomizationCycle_shape N cfg st) as H2.
  unfold keeps_shape in H1, H2.
  split; [apply same_shape_only_quantities, H1|].
  split; [apply same_shape_only_quantities, H2|].
  split.
  - apply discovered_of_nicknames, same_shape_nicknames, H1.
  - apply discovered_verbose_of_nicknames, same_shape_nicknames, H2.
Qed.


(** ** The cycle and the failures of single traders *)

Section CycleTurns.

Variable Number_of_string : string -> num.
Variable cfg : config.

Lemma _runCycle_traderIds_same_db : preserves same_db (_runCycle_traderIds cfg).
Proof.
  pose proof log_same_db.
  unfold _runCycle_traderIds, _discoverTraders. frame_db.
Qed.

Lemma _runCycle_traderIds_same_rng : preserves same_rng (_runCycle_traderIds cfg).
Proof.
  pose proof log_same_rng.
  unfold _runCycle_traderIds, _discoverTraders. frame_rng.
Qed.

(** A compact cycle whose first two steps return performs the turn of
    every identifier. *)
Lemma _runCycle_turns st ids st0 st1 :
  enabled cfg = true ->
  _runCycle_traderIds cfg st = (Ok ids, st0) ->
  _buildBaselines Number_of_string cfg ids st0 = (Ok tt, st1) ->
  _runCycle Number_of_string cfg st
  = (Ok tt, fold_left (fun s id => snd (_runCycle_trader Number_of_string cfg id s))
                      ids st1).
Proof.
  intros He Hi Hb. rewrite _runCycle_steps, He. cbn [negb].
  unfold bind. rewrite Hi, Hb. unfold _runCycle_traders.
  apply for_each_all_turns, _runCycle_trader_never_throws.
Qed.

(** A compact cycle that throws has processed no trader. *)
Lemma _runCycle_throws_untouched st e st' :
  _runCycle Number_of_string cfg st = (Throw e, st') ->
  db st' = db st /\ rng st' = rng st.
Proof.
  intros H. apply _runCycle_throws in H as [[_ Hd]|(ids & st0 & Hi & Hb)].
  - apply _discoverTraders_throws in Hd as (_ & -> & _). split; reflexivity.
  - pose proof (_runCycle_traderIds_same_db st) as D1.
    pose proof (_runCycle_traderIds_same_rng st) as R1.
    pose proof (_buildBaselines_same_db Number_of_string cfg ids st0) as D2.
    pose proof (_buildBaselines_same_rng Number_of_string cfg ids st0) as R2.
    rewrite Hi in D1, R1. rewrite Hb in D2, R2.
    unfold same_db, same_rng in *. cbn [snd] in *. split; congruence.
Qed.

(** The verbose cycle performs all its steps. *)
Lemma _executeOneRandomizationCycle_turns st :
  enabled cfg = true ->
  exists ids st0 st1,
    _executeOneRandomizationCycle_traderIds cfg st = (Ok ids, st0) /\
    _buildBaselinePricesFromTraders Number_of_string cfg ids false st0 = (Ok tt, st1) /\
    _executeOneRandomizationCycle Number_of_string cfg st
    = (Ok tt,
       fold_left (fun s id => snd (_executeOneRandomizationCycle_trader Number_of_string
                                     cfg id s)) ids st1).
Proof.
  intros He.
  assert (Hids : never_throws (_executeOneRandomizationCycle_traderIds cfg)).
  { pose proof (_autoDiscoverRelevantTraders_never_throws cfg).
    unfold _executeOneRandomizationCycle_traderIds. total. }
  destruct (Hids st) as (ids & st0 & Hi).
  destruct (_buildBaselinePricesFromTraders_never_throws Number_of_string cfg ids false st0)
    as ([] & st1 & Hb).
  exists ids, st0, st1. split; [exact Hi|]. split; [exact Hb|].
  rewrite _executeOneRandomizationCycle_steps, He. cbn [negb].
  unfold bind. rewrite Hi, Hb. unfold _executeOneRandomizationCycle_traders.
  apply for_each_all_turns, _executeOneRandomizationCycle_trader_never_throws.
Qed.

End CycleTurns.

(** C9.  The verbose cycle does what the claim says: it never throws, and
    after choosing the active identifiers and building the baselines it
    performs the turn of every identifier in list order; the turn of an
    identifier missing from the store logs a warning, the turn of a trader
    whose processing throws logs the error, and both return.  The compact
    cycle performs the same turns once its first two steps have returned,
    but these steps are outside every [try]: when they throw, the cycle
    throws with them and no trader has been processed.  Two runs on the
    store in which trader ["a"] holds an object for [assort.items] and
    trader ["b"] sells one item show both.  With the baselines already
    built, the compact cycle over ["missing"], ["a"] and ["b"] logs the
    warning, logs the failure of ["a"] and rewrites the offer of ["b"].
    With the baselines still to build, it throws in the baseline builder
    and never reaches ["b"], whose offer the verbose cycle rewrites on the
    same store. *)
Theorem C9_cycle_isolates_trader_failures N cfg :
  (forall st,
     enabled cfg = true ->
     exists ids st0 st1,
       _executeOneRandomizationCycle_traderIds cfg st = (Ok ids, st0) /\
       _buildBaselinePricesFromTraders N cfg ids false st0 = (Ok tt, st1) /\
       _executeOneRandomizationCycle N cfg st
       = (Ok tt, fold_left (fun s id => snd (_executeOneRandomizationCycle_trader N cfg id s))
                           ids st1)) /\
  (forall st ids st0 st1,
     enabled cfg = true ->
     _runCycle_traderIds cfg st = (Ok ids, st0) ->
     _buildBaselines N cfg ids st0 = (Ok tt, st1) ->
     _runCycle N cfg st
     = (Ok tt, fold_left (fun s id => snd (_runCycle_trader N cfg id s)) ids st1)) /\
  (forall st e st',
     _runCycle N cfg st = (Throw e, st') ->
     ((autoDiscoverTraderIds cfg = true /\ _discoverTraders cfg st = (Throw e, st')) \/
      (exists ids st0, _runCycle_traderIds cfg st = (Ok ids, st0) /\
                       _buildBaselines N cfg ids st0 = (Throw e, st'))) /\
     db st' = db st /\ rng st' = rng st) /\
  (forall id st,
     assoc id (traders (db st)) = None ->
     _runCycle_trader N cfg id st
     = (Ok tt, with_logger (logger st ++ [(warn, tag ("Trader not found: " ++ id))]) st) /\
     _executeOneRandomizationCycle_trader N cfg id st
     = (Ok tt, with_logger (logger st ++ [(warn, tag ("trader not found: " ++ id))]) st)) /\
  (forall id t st e st1,
     assoc id (traders (db st)) = Some t ->
     (_processTrader N cfg id st = (Throw e, st1) ->
      _runCycle_trader N cfg id st
      = (Ok tt, with_logger (logger st1 ++ [(error, tag ("Failed to process " ++ id ++ ": "
                                                          ++ e))]) st1)) /\
     (_randomizeTraderPrices N cfg id st = (Throw e, st1) ->
      _executeOneRandomizationCycle_trader N cfg id st
      = (Ok tt, with_logger (logger st1 ++ [(error, tag ("failed to randomize " ++ id ++ ": "
                                                          ++ e))]) st1))) /\
  (forall id t st n st1,
     assoc id (traders (db st)) = Some t ->
     (_processTrader N cfg id st = (Ok n, st1) ->
      _runCycle_trader N cfg id st = (Ok tt, st1)) /\
     (_randomizeTraderPrices N cfg id st = (Ok n, st1) ->
      _executeOneRandomizationCycle_trader N cfg id st = (Ok tt, st1))) /\
  (exists st',
     _runCycle decimal_Number cfg_three_traders (frozen_state tables_bad_then_good)
     = (Ok tt, st') /\
     logger st'
     = [(warn, tag "Trader not found: missing");
        (error, tag ("Failed to process a: " ++ TypeError_not_iterable))] /\
     lookup_scheme "b" "i" (db st') = Some (SNested [[ruble_offer 983]])) /\
  (_runCycle decimal_Number cfg_two_traders
     (initial_state cfg_two_traders tables_bad_then_good)
   = (Throw TypeError_not_iterable,
      with_baselinePrices ∅ (initial_state cfg_two_traders tables_bad_then_good)) /\
   exists st',
     _executeOneRandomizationCycle decimal_Number cfg_two_traders
       (initial_state cfg_two_traders tables_bad_then_good) = (Ok tt, st') /\
     lookup_scheme "b" "i" tables_bad_then_good = Some (SNested [[ruble_offer 5]]) /\
     lookup_scheme "b" "i" (db st') = Some (SNested [[ruble_offer 983]])).
Proof.
  split; [|split; [|split; [|split; [|split; [|split; [|split]]]]]].
  - intros st He. apply _executeOneRandomizationCycle_turns. exact He.
  - intros st ids st0 st1. apply _runCycle_turns.
  - intros st e st' H. split.
    + apply _runCycle_throws. exact H.
    + eapply _runCycle_throws_untouched. exact H.
  - intros id st H. split.
    + now apply _runCycle_trader_missing.
    + now apply _executeOneRandomizationCycle_trader_missing.
  - intros id t st e st1 H. split; intros E.
    + eapply _runCycle_trader_failed; eassumption.
    + eapply _executeOneRandomizationCycle_trader_failed; eassumption.
  - intros id t st n st1 H. split; intros E.
    + eapply _runCycle_trader_processed; eassumption.
    + eapply _executeOneRandomizationCycle_trader_processed; eassumption.
  - eexists. split; [vm_compute; reflexivity|]. split; vm_compute; reflexivity.
  - split.
    + vm_compute. reflexivity.
    + eexists. split; [vm_compute; reflexivity|]. split; vm_compute; reflexivity.
Qed.


(** ** Instances of the further properties *)




Lemma X8_witness_barter_only :
  _updateOffer decimal_Number (DEFAULT_CONFIG 0)
    [Some {| offer_tpl := "590c5d4b86f774784e1b9c45"; offer_count := Num 2 |}] (Num 500)
    (initial_state (DEFAULT_CONFIG 0) empty_tables)
  = (Ok (false, [Some {| offer_tpl := "590c5d4b86f774784e1b9c45"; offer_count := Num 2 |}]),
     initial_state (DEFAULT_CONFIG 0) empty_tables).
Proof.
  apply (proj1 (X8_no_update_leaves_everything decimal_Number (DEFAULT_CONFIG 0) _ _ _)).
  - reflexivity.
  - intros o [H|[]]. inversion H. vm_compute. reflexivity.
Defined.

Lemma X12_witness_items_object :
  _runCycle decimal_Number cfg_one_trader (initial_state cfg_one_trader tables_items_object)
  = (Throw TypeError_not_iterable,
     with_baselinePrices ∅ (initial_state cfg_one_trader tables_items_object)) /\
  exists st',
    _executeOneRandomizationCycle decimal_Number cfg_one_trader
      (initial_state cfg_one_trader tables_items_object) = (Ok tt, st').
Proof.
  apply (X12_not_iterable_items_abort_compact_cycle decimal_Number cfg_one_trader
           (initial_state cfg_one_trader tables_items_object) "t" (Some (NickString "AIO")) []).
  - reflexivity.
  - reflexivity.
  - vm_compute. reflexivity.
  - simpl. left. reflexivity.
  - reflexivity.
Defined.

Lemma X20_witness_first_start :
  timers_ok no_timers /\
  exists st' tm',
    _schedulePeriodicRandomization decimal_Number (DEFAULT_CONFIG 0) no_timers
      (initial_state (DEFAULT_CONFIG 0) empty_tables) = (Ok tt, st', tm') /\
    timers_ok tm' /\ armed tm' = [(O, 3600000)].
Proof.
  assert (Hok : timers_ok no_timers) by reflexivity.
  split; [exact Hok|].
  exact (proj1 (proj2 (X20_schedule_arms_one_interval decimal_Number (DEFAULT_CONFIG 0)
                         no_timers (initial_state (DEFAULT_CONFIG 0) empty_tables) Hok))).
Defined.

Lemma X22_witness_items_object :
  armed (snd (postDBLoad_start decimal_Number cfg_one_trader no_timers
                (initial_state cfg_one_trader tables_items_object))) = [] /\
  armed (snd (postDBLoad_start_verbose decimal_Number cfg_one_trader no_timers
                (initial_state cfg_one_trader tables_items_object))) = [(O, 3600000)].
Proof.
  assert (Hok : timers_ok no_timers) by reflexivity.
  assert (Hs : stickToBaseline cfg_one_trader
               && (0 <? size (baselinePrices
                                (initial_state cfg_one_trader tables_items_object)))%nat
               = false) by (vm_compute; reflexivity).
  assert (Hin : In "t"%string (traderIds cfg_one_trader)) by (simpl; left; reflexivity).
  destruct (X22_failed_first_cycle_stops_schedule decimal_Number cfg_one_trader no_timers
              (initial_state cfg_one_trader tables_items_object) "t" (Some (NickString "AIO")) []
              Hok eq_refl eq_refl Hs Hin eq_refl) as [(H1 & _) H2].
  split; [exact H1|exact H2].
Defined.
